(** * Wooly-Fluffy documentation-governance scripts: a shallow embedding

    The first part embeds the Python sources, one module for each file:

    - [Py]: the part of the Python runtime the scripts rely on (strings as
      sequences of Unicode code points, [str] methods, [posixpath]).
    - [MdSanitize]: [.agentic-sdd-upstream/scripts/md_sanitize.py].
    - [LintSot]: [scripts/lint-sot.py].
    - [ValidateApproval]: [scripts/validate-approval.py].
    - [SotRefs]: [scripts/sot_refs.py].
    - [ValidateReview]: [scripts/validate-review-json.py].
    - [ApprovalRecord]: what [scripts/validate-approval.py] does with the
      approval record and with the name of the branch.
    - [LintSotHelpers]: the root paths, the link targets and the evidence
      links of [scripts/lint-sot.py].
    - [Vocabulary]: predicates and sample values of the statements.

    The second part has the facts about them, one module for each module of
    the first part, and then the modules of the further facts ([PyMoreFacts]
    to [SotRefsMoreFacts]). The scans of the regular expression engine and of the
    [str] methods are embedded as structural recursion over the text that
    is left, with a counter for the characters already passed. The
    hand-written [while] loop of [_mask_inline_code_spans] keeps its index
    and its output list; it is proved equal to a recursion of the same
    kind, on which its facts are then proved. *)

From stdpp Require Import base list strings gmap sorting pretty.
From Stdlib Require Import NArith ZArith QArith.
From Stdlib.Strings Require Import Byte.

Local Open Scope N_scope.

(** A Python [str] is a sequence of Unicode code points. *)
Abbreviation char := N (only parsing).
Abbreviation pystr := (list N) (only parsing).

(** * The Python runtime *)
Module Py.

Abbreviation TAB := 9%N (only parsing).
Abbreviation LF := 10%N (only parsing).
Abbreviation CR := 13%N (only parsing).
Abbreviation SPACE := 32%N (only parsing).
Abbreviation HASH := 35%N (only parsing).
Abbreviation SLASH := 47%N (only parsing).
Abbreviation BACKSLASH := 92%N (only parsing).
Abbreviation BACKTICK := 96%N (only parsing).
Abbreviation PIPE := 124%N (only parsing).
Abbreviation TILDE := 126%N (only parsing).

(** ** String literals

    Source literals are written as Rocq strings (UTF-8 bytes) and decoded to
    code points by [py]. *)

Fixpoint utf8_decode (need : nat) (acc : N) (bs : list N) : pystr :=
  match bs with
  | [] => []
  | b :: bs' =>
      match need with
      | O =>
          if b <? 0x80 then b :: utf8_decode 0 0 bs'
          else if b <? 0xE0 then utf8_decode 1 (N.land b 0x1F) bs'
          else if b <? 0xF0 then utf8_decode 2 (N.land b 0x0F) bs'
          else utf8_decode 3 (N.land b 0x07) bs'
      | S k =>
          let acc' := acc * 64 + N.land b 0x3F in
          match k with
          | O => acc' :: utf8_decode 0 0 bs'
          | S _ => utf8_decode k acc' bs'
          end
      end
  end.

Definition py (s : string) : pystr :=
  utf8_decode 0 0 (map Byte.to_N (String.list_byte_of_string s)).

(** The text whose lines are the given literals, each ended by a newline. *)
Definition unlines (ls : list string) : pystr :=
  concat (map (λ l, py l ++ [LF]) ls).

(** ** Character classes *)

(** [str.isspace] on one code point; the class [\s] of [re] on [str]
    patterns is the same set. *)
Definition isspace (c : char) : bool :=
  ((9 <=? c) && (c <=? 13)) || ((28 <=? c) && (c <=? 32))
  || (c =? 0x85) || (c =? 0xA0) || (c =? 0x1680)
  || ((0x2000 <=? c) && (c <=? 0x200A))
  || (c =? 0x2028) || (c =? 0x2029) || (c =? 0x202F) || (c =? 0x205F)
  || (c =? 0x3000).

(** The line boundaries of [str.splitlines]. *)
Definition is_linebreak (c : char) : bool :=
  ((10 <=? c) && (c <=? 13)) || ((0x1C <=? c) && (c <=? 0x1E))
  || (c =? 0x85) || (c =? 0x2028) || (c =? 0x2029).

(** First code points of the runs of ten decimal digits (general category
    Nd) in the Unicode database of CPython 3.11; the run at U+1D7CE is fifty
    long, five runs of ten. *)
Definition decimal_digit_runs : list N :=
  [0x30; 0x660; 0x6F0; 0x7C0; 0x966; 0x9E6; 0xA66; 0xAE6; 0xB66; 0xBE6;
   0xC66; 0xCE6; 0xD66; 0xDE6; 0xE50; 0xED0; 0xF20; 0x1040; 0x1090;
   0x17E0; 0x1810; 0x1946; 0x19D0; 0x1A80; 0x1A90; 0x1B50; 0x1BB0;
   0x1C40; 0x1C50; 0xA620; 0xA8D0; 0xA900; 0xA9D0; 0xA9F0; 0xAA50;
   0xABF0; 0xFF10; 0x104A0; 0x10D30; 0x11066; 0x110F0; 0x11136; 0x111D0;
   0x112F0; 0x11450; 0x114D0; 0x11650; 0x116C0; 0x11730; 0x118E0;
   0x11950; 0x11C50; 0x11D50; 0x11DA0; 0x16A60; 0x16AC0; 0x16B50;
   0x1D7CE; 0x1D7D8; 0x1D7E2; 0x1D7EC; 0x1D7F6;
   0x1E140; 0x1E2F0; 0x1E950; 0x1FBF0].

(** The value of a decimal digit, [None] for any other code point: the
    class [\d] of [re] and the digits [int] accepts. *)
Definition digit_value (c : char) : option N :=
  (λ s, c - s) <$> find (λ s, (s <=? c) && (c <? s + 10)) decimal_digit_runs.

Definition isdigit (c : char) : bool := bool_decide (is_Some (digit_value c)).

(** ** Comparison, prefixes and search *)

Fixpoint str_eqb (s t : pystr) : bool :=
  match s, t with
  | [], [] => true
  | a :: s', b :: t' => (a =? b) && str_eqb s' t'
  | _, _ => false
  end.

(** [s.startswith(p)] *)
Fixpoint startswith (p s : pystr) : bool :=
  match p, s with
  | [], _ => true
  | a :: p', b :: s' => (a =? b) && startswith p' s'
  | _ :: _, [] => false
  end.

(** [s.endswith(p)] *)
Definition endswith (p s : pystr) : bool :=
  startswith (reverse p) (reverse s).

(** [s.find(p)]: the lowest index at which [p] occurs, [None] for -1. *)
Fixpoint find_sub (p s : pystr) : option nat :=
  if startswith p s then Some 0%nat
  else match s with
       | [] => None
       | _ :: s' => S <$> find_sub p s'
       end.

(** [p in s] *)
Definition contains (p s : pystr) : bool := bool_decide (is_Some (find_sub p s)).

(** [x in xs] for a list, tuple or set of strings. *)
Definition str_in (x : pystr) (xs : list pystr) : bool := existsb (str_eqb x) xs.

(** [s[a:b]] for [0 <= a <= b]. *)
Definition slice (a b : nat) (s : pystr) : pystr := take (b - a) (drop a s).

(** The longest prefix whose characters satisfy [f], and what follows it:
    a greedy character-class repetition of [re]. *)
Fixpoint take_while (f : char → bool) (s : pystr) : pystr :=
  match s with
  | c :: s' => if f c then c :: take_while f s' else []
  | [] => []
  end.

Fixpoint drop_while (f : char → bool) (s : pystr) : pystr :=
  match s with
  | c :: s' => if f c then drop_while f s' else s
  | [] => []
  end.

(** The highest index at which [c] occurs. *)
Fixpoint last_index (c : char) (s : pystr) : option nat :=
  match s with
  | [] => None
  | x :: s' =>
      match last_index c s' with
      | Some i => Some (S i)
      | None => if x =? c then Some 0%nat else None
      end
  end.

(** [str(n)] for a natural number. *)
Definition str_of_nat (n : nat) : pystr := py (pretty (N.of_nat n)).

(** ** Whitespace stripping *)

Fixpoint lstrip (s : pystr) : pystr :=
  match s with
  | c :: s' => if isspace c then lstrip s' else s
  | [] => []
  end.

Definition rstrip (s : pystr) : pystr := reverse (lstrip (reverse s)).

(** [s.strip()] *)
Definition strip (s : pystr) : pystr := rstrip (lstrip s).

(** ** Splitting and joining *)

(** [s.split(sep)] for a separator of one character: never empty. *)
Fixpoint split (sep : char) (s : pystr) : list pystr :=
  match s with
  | [] => [[]]
  | c :: s' =>
      if c =? sep then [] :: split sep s'
      else match split sep s' with
           | p :: ps => (c :: p) :: ps
           | [] => [[c]]
           end
  end.

(** [s.split(sep, 1)[0]]: the text before the first separator. *)
Fixpoint split1_head (sep : char) (s : pystr) : pystr :=
  match s with
  | [] => []
  | c :: s' => if c =? sep then [] else c :: split1_head sep s'
  end.

(** [sep.join(parts)] *)
Fixpoint join (sep : pystr) (parts : list pystr) : pystr :=
  match parts with
  | [] => []
  | [p] => p
  | p :: ps => p ++ sep ++ join sep ps
  end.

(** [s.splitlines(keepends=True)]: every line keeps its terminator; ["\r\n"]
    is one terminator; only the last line may lack one. *)
Fixpoint splitlines_keepends (s : pystr) : list pystr :=
  match s with
  | [] => []
  | c :: s' =>
      if is_linebreak c then
        match s' with
        | c' :: s'' =>
            if (c =? CR) && (c' =? LF) then [c; c'] :: splitlines_keepends s''
            else [c] :: splitlines_keepends s'
        | [] => [[c]]
        end
      else match splitlines_keepends s' with
           | l :: ls => (c :: l) :: ls
           | [] => [[c]]
           end
  end.

(** A line without its terminator. *)
Fixpoint chomp (l : pystr) : pystr :=
  match l with
  | [] => []
  | c :: l' => if is_linebreak c then [] else c :: chomp l'
  end.

(** [s.splitlines()] *)
Definition splitlines (s : pystr) : list pystr :=
  map chomp (splitlines_keepends s).

(** [s.replace(old, new)] for a non-empty [old]: the occurrences are taken
    from the left and do not overlap.  [skip] counts the characters of the
    occurrence being replaced that are still to be passed over. *)
Fixpoint replace_from (old new : pystr) (skip : nat) (s : pystr) : pystr :=
  match s with
  | [] => []
  | c :: s' =>
      match skip with
      | S k => replace_from old new k s'
      | O =>
          if startswith old s then new ++ replace_from old new (length old - 1) s'
          else c :: replace_from old new 0 s'
      end
  end.

Definition replace (old new s : pystr) : pystr := replace_from old new 0 s.

(** [s.lower()] on one character, as far as the comparison with an ASCII
    string without the letter k can tell: ASCII letters are folded and every
    other code point is kept. (Of the other code points only the Kelvin
    sign has an ASCII lower case, the letter k.) *)
Definition lower_char (c : char) : char :=
  if (65 <=? c) && (c <=? 90) then c + 32 else c.

(** ** [str.encode("utf-8")] *)

Definition byte_of_N (n : N) : byte := default x00 (Byte.of_N n).

(** The UTF-8 encoding of a code point. A surrogate, or a number that is
    no code point, has none: [UnicodeEncodeError]. *)
Definition utf8_encode_char (c : char) : option (list byte) :=
  if c <? 0x80 then Some [byte_of_N c]
  else if c <? 0x800 then
    Some [byte_of_N (0xC0 + c / 64); byte_of_N (0x80 + c mod 64)]
  else if (0xD800 <=? c) && (c <=? 0xDFFF) then None
  else if c <? 0x10000 then
    Some [byte_of_N (0xE0 + c / 4096); byte_of_N (0x80 + (c / 64) mod 64);
          byte_of_N (0x80 + c mod 64)]
  else if c <? 0x110000 then
    Some [byte_of_N (0xF0 + c / 262144); byte_of_N (0x80 + (c / 4096) mod 64);
          byte_of_N (0x80 + (c / 64) mod 64); byte_of_N (0x80 + c mod 64)]
  else None.

Definition encode_utf8 (s : pystr) : option (list byte) :=
  (λ bs, concat bs) <$> mapM utf8_encode_char s.

(** ** [posixpath] *)

(** [os.path.isabs] *)
Definition isabs (p : pystr) : bool := startswith [SLASH] p.

(** [os.path.basename]: the text after the last slash. *)
Definition basename (p : pystr) : pystr := List.last (split SLASH p) [].

Definition DOT : pystr := [46].
Definition DOTDOT : pystr := [46; 46].

(** One step of the loop of [normpath] over the components. *)
Definition normpath_step (initial_slashes : nat) (new_comps : list pystr)
    (comp : pystr) : list pystr :=
  if str_in comp [[]; DOT] then new_comps
  else if negb (str_eqb comp DOTDOT)
          || ((initial_slashes =? 0)%nat && bool_decide (new_comps = []))
          || (bool_decide (new_comps ≠ [])
              && str_eqb (List.last new_comps []) DOTDOT)
  then new_comps ++ [comp]
  else if bool_decide (new_comps ≠ []) then removelast new_comps
  else new_comps.

(** [os.path.normpath] *)
Definition normpath (path : pystr) : pystr :=
  match path with
  | [] => DOT
  | _ :: _ =>
      let initial_slashes :=
        if startswith [SLASH] path then
          if startswith [SLASH; SLASH] path
             && negb (startswith [SLASH; SLASH; SLASH] path)
          then 2%nat else 1%nat
        else 0%nat in
      let comps := split SLASH path in
      let new_comps := foldl (normpath_step initial_slashes) [] comps in
      let path := join [SLASH] new_comps in
      let path := replicate initial_slashes SLASH ++ path in
      match path with
      | [] => DOT
      | _ :: _ => path
      end
  end.

(** The order of [str]: lexicographic on the code points. *)
Fixpoint str_leb (s t : pystr) : bool :=
  match s, t with
  | [], _ => true
  | _ :: _, [] => false
  | a :: s', b :: t' => (a <? b) || ((a =? b) && str_leb s' t')
  end.

Fixpoint insert_sorted (x : pystr) (xs : list pystr) : list pystr :=
  match xs with
  | [] => [x]
  | y :: ys => if str_leb x y then x :: xs else y :: insert_sorted x ys
  end.

(** [sorted(xs)] for strings. *)
Definition sorted (xs : list pystr) : list pystr := foldr insert_sorted [] xs.

(** [xs.index(x)] for a list of strings that contains [x]. *)
Fixpoint index_of (x : pystr) (xs : list pystr) : nat :=
  match xs with
  | [] => 0%nat
  | y :: ys => if str_eqb y x then 0%nat else S (index_of x ys)
  end.

(** ** Vocabulary of the statements *)

(** [p] occurs in [s]. *)
Definition occurs (p s : pystr) : Prop := ∃ a b, s = a ++ p ++ b.

End Py.


Import Py.

(** * [md_sanitize.py]: stripping code blocks and comments *)
Module MdSanitize.

(** ** The regular expressions

    Each pattern is embedded as the function that computes what the
    source reads off the match object; [None] is "no match". *)

Definition is_blank (c : char) : bool := (c =? SPACE) || (c =? TAB).

(** [[ \t]{0,n}], greedy.  Giving a blank back never helps the patterns
    below, which continue with a character that is not a blank. *)
Fixpoint skip_blanks (n : nat) (s : pystr) : pystr :=
  match n, s with
  | S k, c :: s' => if is_blank c then skip_blanks k s' else s
  | _, _ => s
  end.

(** [[ \t]*], greedy. *)
Fixpoint drop_blanks (s : pystr) : pystr :=
  match s with
  | c :: s' => if is_blank c then drop_blanks s' else s
  | [] => []
  end.

(** The length of the run of [c] at the head of [s]. *)
Fixpoint run_length (c : char) (s : pystr) : nat :=
  match s with
  | x :: s' => if x =? c then S (run_length c s') else 0%nat
  | [] => 0%nat
  end.

(** Group 1, [((?:`{3,})|(?:~{3,}))], at the head of [s]: the fence
    character [seq[0]] and the run length [len(seq)]. *)
Definition fence_seq (s : pystr) : option (char * nat) :=
  match s with
  | c :: _ =>
      if (c =? BACKTICK) || (c =? TILDE) then
        let n := run_length c s in
        if (3 <=? n)%nat then Some (c, n) else None
      else None
  | [] => None
  end.

(** [_FENCE_OPEN_RE.match(line)], pattern [^[ \t]{0,3}((?:`{3,})|(?:~{3,}))]. *)
Definition _FENCE_OPEN_RE (line : pystr) : option (char * nat) :=
  fence_seq (skip_blanks 3 line).

(** [$] without [re.MULTILINE]: the end of the string, or just before a
    newline that ends the string. *)
Definition at_end (s : pystr) : bool :=
  match s with
  | [] => true
  | [c] => c =? LF
  | _ => false
  end.

(** [_FENCE_CLOSE_RE.match(line)], pattern
    [^[ \t]{0,3}((?:`{3,})|(?:~{3,}))[ \t]*$]. *)
Definition _FENCE_CLOSE_RE (line : pystr) : option (char * nat) :=
  let s := skip_blanks 3 line in
  match fence_seq s with
  | Some (c, n) => if at_end (drop_blanks (drop n s)) then Some (c, n) else None
  | None => None
  end.

(** [_INDENTED_CODE_RE.match(line)], pattern [^(?:\t| {4,})]. *)
Definition _INDENTED_CODE_RE (line : pystr) : bool :=
  startswith [TAB] line || startswith [SPACE; SPACE; SPACE; SPACE] line.

(** ** [strip_fenced_code_blocks] *)

(** The loop variables. [fence_char] is the empty string outside a fence
    and one character inside. *)
Record fence_state := FenceState {
  in_fence : bool;
  fence_char : pystr;
  fence_len : nat
}.

Definition no_fence : fence_state := FenceState false [] 0.

(** One iteration of the [for] loop: the next loop variables and what the
    iteration appends to [out_lines]. *)
Definition fence_step (st : fence_state) (line : pystr)
  : fence_state * list pystr :=
  if negb (in_fence st) then
    match _FENCE_OPEN_RE line with
    | Some (c, n) => (FenceState true [c] n, [])
    | None => (st, [line])
    end
  else
    match _FENCE_CLOSE_RE line with
    | Some (c, n) =>
        if str_eqb [c] (fence_char st) && (fence_len st <=? n)%nat
        then (no_fence, [])
        else (st, [])
    | None => (st, [])
    end.

Fixpoint fence_loop (st : fence_state) (lines : list pystr) : list pystr :=
  match lines with
  | [] => []
  | line :: rest =>
      let '(st', out) := fence_step st line in
      out ++ fence_loop st' rest
  end.

(** The loop variables after the lines. *)
Fixpoint fence_state_after (st : fence_state) (lines : list pystr)
  : fence_state :=
  match lines with
  | [] => st
  | line :: rest => fence_state_after (fence_step st line).1 rest
  end.

Definition strip_fenced_code_blocks (text : pystr) : pystr :=
  concat (fence_loop no_fence (splitlines_keepends text)).

(** ** [strip_indented_code_blocks] *)

Definition strip_indented_code_blocks (text : pystr) : pystr :=
  concat (filter (λ line, _INDENTED_CODE_RE line = false)
                 (splitlines_keepends text)).

(** ** [_mask_inline_code_spans] *)

(** [while i < n and text[i] == c: i += 1]: the index after the loop. *)
Fixpoint run_end (fuel : nat) (text : pystr) (c : char) (i : nat) : nat :=
  match fuel with
  | O => i
  | S fuel' =>
      if bool_decide (text !! i = Some c) then run_end fuel' text c (S i) else i
  end.

(** The [while k < n] loop: [Some k] when it leaves through [break], with
    [k] just past the closing run, [None] when it runs to the end. *)
Fixpoint closer_loop (fuel : nat) (text : pystr) (open_len k : nat) : option nat :=
  match fuel with
  | O => None
  | S fuel' =>
      match text !! k with
      | None => None
      | Some c =>
          if c =? BACKTICK then
            let k' := run_end (length text) text BACKTICK k in
            if (k' - k =? open_len)%nat then Some k'
            else closer_loop fuel' text open_len k'
          else closer_loop fuel' text open_len (S k)
      end
  end.

(** [for p in range(a, a + count): out[p] = " "] *)
Fixpoint blank_range (out : pystr) (a count : nat) : pystr :=
  match count with
  | O => out
  | S count' => blank_range (<[a := SPACE]> out) (S a) count'
  end.

(** The [while i < n] loop, with the index [i] and the list [out]. Every
    iteration moves [i] forward, so [len(text)] iterations are enough. *)
Fixpoint mask_loop (fuel : nat) (text out : pystr) (i : nat) : pystr :=
  match fuel with
  | O => out
  | S fuel' =>
      match text !! i with
      | None => out
      | Some c =>
          if c =? BACKSLASH then
            let i' := run_end (length text) text BACKSLASH i in
            let num_bs := (i' - i)%nat in
            if bool_decide (text !! i' = Some BACKTICK) && Nat.odd num_bs
            then mask_loop fuel' text out (S i')
            else mask_loop fuel' text out i'
          else if c =? BACKTICK then
            let i' := run_end (length text) text BACKTICK i in
            let open_len := (i' - i)%nat in
            match closer_loop (length text) text open_len i' with
            | Some k => mask_loop fuel' text (blank_range out i (k - i)) k
            | None => mask_loop fuel' text out i'
            end
          else mask_loop fuel' text out (S i)
      end
  end.

Definition _mask_inline_code_spans (text : pystr) : pystr :=
  mask_loop (length text) text text 0.

(** *** The same loops, by recursion on the rest of the text

    [mask_inline_code_spans_structural] proves that [mask_from] computes
    what the loop with the index computes; the facts about the mask are
    proved on it. *)

(** The search for the closing run, from [k = i]: [r] is what is left of
    the text, [run] the length of the backtick run that ends where [r]
    begins.  The result is the offset in [r] just past a run of exactly
    [open_len] backticks, the first one there is. *)
Fixpoint find_closer (open_len run : nat) (r : pystr) : option nat :=
  match r with
  | [] => if (run =? open_len)%nat then Some 0%nat else None
  | c :: r' =>
      if c =? BACKTICK then S <$> find_closer open_len (S run) r'
      else if (run =? open_len)%nat then Some 0%nat
      else S <$> find_closer open_len 0 r'
  end.

(** The [while i < n] loop over the text from the current character on.
    [skip] is how far [i] is ahead of the current character; these
    characters were decided when [i] moved over them: they are blanked
    when [blank] is set (the span [open_start .. k]) and copied otherwise. *)
Fixpoint mask_from (skip : nat) (blank : bool) (s : pystr) : pystr :=
  match s with
  | [] => []
  | c :: s' =>
      match skip with
      | S k => (if blank then SPACE else c) :: mask_from k blank s'
      | O =>
          if c =? BACKSLASH then
            let num_bs := run_length BACKSLASH s in
            let escaped :=
              match drop num_bs s with
              | c' :: _ => (c' =? BACKTICK) && Nat.odd num_bs
              | [] => false
              end in
            c :: mask_from (num_bs - 1 + (if escaped then 1 else 0)) false s'
          else if c =? BACKTICK then
            let open_len := run_length BACKTICK s in
            match find_closer open_len 0 (drop open_len s) with
            | Some k => SPACE :: mask_from (open_len + k - 1) true s'
            | None => c :: mask_from (open_len - 1) false s'
            end
          else c :: mask_from 0 false s'
      end
  end.

(** ** [strip_html_comment_blocks] *)

Definition COMMENT_OPEN : pystr := Eval vm_compute in py "<!--".
Definition COMMENT_CLOSE : pystr := Eval vm_compute in py "-->".

(** [_HTML_COMMENT_BLOCK_RE], pattern [<!--.*?-->] with [re.DOTALL], at the
    head of [s]: the length of the match, which ends with the first closer
    after the opener. *)
Definition _HTML_COMMENT_BLOCK_RE (s : pystr) : option nat :=
  if startswith COMMENT_OPEN s
  then (λ j, 4 + j + 3)%nat <$> find_sub COMMENT_CLOSE (drop 4 s)
  else None.

(** [_HTML_COMMENT_BLOCK_RE.finditer(masked)]: the matches from the left,
    without overlap, as pairs [(m.start(), m.end())]. [pos] is the index of
    the head of [s], [skip] what is left of the match being passed over. *)
Fixpoint comment_finditer (pos skip : nat) (s : pystr) : list (nat * nat) :=
  match s with
  | [] => []
  | _ :: s' =>
      match skip with
      | S k => comment_finditer (S pos) k s'
      | O =>
          match _HTML_COMMENT_BLOCK_RE s with
          | Some len =>
              (pos, (pos + len)%nat) :: comment_finditer (S pos) (len - 1) s'
          | None => comment_finditer (S pos) 0 s'
          end
      end
  end.

(** The loop that collects [parts] from the original text. *)
Fixpoint comment_parts (text : pystr) (last_end : nat) (ms : list (nat * nat))
  : list pystr :=
  match ms with
  | [] => [drop last_end text]
  | (m_start, m_end) :: ms' =>
      slice last_end m_start text :: comment_parts text m_end ms'
  end.

Definition strip_html_comment_blocks (text : pystr) : pystr :=
  let masked := _mask_inline_code_spans text in
  let result := concat (comment_parts text 0 (comment_finditer 0 0 masked)) in
  let result_masked := _mask_inline_code_spans result in
  match find_sub COMMENT_OPEN result_masked with
  | None => result
  | Some i => take i result
  end.

(** ** [sanitize_status_text] *)

Definition sanitize_status_text (text : pystr) : pystr :=
  strip_html_comment_blocks
    (strip_indented_code_blocks (strip_fenced_code_blocks text)).

(** ** Vocabulary of the statements *)

(** A line as [splitlines(keepends=True)] produces it when more text
    follows: characters that are not line boundaries, then one terminator. *)
Inductive terminated : pystr → Prop :=
  | terminated_break c : is_linebreak c = true → terminated [c]
  | terminated_crlf : terminated [CR; LF]
  | terminated_cons c l :
      is_linebreak c = false → terminated l → terminated (c :: l).

(** The list of lines of a text: every line is terminated, except that the
    last one may be a non-empty run of characters without a terminator. *)
Inductive lines_ok : list pystr → Prop :=
  | lines_ok_nil : lines_ok []
  | lines_ok_last l :
      l ≠ [] → Forall (λ c, is_linebreak c = false) l → lines_ok [l]
  | lines_ok_cons l ls : terminated l → lines_ok ls → lines_ok (l :: ls).

(** The line opens a fence of tildes. *)
Definition opens_tilde_fence (line : pystr) : bool :=
  match _FENCE_OPEN_RE line with
  | Some (c, _) => c =? TILDE
  | None => false
  end.

(** No line of the text opens a fence. *)
Definition opener_free (text : pystr) : Prop :=
  Forall (λ line, _FENCE_OPEN_RE line = None) (splitlines_keepends text).

(** Outside a fence the loop variables have their initial values. *)
Definition fence_inv (st : fence_state) : Prop :=
  in_fence st = false → st = no_fence.

(** The line closes a fence that was opened by [len] characters [c]. *)
Definition closes (c : char) (len : nat) (line : pystr) : bool :=
  match _FENCE_CLOSE_RE line with
  | Some (c', n) => (c' =? c) && (len <=? n)%nat
  | None => false
  end.

End MdSanitize.

Import MdSanitize.


(** * [lint-sot.py]: the linter of the source-of-truth documents *)
Module LintSot.

Record LintError := { path : pystr; message : pystr }.

(** ** The regular expressions with [re.MULTILINE] *)

(** [re.search] for a pattern that begins with [^]: the pattern, given as
    the test [m] on the text from a position on, is tried at the start of
    the text and after every newline, from the left. [bol] tells whether
    the head of [s] is such a position. *)
Fixpoint search_bol (m : pystr → bool) (bol : bool) (s : pystr) : bool :=
  (bol && m s) ||
  match s with
  | [] => false
  | c :: s' => search_bol m (c =? LF) s'
  end.

Definition STATUS_LABEL : pystr := Eval vm_compute in py "ステータス".

(** [\s*-\s*ステータス\s*:\s*\S] at the head of [s]. Each [\s*] is followed
    by a character that is no whitespace, so the greedy choice is the only
    one that can match. *)
Definition status_any_at (s : pystr) : bool :=
  match lstrip s with
  | c :: s1 =>
      (c =? 45) &&
      let s2 := lstrip s1 in
      startswith STATUS_LABEL s2 &&
      match lstrip (drop (length STATUS_LABEL) s2) with
      | c3 :: s3 =>
          (c3 =? 58) &&
          match lstrip s3 with
          | _ :: _ => true
          | [] => false
          end
      | [] => false
      end
  | [] => false
  end.

(** [_STATUS_ANY_RE.search(text) is not None], pattern
    [^\s*-\s*ステータス\s*:\s*\S]. *)
Definition _STATUS_ANY_RE (text : pystr) : bool :=
  search_bol status_any_at true text.

(** [\s*$] at the head of [s]: the offset at which [$] holds, the end of
    the text or a newline. The greedy [\s*] takes the whole run of
    whitespace and gives characters back until [$] holds, so the offset is
    the largest there is. *)
Definition spaces_then_eol (s : pystr) : option nat :=
  let w := take_while isspace s in
  match drop (length w) s with
  | [] => Some (length w)
  | _ :: _ => last_index LF w
  end.

(** [\s*LABEL(\d+)\s*$] at the head of [s], where [label] ends with the
    hyphen: group 1 and the length of the match. *)
Definition marker_at (label s : pystr) : option (pystr * nat) :=
  let s1 := lstrip s in
  if startswith label s1 then
    let s2 := drop (length label) s1 in
    let digits := take_while isdigit s2 in
    match digits with
    | [] => None
    | _ :: _ =>
        (λ p, (digits,
               (length s - length s1 + length label + length digits + p)%nat))
          <$> spaces_then_eol (drop (length digits) s2)
    end
  else None.

(** [\s*#{1,6}\s] at the head of [s]. *)
Definition heading_at (s : pystr) : bool :=
  let s1 := lstrip s in
  let r := run_length HASH s1 in
  (1 <=? r)%nat && (r <=? 6)%nat &&
  match drop r s1 with
  | c :: _ => isspace c
  | [] => false
  end.

Definition HRULE : pystr := Eval vm_compute in py "---".

(** [\s*---\s*$] at the head of [s]. *)
Definition hrule_at (s : pystr) : bool :=
  let s1 := lstrip s in
  startswith HRULE s1 &&
  bool_decide (is_Some (spaces_then_eol (drop (length HRULE) s1))).

(** A match object: [m.group(0)] and the groups from 1 on, [None] for a
    group that took no part in the match. *)
Record re_match := ReMatch { group0 : pystr; groups : list (option pystr) }.

(** [finditer] for a pattern that begins with [^] and never matches the
    empty string: [m] gives the match at a line start. The matches are
    taken from the left and do not overlap; [skip] is what is left of the
    match being passed over. *)
Fixpoint finditer_bol (m : pystr → option re_match) (bol : bool) (skip : nat)
    (s : pystr) : list re_match :=
  match s with
  | [] => []
  | c :: s' =>
      match skip with
      | S k => finditer_bol m (c =? LF) k s'
      | O =>
          match (if bol then m s else None) with
          | Some r => r :: finditer_bol m (c =? LF) (length (group0 r) - 1) s'
          | None => finditer_bol m (c =? LF) 0 s'
          end
      end
  end.

Definition CANDIDATE_LABEL : pystr := Eval vm_compute in py "候補-".
Definition ADJACENT_LABEL : pystr := Eval vm_compute in py "隣接領域-".
Definition ABSTRACTION_LABEL : pystr := Eval vm_compute in py "抽象化-".

(** The lookahead of [_RESEARCH_CANDIDATE_BLOCK_RE],
    [(?=^\s*候補-\d+\s*$|^\s*#{1,6}\s|^\s*---\s*$|\Z)]. *)
Definition candidate_block_stop (bol : bool) (s : pystr) : bool :=
  (bol && (bool_decide (is_Some (marker_at CANDIDATE_LABEL s))
           || heading_at s || hrule_at s))
  || bool_decide (s = []).

(** [.*?] with [re.DOTALL] before the lookahead: the least number of
    characters after which the lookahead holds. *)
Fixpoint candidate_block_body (bol : bool) (s : pystr) : nat :=
  if candidate_block_stop bol s then 0%nat
  else match s with
       | [] => 0%nat
       | c :: s' => S (candidate_block_body (c =? LF) s')
       end.

(** [_RESEARCH_CANDIDATE_BLOCK_RE] at a line start, pattern
    [^\s*候補-(\d+)\s*$.*?(?=^\s*候補-\d+\s*$|^\s*#{1,6}\s|^\s*---\s*$|\Z)]
    with [re.DOTALL]. *)
Definition candidate_block_at (s : pystr) : option re_match :=
  match marker_at CANDIDATE_LABEL s with
  | Some (digits, p) =>
      let bol := bool_decide (s !! (p - 1)%nat = Some LF) in
      let len := (p + candidate_block_body bol (drop p s))%nat in
      Some (ReMatch (take len s) [Some digits])
  | None => None
  end.

(** [list(_RESEARCH_CANDIDATE_BLOCK_RE.finditer(text))] *)
Definition _RESEARCH_CANDIDATE_BLOCK_RE (text : pystr) : list re_match :=
  finditer_bol candidate_block_at true 0 text.

(** A marker pattern [^\s*LABEL(\d+)\s*$] at a line start. *)
Definition marker_match (label s : pystr) : option re_match :=
  (λ '(digits, len), ReMatch (take len s) [Some digits]) <$> marker_at label s.

(** [_RESEARCH_ADJACENT_RE.finditer(text)], pattern [^\s*隣接領域-(\d+)\s*$]. *)
Definition _RESEARCH_ADJACENT_RE (text : pystr) : list re_match :=
  finditer_bol (marker_match ADJACENT_LABEL) true 0 text.

(** [_RESEARCH_ABSTRACTION_RE.finditer(text)], pattern [^\s*抽象化-(\d+)\s*$]. *)
Definition _RESEARCH_ABSTRACTION_RE (text : pystr) : list re_match :=
  finditer_bol (marker_match ABSTRACTION_LABEL) true 0 text.

(** ** [int] on a string *)

(** The whitespace [int] strips: ASCII whitespace, and the Unicode
    whitespace beyond ASCII. *)
Definition int_space (c : char) : bool :=
  ((9 <=? c) && (c <=? 13)) || (c =? SPACE) || ((128 <=? c) && isspace c).

(** Digits with single underscores between them: the value and the number
    of digits. *)
Fixpoint int_digits (acc : N) (count : nat) (s : pystr) : option (N * nat) :=
  match s with
  | [] => None
  | c :: s' =>
      match digit_value c with
      | None => None
      | Some d =>
          let acc' := acc * 10 + d in
          match s' with
          | [] => Some (acc', S count)
          | c' :: s'' =>
              if c' =? 95 then int_digits acc' (S count) s''
              else int_digits acc' (S count) s'
          end
      end
  end.

(** [sys.int_max_str_digits], as CPython 3.11 sets it. *)
Definition int_max_str_digits : nat := 4300.

(** [int(s)]; [None] is [ValueError]. *)
Definition py_int (s : pystr) : option Z :=
  let t := reverse (drop_while int_space (reverse (drop_while int_space s))) in
  let '(neg, body) :=
    match t with
    | c :: t' => if c =? 45 then (true, t') else if c =? 43 then (false, t') else (false, t)
    | [] => (false, t)
    end in
  match int_digits 0 0 body with
  | Some (v, count) =>
      if (count <=? int_max_str_digits)%nat
      then Some (if neg then (- Z.of_N v)%Z else Z.of_N v)
      else None
  | None => None
  end.

(** ** [_unique_ints] *)

(** [int(m.group(1))] under the [try]: [None] when there is no group 1
    ([IndexError]), when it took no part in the match ([TypeError]) or when
    it is no number ([ValueError]). *)
Definition match_int (m : re_match) : option Z :=
  match groups m !! 0%nat with
  | Some (Some g) => py_int g
  | _ => None
  end.

Fixpoint unique_ints_loop (ms : list re_match) (seen : gset Z) (out : list Z)
  : list Z :=
  match ms with
  | [] => out
  | m :: ms' =>
      match match_int m with
      | None => unique_ints_loop ms' seen out
      | Some v =>
          if decide (v ∈ seen) then unique_ints_loop ms' seen out
          else unique_ints_loop ms' ({[v]} ∪ seen) (out ++ [v])
      end
  end.

Definition _unique_ints (ms : list re_match) : list Z :=
  merge_sort Z.le (unique_ints_loop ms ∅ []).

(** ** [lint_status_format] *)

Definition STATUS_INDENTED_MESSAGE : pystr := Eval vm_compute in
  py "ステータス行がインデント（4スペース以上）されています。メタ情報のステータスはトップレベル（インデントなし）で記述してください。例: - ステータス: Approved".

Definition DOCS_PRD : pystr := Eval vm_compute in py "docs/prd/".
Definition DOCS_EPICS : pystr := Eval vm_compute in py "docs/epics/".
Definition TEMPLATE_MD : pystr := Eval vm_compute in py "_template.md".

Definition lint_status_format (rel_path text : pystr) : list LintError :=
  if negb (startswith DOCS_PRD rel_path || startswith DOCS_EPICS rel_path)
  then []
  else if str_eqb (basename rel_path) TEMPLATE_MD then []
  else
    let fenced_stripped := strip_fenced_code_blocks text in
    let partial := strip_html_comment_blocks fenced_stripped in
    let full := sanitize_status_text text in
    if _STATUS_ANY_RE partial && negb (_STATUS_ANY_RE full)
    then [{| path := rel_path; message := STATUS_INDENTED_MESSAGE |}]
    else [].

(** ** [strip_inline_code_spans] *)

(** The [while i < n] loop from the current character on; [skip] is how far
    [i] is ahead of it, over a code span that is left out. A delimiter
    without a second occurrence is kept, and the scan goes on after it. *)
Fixpoint strip_spans_from (skip copy : nat) (s : pystr) : pystr :=
  match s with
  | [] => []
  | ch :: s' =>
      match skip, copy with
      | S k, _ => strip_spans_from k copy s'
      | O, S k => ch :: strip_spans_from 0 k s'
      | O, O =>
          if negb (ch =? BACKTICK) then ch :: strip_spans_from 0 0 s'
          else
            let j := run_length BACKTICK s in
            let delim := take j s in
            match find_sub delim (drop j s) with
            | None => ch :: strip_spans_from 0 (j - 1) s'
            | Some k => strip_spans_from (j + k + j - 1) 0 s'
            end
      end
  end.

Definition strip_inline_code_spans (text : pystr) : pystr :=
  strip_spans_from 0 0 text.

(** ** [lint_research_contract]: the candidate blocks *)

(** The text the contract is checked on. *)
Definition contract_text_of (text : pystr) : pystr :=
  strip_html_comment_blocks
    (strip_inline_code_spans
       (strip_indented_code_blocks (strip_fenced_code_blocks text))).

Definition CANDIDATE_COUNT_MESSAGE : pystr := Eval vm_compute in
  py "調査ドキュメントには候補（候補-1..）を 5件以上含めてください。 検出件数: ".

(** The first check on [contract_text]: at least five candidate blocks. *)
Definition lint_candidate_count (rel_path contract_text : pystr)
  : list LintError :=
  let candidate_blocks := _RESEARCH_CANDIDATE_BLOCK_RE contract_text in
  if (length candidate_blocks <? 5)%nat
  then [{| path := rel_path;
           message := CANDIDATE_COUNT_MESSAGE
                        ++ str_of_nat (length candidate_blocks) |}]
  else [].

(** ** [extract_labeled_block] *)

Fixpoint labeled_block_loop (start_label : pystr) (end_labels : list pystr)
    (in_block : bool) (lines : list pystr) : list pystr :=
  match lines with
  | [] => []
  | line :: rest =>
      let s := strip line in
      if negb in_block then
        labeled_block_loop start_label end_labels (str_eqb s start_label) rest
      else if str_in s end_labels then []
      else line :: labeled_block_loop start_label end_labels true rest
  end.

Definition extract_labeled_block (section start_label : pystr)
    (end_labels : list pystr) : pystr :=
  join [LF] (labeled_block_loop start_label end_labels false (splitlines section)).

(** ** [count_markdown_table_rows_with_headers] *)

Definition parse_table_cells (row : pystr) : list pystr :=
  let s := strip row in
  let body := drop 1 s in
  let body := if endswith [PIPE] body then removelast body else body in
  map strip (split PIPE body).

Definition is_align_char (c : char) : bool :=
  (c =? 45) || (c =? 58) || (c =? PIPE) || (c =? SPACE).

(** [re.fullmatch(r"\|\s*[-:| ]+\|?\s*", t) is not None]: some way of
    cutting [t] after the pipe into whitespace, one or more characters of
    the class, an optional pipe and whitespace. *)
Definition is_alignment_row (t : pystr) : bool :=
  startswith [PIPE] t &&
  let r := drop 1 t in
  existsb (λ i,
    forallb isspace (take i r) &&
    existsb (λ j,
      forallb is_align_char (take (S j) (drop i r)) &&
      (S j <=? length (drop i r))%nat &&
      let r2 := drop (S j) (drop i r) in
      forallb isspace r2 ||
      (startswith [PIPE] r2 && forallb isspace (drop 1 r2)))
      (seq 0 (length r)))
    (seq 0 (S (length r))).

(** The [while j < len(lines)] loop over the lines after the header. *)
Fixpoint count_data_rows (expected_cols : nat) (count : Z) (lines : list pystr)
  : Z :=
  match lines with
  | [] => count
  | line :: rest =>
      let t := strip line in
      if negb (startswith [PIPE] t) then count
      else if is_alignment_row t then count_data_rows expected_cols count rest
      else if negb (length (parse_table_cells t) =? expected_cols)%nat
      then count_data_rows expected_cols count rest
      else count_data_rows expected_cols (count + 1)%Z rest
  end.

(** The line is the header of the table: it starts with a pipe and its
    cells include every required header. *)
Definition is_table_header (required_headers : list pystr) (line : pystr)
  : bool :=
  let s := strip line in
  startswith [PIPE] s &&
  forallb (λ h, str_in h (parse_table_cells s)) required_headers.

(** The [for i, line in enumerate(lines)] loop; [-1] when no line is a
    header. *)
Fixpoint count_table_rows (required_headers : list pystr) (lines : list pystr)
  : Z :=
  match lines with
  | [] => (-1)%Z
  | line :: rest =>
      if is_table_header required_headers line
      then count_data_rows (length (parse_table_cells (strip line))) 0 rest
      else count_table_rows required_headers rest
  end.

Definition count_markdown_table_rows_with_headers (section : pystr)
    (required_headers : list pystr) : Z :=
  count_table_rows required_headers (splitlines section).

(** ** [lint_epic_external_service_comparison]: the comparison table *)

Definition _RESEARCH_EPIC_REQUIRED_TABLE_COLUMNS : list pystr :=
  Eval vm_compute in
  map py ["サービス名"; "ベンダー"; "初期費用"; "月額費用"; "レイテンシ";
          "可用性SLO"; "運用負荷"; "適用判定"].

Definition TABLE_LABEL : pystr := Eval vm_compute in py "定量比較表:".
Definition REASON_LABEL : pystr := Eval vm_compute in py "判定理由:".

Definition TABLE_COLUMNS_MESSAGE : pystr := Eval vm_compute in
  py "外部サービス比較ゲートの '定量比較表:' に必須列がありません。 必須列: サービス名 / ベンダー / 初期費用 / 月額費用 / レイテンシ / 可用性SLO / 運用負荷 / 適用判定".

Definition TABLE_ROWS_MESSAGE : pystr := Eval vm_compute in
  py "外部サービス比較ゲートの '定量比較表:' は 3行以上のデータ行が必要です".

(** The check of the table under ['定量比較表:'], on the section of the
    comparison gate: what it appends to [errs]. *)
Definition lint_comparison_table (rel_path section : pystr) : list LintError :=
  let table_block := extract_labeled_block section TABLE_LABEL [REASON_LABEL] in
  let table_rows :=
    count_markdown_table_rows_with_headers
      table_block _RESEARCH_EPIC_REQUIRED_TABLE_COLUMNS in
  if (table_rows =? -1)%Z
  then [{| path := rel_path; message := TABLE_COLUMNS_MESSAGE |}]
  else if (table_rows <? 3)%Z
  then [{| path := rel_path; message := TABLE_ROWS_MESSAGE |}]
  else [].

(** ** Vocabulary of the statements *)

(** A data row of a table whose header has [cols] cells. *)
Definition is_data_row (cols : nat) (line : pystr) : bool :=
  let t := strip line in
  startswith [PIPE] t && negb (is_alignment_row t) &&
  (length (parse_table_cells t) =? cols)%nat.

(** The table ends where the lines end or a line does not start with a
    pipe. *)
Definition table_ends (lines : list pystr) : bool :=
  match lines with
  | [] => true
  | line :: _ => negb (startswith [PIPE] (strip line))
  end.

(** A comparison gate section whose table has the required columns, an
    alignment row and two data rows. *)
Definition two_row_section : pystr :=
  unlines ["外部サービス比較ゲート: Required"; "定量比較表:"; "";
    "| サービス名 | ベンダー | 初期費用 | 月額費用 | レイテンシ | 可用性SLO | 運用負荷 | 適用判定 |";
    "|---|---|---|---|---|---|---|---|";
    "| A | a | 0 | 1 | 2 | 3 | 4 | Yes |";
    "| B | b | 0 | 1 | 2 | 3 | 4 | No |";
    ""; "判定理由:"; "- x"].

End LintSot.

Import LintSot.

(** * [validate-approval.py]: the hash of the approved estimate *)
Module ValidateApproval.

Definition CRLF : pystr := [CR; LF].

(** The text with its line endings normalised and a final newline, before
    it is encoded. *)
Definition normalize_text (text : pystr) : pystr :=
  let text := replace [CR] [LF] (replace CRLF [LF] text) in
  if negb (endswith [LF] text) then text ++ [LF] else text.

(** [normalize_text_for_hash]; [None] is the [UnicodeEncodeError] of
    [encode]. *)
Definition normalize_text_for_hash (text : pystr) : option (list byte) :=
  encode_utf8 (normalize_text text).

Definition SHA256_PREFIX : pystr := Eval vm_compute in py "sha256:".

Section Hash.
(** [hashlib.sha256(data).hexdigest()] *)
Variable sha256_hexdigest : list byte → pystr.

Definition sha256_prefixed (data : list byte) : pystr :=
  SHA256_PREFIX ++ sha256_hexdigest data.

(** [computed_hash] in [main], from the text of the estimate. *)
Definition computed_hash (estimate_text : pystr) : option pystr :=
  sha256_prefixed <$> normalize_text_for_hash estimate_text.

(** The comparison of the gate: [recorded_hash != computed_hash], the
    estimate drifted. *)
Definition estimate_drift (recorded_hash estimate_text : pystr)
  : option bool :=
  (λ h, negb (str_eqb recorded_hash h)) <$> computed_hash estimate_text.
End Hash.

(** ** Vocabulary of the statements *)

(** A text as a sequence of characters and line endings, where a line
    ending is ["\r\n"], a lone ["\r"] or ["\n"]. *)
Inductive token := Char (c : char) | Eol.

Fixpoint tokens (s : pystr) : list token :=
  match s with
  | [] => []
  | c :: s' =>
      if c =? CR then
        match s' with
        | c' :: s'' => if c' =? LF then Eol :: tokens s'' else Eol :: tokens s'
        | [] => [Eol]
        end
      else if c =? LF then Eol :: tokens s'
      else Char c :: tokens s'
  end.

(** The tokens without a final line ending. *)
Definition drop_final_eol (ts : list token) : list token :=
  match reverse ts with
  | Eol :: r => reverse r
  | _ => ts
  end.

(** Two texts differ at most in the convention of their line endings and
    in the presence of a final line ending. *)
Definition same_modulo_line_endings (s t : pystr) : Prop :=
  drop_final_eol (tokens s) = drop_final_eol (tokens t).

Definition render_token (t : token) : char :=
  match t with
  | Char c => c
  | Eol => LF
  end.

End ValidateApproval.

Import ValidateApproval.

(** * [sot_refs.py]: references to documents of the repository *)
Module SotRefs.

Definition is_safe_repo_relative (path : pystr) : bool :=
  match path with
  | [] => false
  | _ :: _ =>
      if startswith [SLASH] path then false
      else
        let parts := filter (λ p, p ≠ []) (split SLASH path) in
        if str_in DOTDOT parts then false
        else if str_in path [DOT; DOTDOT] then false
        else true
  end.

(** The pattern [\[[^\]]*\]\(([^)]+)\)] at the head of [s]: group 1. Each
    negated class runs up to the first character it excludes, which is the
    one the pattern needs next. *)
Definition md_link_at (s : pystr) : option pystr :=
  match s with
  | c :: s1 =>
      if c =? 91 then
        match drop_while (λ x, negb (x =? 93)) s1 with
        | c2 :: c3 :: s3 =>
            if (c2 =? 93) && (c3 =? 40) then
              let target := take_while (λ x, negb (x =? 41)) s3 in
              match target, drop (length target) s3 with
              | _ :: _, _ :: _ => Some target
              | _, _ => None
              end
            else None
        | _ => None
        end
      else None
  | [] => None
  end.

(** [re.search] of that pattern: the leftmost match. *)
Fixpoint md_link_search (s : pystr) : option pystr :=
  match md_link_at s with
  | Some target => Some target
  | None =>
      match s with
      | [] => None
      | _ :: s' => md_link_search s'
      end
  end.

(** [ref[1:-1].strip()] when [ref] starts with [opening] and ends with
    [closing]. *)
Definition unwrap (opening closing : char) (ref : pystr) : pystr :=
  if startswith [opening] ref && endswith [closing] ref
  then strip (removelast (drop 1 ref))
  else ref.

Definition normalize_reference (ref : pystr) : pystr :=
  let ref := strip ref in
  let ref :=
    match md_link_search ref with
    | Some target => strip target
    | None => ref
    end in
  let ref := unwrap 60 62 ref in
  let ref := unwrap BACKTICK BACKTICK ref in
  strip (split1_head HASH ref).

(** What the code reads off the result of [urllib.parse.urlparse]. *)
Record ParseResult := {
  scheme : pystr;
  hostname : option pystr;
  url_path : pystr
}.

(** The [ValueError]s of [resolve_ref_to_repo_path], and the one
    [urlparse] may raise. *)
Inductive ref_error :=
  | EmptyReference
  | UrlparseError (ref : pystr)
  | InvalidBlobURL (ref : pystr)
  | InvalidTreeURL (ref : pystr)
  | InvalidRawURL (ref : pystr)
  | UnsafeFromURL (ref : pystr)
  | UnsupportedURL (ref : pystr)
  | AbsoluteOutsideRepo (ref : pystr)
  | UnsafeRelative (rel : pystr).

Definition HTTP : pystr := Eval vm_compute in py "http".
Definition HTTPS : pystr := Eval vm_compute in py "https".
Definition BLOB : pystr := Eval vm_compute in py "blob".
Definition TREE : pystr := Eval vm_compute in py "tree".
Definition RAW_HOST : pystr := Eval vm_compute in py "raw.githubusercontent.com".
Definition os_sep : pystr := [SLASH].

(** The candidate of the last branch: a relative reference, normalised
    without access to the file system. *)
Definition relative_candidate (ref : pystr) : pystr :=
  let rel := ref in
  let rel := if startswith [46; SLASH] rel then drop 2 rel else rel in
  let rel := strip rel in
  let rel := replace [BACKSLASH] [SLASH] rel in
  replace os_sep [SLASH] (normpath rel).

Section Resolve.
(** The environment: [urlparse] ([None] when it raises [ValueError]),
    [os.path.realpath], which reads the file system, and
    [os.path.relpath]. *)
Variable urlparse : pystr → option ParseResult.
Variable realpath : pystr → pystr.
Variable relpath : pystr → pystr → pystr.

(** The branch of the GitHub URLs with the keyword [kw]. *)
Definition resolve_view (kw : pystr) (invalid : ref_error) (ref : pystr)
    (parts : list pystr) : ref_error + pystr :=
  let i := index_of kw parts in
  if (length parts <=? i + 2)%nat then inl invalid
  else
    let rel := join [SLASH] (drop (i + 2) parts) in
    if negb (is_safe_repo_relative rel) then inl (UnsafeFromURL ref)
    else inr rel.

Definition resolve_ref_to_repo_path (repo_root ref : pystr)
  : ref_error + pystr :=
  let ref := normalize_reference ref in
  match ref with
  | [] => inl EmptyReference
  | _ :: _ =>
    match urlparse ref with
    | None => inl (UrlparseError ref)
    | Some parsed =>
      if str_in (scheme parsed) [HTTP; HTTPS] then
        let host := map lower_char (default [] (hostname parsed)) in
        let path := url_path parsed in
        let parts := filter (λ p, p ≠ []) (split SLASH path) in
        if str_in BLOB parts then
          resolve_view BLOB (InvalidBlobURL ref) ref parts
        else if str_in TREE parts then
          resolve_view TREE (InvalidTreeURL ref) ref parts
        else if str_eqb host RAW_HOST then
          if (length parts <? 5)%nat then inl (InvalidRawURL ref)
          else
            let rel := join [SLASH] (drop 4 parts) in
            if negb (is_safe_repo_relative rel) then inl (UnsafeFromURL ref)
            else inr rel
        else inl (UnsupportedURL ref)
      else if isabs ref then
        let abs_path := realpath ref in
        let repo_abs := realpath repo_root in
        if negb (startswith (repo_abs ++ os_sep) abs_path)
        then inl (AbsoluteOutsideRepo ref)
        else
          let rel := relpath abs_path repo_abs in
          let rel := replace os_sep [SLASH] rel in
          if negb (is_safe_repo_relative rel) then inl (UnsafeRelative rel)
          else inr rel
      else
        let rel := relative_candidate ref in
        if negb (is_safe_repo_relative rel) then inl (UnsafeRelative rel)
        else inr rel
    end
  end.
End Resolve.

(** ** Vocabulary of the statements *)

(** What [urlparse] returns for a string without a scheme, a network
    location, parameters or a query, such as a plain relative path. *)
Definition urlparse_plain (ref : pystr) : option ParseResult :=
  Some {| scheme := []; hostname := None; url_path := ref |}.

End SotRefs.

Import SotRefs.

(** * [validate-review-json.py]: the review record *)
Module ValidateReview.

(** ** JSON values as [json.load] builds them *)

Inductive pyfloat := FNan | FInf (negative : bool) | FFinite (q : Q).

#[local] Unset Elimination Schemes.
Inductive json :=
  | JNull
  | JBool (b : bool)
  | JInt (z : Z)
  | JFloat (f : pyfloat)
  | JStr (s : pystr)
  | JList (l : list json)
  | JDict (d : list (pystr * json)).
#[local] Set Elimination Schemes.

Abbreviation dict := (list (pystr * json)) (only parsing).

Fixpoint lookup (k : pystr) (d : dict) : option json :=
  match d with
  | [] => None
  | (k', v) :: d' => if str_eqb k' k then Some v else lookup k d'
  end.

(** [d.get(k)]: [None], which is [JNull], for a missing key. *)
Definition get (k : pystr) (d : dict) : json := default JNull (lookup k d).

(** [k in d] *)
Definition has_key (k : pystr) (d : dict) : bool := str_in k (d.*1).

(** [sorted(required - set(d.keys()))], for [required] given in order. *)
Definition missing_keys (required : list pystr) (d : dict) : list pystr :=
  filter (λ k, has_key k d = false) required.

(** [sorted(set(d.keys()) - required)] *)
Definition extra_keys (required : list pystr) (d : dict) : list pystr :=
  sorted (remove_dups (filter (λ k, str_in k required = false) (d.*1))).

(** [isinstance(v, int)], with the value: [bool] is a subclass of [int]. *)
Definition as_int (v : json) : option Z :=
  match v with
  | JInt z => Some z
  | JBool b => Some (if b then 1 else 0)%Z
  | _ => None
  end.

(** [v == n] for an integer [n]. *)
Definition eq_int (v : json) (n : Z) : bool :=
  match v with
  | JInt z => (z =? n)%Z
  | JBool b => ((if b then 1 else 0) =? n)%Z
  | JFloat (FFinite q) => Qeq_bool q (inject_Z n)
  | _ => false
  end.

(** [isinstance(v, str) and v], with the string. *)
Definition as_nonempty_str (v : json) : option pystr :=
  match v with
  | JStr (c :: s) => Some (c :: s)
  | _ => None
  end.

Definition is_str (v : json) : bool :=
  match v with
  | JStr _ => true
  | _ => false
  end.

(** Lists and dicts cannot be looked up in a set: [TypeError]. *)
Definition hashable (v : json) : bool :=
  match v with
  | JList _ | JDict _ => false
  | _ => true
  end.

(** [v in xs] and [v == x] for strings [xs] and [x]. *)
Definition in_strs (v : json) (xs : list pystr) : bool :=
  match v with
  | JStr s => str_in s xs
  | _ => false
  end.

Definition is_the_str (v : json) (x : pystr) : bool := in_strs v [x].

(** ** The constants *)

Definition APPROVED : pystr := Eval vm_compute in py "Approved".
Definition APPROVED_WITH_NITS : pystr := Eval vm_compute in py "Approved with nits".
Definition BLOCKED : pystr := Eval vm_compute in py "Blocked".
Definition QUESTION : pystr := Eval vm_compute in py "Question".
Definition STATUS_ALLOWED : list pystr :=
  [APPROVED; APPROVED_WITH_NITS; BLOCKED; QUESTION].

Definition P0 : pystr := Eval vm_compute in py "P0".
Definition P1 : pystr := Eval vm_compute in py "P1".
Definition PRIORITY_ALLOWED : list pystr :=
  Eval vm_compute in map py ["P0"; "P1"; "P2"; "P3"].

Definition K_SCHEMA_VERSION : pystr := Eval vm_compute in py "schema_version".
Definition K_SCOPE_ID : pystr := Eval vm_compute in py "scope_id".
Definition K_STATUS : pystr := Eval vm_compute in py "status".
Definition K_FINDINGS : pystr := Eval vm_compute in py "findings".
Definition K_QUESTIONS : pystr := Eval vm_compute in py "questions".
Definition K_OVERALL : pystr := Eval vm_compute in py "overall_explanation".
Definition K_TITLE : pystr := Eval vm_compute in py "title".
Definition K_BODY : pystr := Eval vm_compute in py "body".
Definition K_PRIORITY : pystr := Eval vm_compute in py "priority".
Definition K_CODE_LOCATION : pystr := Eval vm_compute in py "code_location".
Definition K_PATH : pystr := Eval vm_compute in py "repo_relative_path".
Definition K_LINE_RANGE : pystr := Eval vm_compute in py "line_range".
Definition K_START : pystr := Eval vm_compute in py "start".
Definition K_END : pystr := Eval vm_compute in py "end".

(** The required key sets, in sorted order. *)
Definition required : list pystr :=
  [K_FINDINGS; K_OVERALL; K_QUESTIONS; K_SCHEMA_VERSION; K_SCOPE_ID; K_STATUS].
Definition required_finding_keys : list pystr :=
  [K_BODY; K_CODE_LOCATION; K_PRIORITY; K_TITLE].
Definition required_code_location_keys : list pystr := [K_LINE_RANGE; K_PATH].
Definition required_line_range_keys : list pystr := [K_END; K_START].

(** ** The errors

    One constructor for each message that [validate_review] appends, with
    what the message is formatted from. *)
Inductive review_error :=
  | MissingKeys (keys : list pystr)
  | UnexpectedKeys (keys : list pystr)
  | SchemaVersionNot3
  | ScopeIdNotString
  | ScopeIdMismatch (expected got : pystr)
  | StatusNotAllowed
  | FindingsNotArray
  | QuestionsNotStrings
  | OverallExplanationNotString
  | FindingNotObject (idx : nat)
  | FindingMissingKey (idx : nat) (key : pystr)
  | FindingUnexpectedKeys (idx : nat) (keys : list pystr)
  | TitleNotString (idx : nat)
  | TitleTooLong (idx : nat)
  | BodyNotString (idx : nat)
  | PriorityNotAllowed (idx : nat)
  | CodeLocationNotObject (idx : nat)
  | CodeLocationMissingKeys (idx : nat) (keys : list pystr)
  | CodeLocationUnexpectedKeys (idx : nat) (keys : list pystr)
  | PathNotRepoRelative (idx : nat)
  | LineRangeNotObject (idx : nat)
  | LineRangeMissingKeys (idx : nat) (keys : list pystr)
  | LineRangeUnexpectedKeys (idx : nat) (keys : list pystr)
  | StartNotPositive (idx : nat)
  | EndNotPositive (idx : nat)
  | EndBeforeStart (idx : nat)
  | ApprovedWithFindings
  | ApprovedWithQuestions
  | NitsWithBlocking
  | NitsWithQuestions
  | BlockedWithoutBlocking
  | QuestionWithoutQuestions.

(** [[e] if cond else []] *)
Definition when (cond : bool) (e : review_error) : list review_error :=
  if cond then [e] else [].

(** ** [is_repo_relative_path] *)

Definition is_repo_relative_path (path : pystr) : bool :=
  match path with
  | [] => false
  | _ :: _ =>
      if startswith [SLASH] path then false
      else if str_in path [DOT; DOTDOT] then false
      else negb (str_in DOTDOT (filter (λ p, p ≠ []) (split SLASH path)))
  end.

(** ** [validate_review] *)

(** The checks on [line_range]. *)
Definition validate_line_range (idx : nat) (line_range : json)
  : list review_error :=
  match line_range with
  | JDict lr =>
      let missing := missing_keys required_line_range_keys lr in
      let extra := extra_keys required_line_range_keys lr in
      let start := as_int (get K_START lr) in
      let end_ := as_int (get K_END lr) in
      when (bool_decide (missing ≠ [])) (LineRangeMissingKeys idx missing)
      ++ when (bool_decide (extra ≠ [])) (LineRangeUnexpectedKeys idx extra)
      ++ when (match start with Some n => (n <? 1)%Z | None => true end)
              (StartNotPositive idx)
      ++ when (match end_ with Some n => (n <? 1)%Z | None => true end)
              (EndNotPositive idx)
      ++ when (match start, end_ with
               | Some a, Some b => (b <? a)%Z
               | _, _ => false
               end)
              (EndBeforeStart idx)
  | _ => [LineRangeNotObject idx]
  end.

(** The checks on [code_location]. *)
Definition validate_code_location (idx : nat) (code_location : json)
  : list review_error :=
  match code_location with
  | JDict cl =>
      let missing := missing_keys required_code_location_keys cl in
      let extra := extra_keys required_code_location_keys cl in
      when (bool_decide (missing ≠ [])) (CodeLocationMissingKeys idx missing)
      ++ when (bool_decide (extra ≠ [])) (CodeLocationUnexpectedKeys idx extra)
      ++ when (match get K_PATH cl with
               | JStr path => negb (is_repo_relative_path path)
               | _ => true
               end)
              (PathNotRepoRelative idx)
      ++ validate_line_range idx (get K_LINE_RANGE cl)
  | _ => [CodeLocationNotObject idx]
  end.

(** One iteration of the loop over [findings]. *)
Definition validate_finding (idx : nat) (item : json) : list review_error :=
  match item with
  | JDict d =>
      let extra := extra_keys required_finding_keys d in
      (FindingMissingKey idx <$> missing_keys required_finding_keys d)
      ++ when (bool_decide (extra ≠ [])) (FindingUnexpectedKeys idx extra)
      ++ match as_nonempty_str (get K_TITLE d) with
         | None => [TitleNotString idx]
         | Some title => when (120 <? length title)%nat (TitleTooLong idx)
         end
      ++ when (bool_decide (as_nonempty_str (get K_BODY d) = None))
              (BodyNotString idx)
      ++ when (negb (in_strs (get K_PRIORITY d) PRIORITY_ALLOWED))
              (PriorityNotAllowed idx)
      ++ validate_code_location idx (get K_CODE_LOCATION d)
  | _ => [FindingNotObject idx]
  end.

(** [findings] after its type check: the empty list if it is no list. *)
Definition checked_findings (obj : dict) : list json :=
  match get K_FINDINGS obj with
  | JList fs => fs
  | _ => []
  end.

(** [questions] after its type check: the empty list unless it is a list
    of strings. *)
Definition checked_questions (obj : dict) : list json :=
  match get K_QUESTIONS obj with
  | JList qs => if forallb is_str qs then qs else []
  | _ => []
  end.

(** The checks before the cross-field constraints. *)
Definition field_errors (obj : dict) (expected_scope_id : option pystr)
  : list review_error :=
  let extra := extra_keys required obj in
  when (bool_decide (extra ≠ [])) (UnexpectedKeys extra)
  ++ when (negb (eq_int (get K_SCHEMA_VERSION obj) 3)) SchemaVersionNot3
  ++ match as_nonempty_str (get K_SCOPE_ID obj), expected_scope_id with
     | None, _ => [ScopeIdNotString]
     | Some scope_id, Some expected =>
         when (negb (str_eqb scope_id expected))
              (ScopeIdMismatch expected scope_id)
     | Some _, None => []
     end
  ++ when (negb (in_strs (get K_STATUS obj) STATUS_ALLOWED)) StatusNotAllowed
  ++ when (match get K_FINDINGS obj with JList _ => false | _ => true end)
          FindingsNotArray
  ++ when (match get K_QUESTIONS obj with
           | JList qs => negb (forallb is_str qs)
           | _ => true
           end)
          QuestionsNotStrings
  ++ when (bool_decide (as_nonempty_str (get K_OVERALL obj) = None))
          OverallExplanationNotString
  ++ concat (imap validate_finding (checked_findings obj)).

(** [f.get("priority") in ("P0", "P1")] for a finding that is an object. *)
Definition is_blocking (f : json) : bool :=
  match f with
  | JDict d => in_strs (get K_PRIORITY d) [P0; P1]
  | _ => false
  end.

(** The cross-field constraints. *)
Definition cross_field_errors (status : json) (findings questions : list json)
  : list review_error :=
  let blocking := filter (λ f, is_blocking f = true) findings in
  (if is_the_str status APPROVED then
     when (negb (length findings =? 0)%nat) ApprovedWithFindings
     ++ when (negb (length questions =? 0)%nat) ApprovedWithQuestions
   else [])
  ++ (if is_the_str status APPROVED_WITH_NITS then
        when (bool_decide (blocking ≠ [])) NitsWithBlocking
        ++ when (negb (length questions =? 0)%nat) NitsWithQuestions
      else [])
  ++ (if is_the_str status BLOCKED then
        when (bool_decide (blocking = [])) BlockedWithoutBlocking
      else [])
  ++ (if is_the_str status QUESTION then
        when (length questions =? 0)%nat QuestionWithoutQuestions
      else []).

(** [validate_review]; [None] is the [TypeError] of the membership test on
    a status that is a list or an object. *)
Definition validate_review (obj : dict) (expected_scope_id : option pystr)
  : option (list review_error) :=
  let missing := missing_keys required obj in
  if bool_decide (missing ≠ []) then Some [MissingKeys missing]
  else if negb (hashable (get K_STATUS obj)) then None
  else
    Some (field_errors obj expected_scope_id
          ++ cross_field_errors (get K_STATUS obj) (checked_findings obj)
               (checked_questions obj)).

(** ** Vocabulary of the statements *)

(** The errors of the cross-field constraints. *)
Definition is_cross_field (e : review_error) : bool :=
  match e with
  | ApprovedWithFindings | ApprovedWithQuestions | NitsWithBlocking
  | NitsWithQuestions | BlockedWithoutBlocking | QuestionWithoutQuestions => true
  | _ => false
  end.

(** A review record with the given status, findings and questions, and
    every other field as the schema wants it. *)
Definition review_record (status : pystr) (findings questions : list json)
  : list (pystr * json) :=
  [(K_SCHEMA_VERSION, JInt 3); (K_SCOPE_ID, JStr (py "issue-1"));
   (K_STATUS, JStr status); (K_FINDINGS, JList findings);
   (K_QUESTIONS, JList questions); (K_OVERALL, JStr (py "ok"))].

(** A well-formed finding of the given priority. *)
Definition finding_of (priority : pystr) : json :=
  JDict [(K_TITLE, JStr (py "t")); (K_BODY, JStr (py "b"));
         (K_PRIORITY, JStr priority);
         (K_CODE_LOCATION,
          JDict [(K_PATH, JStr (py "src/a.py"));
                 (K_LINE_RANGE, JDict [(K_START, JInt 1); (K_END, JInt 2)])])].

End ValidateReview.

Import ValidateReview.

(** * [validate-approval.py]: the approval record and the branch *)
Module ApprovalRecord.

(** ** Equality of JSON values *)

(** The number a value is in a comparison: [bool] is a subclass of [int]. *)
Definition as_number (v : json) : option (Z + pyfloat) :=
  match v with
  | JBool b => Some (inl (if b then 1 else 0)%Z)
  | JInt z => Some (inl z)
  | JFloat f => Some (inr f)
  | _ => None
  end.

(** [x == y] on numbers: exact, and false for a NaN. *)
Definition number_eq (x y : Z + pyfloat) : bool :=
  match x, y with
  | inl a, inl b => (a =? b)%Z
  | inl a, inr (FFinite q) => Qeq_bool (inject_Z a) q
  | inr (FFinite q), inl b => Qeq_bool q (inject_Z b)
  | inr (FFinite p), inr (FFinite q) => Qeq_bool p q
  | inr (FInf s), inr (FInf t) => Bool.eqb s t
  | _, _ => false
  end.

(** [a == b] for values that [json.loads] built. The items of lists and
    the values of dicts are compared with [x is y or x == y], and every NaN
    of a document is the one object [json.decoder.NaN]: [same_nan] tells
    whether a NaN is equal to a NaN, as it is inside a container. A dict is
    the list of its items, with distinct keys. *)
Fixpoint json_eq (same_nan : bool) (a b : json) : bool :=
  match a, b with
  | JNull, JNull => true
  | JStr s, JStr t => str_eqb s t
  | JFloat FNan, JFloat FNan => same_nan
  | JList l, JList m =>
      (fix items (l m : list json) : bool :=
         match l, m with
         | [], [] => true
         | x :: l', y :: m' => json_eq true x y && items l' m'
         | _, _ => false
         end) l m
  | JDict d, JDict e =>
      (length d =? length e)%nat &&
      (fix items (d : list (pystr * json)) : bool :=
         match d with
         | [] => true
         | (k, v) :: d' =>
             match lookup k e with
             | Some w => json_eq true v w
             | None => false
             end && items d'
         end) d
  | _, _ =>
      match as_number a, as_number b with
      | Some x, Some y => number_eq x y
      | _, _ => false
      end
  end.

(** [v is None] *)
Definition is_none (v : json) : bool :=
  match v with
  | JNull => true
  | _ => false
  end.

(** ** The exceptions *)

(** One constructor for each [raise] of [pick_estimate_hash_field],
    [validate_approval], [load_approval_json] and the [try] block of
    [main]; [HashFieldMissing], [ApprovalMissingKeys] and
    [ApprovalUnexpectedKeys] are [KeyError]s, the others [ValueError]s. *)
Inductive approval_error :=
  | NotAnObject
  | ApprovalMissingKeys (keys : list pystr)
  | HashFieldsDiffer
  | HashFieldMissing
  | HashFieldNotString
  | ApprovalUnexpectedKeys (keys : list pystr)
  | SchemaVersionNot1
  | IssueNumberNotInt
  | IssueNumberMismatch (expected got : Z)
  | ModeNotAllowed
  | ApprovedAtNotString
  | ApprovedAtNotTimestamp
  | ApproverNotString
  | HashNotSha256 (field : pystr).

Definition K_ESTIMATE_HASH : pystr := Eval vm_compute in py "estimate_hash".
Definition K_ESTIMATE_SHA256 : pystr := Eval vm_compute in py "estimate_sha256".
Definition K_ISSUE_NUMBER : pystr := Eval vm_compute in py "issue_number".
Definition K_MODE : pystr := Eval vm_compute in py "mode".
Definition K_APPROVED_AT : pystr := Eval vm_compute in py "approved_at".
Definition K_APPROVER : pystr := Eval vm_compute in py "approver".

Definition MODE_ALLOWED : list pystr :=
  Eval vm_compute in map py ["impl"; "tdd"; "custom"].

(** The set [required] of [validate_approval], in sorted order. *)
Definition approval_required : list pystr :=
  [K_APPROVED_AT; K_APPROVER; K_ISSUE_NUMBER; K_MODE; K_SCHEMA_VERSION].

Definition extra_allowed : list pystr := [K_ESTIMATE_HASH; K_ESTIMATE_SHA256].

(** ** [pick_estimate_hash_field] *)

Definition pick_estimate_hash_field (obj : list (pystr * json))
  : approval_error + (pystr * pystr) :=
  let estimate_hash := get K_ESTIMATE_HASH obj in
  let estimate_sha256 := get K_ESTIMATE_SHA256 obj in
  if negb (is_none estimate_hash) && negb (is_none estimate_sha256)
     && negb (json_eq false estimate_hash estimate_sha256)
  then inl HashFieldsDiffer
  else if is_none estimate_hash && is_none estimate_sha256
  then inl HashFieldMissing
  else
    let value := if negb (is_none estimate_hash) then estimate_hash
                 else estimate_sha256 in
    match as_nonempty_str value with
    | None => inl HashFieldNotString
    | Some value =>
        let field := if negb (is_none estimate_hash) then K_ESTIMATE_HASH
                     else K_ESTIMATE_SHA256 in
        inr (field, value)
    end.

(** ** The patterns of [re.match] *)

(** A sequence of character classes, each for one character, at the head
    of [s]: what follows the match. *)
Fixpoint match_chars (classes : list (char → bool)) (s : pystr)
  : option pystr :=
  match classes with
  | [] => Some s
  | f :: classes' =>
      match s with
      | c :: s' => if f c then match_chars classes' s' else None
      | [] => None
      end
  end.

Definition is_char (x : char) (c : char) : bool := c =? x.

(** [re.match(r"^\d{4}-\d{2}-\d{2}T\d{2}:\d{2}:\d{2}Z$", s)]; [$] holds
    at the end and before a newline that ends the string. *)
Definition timestamp_classes : list (char → bool) :=
  [isdigit; isdigit; isdigit; isdigit; is_char 45;
   isdigit; isdigit; is_char 45; isdigit; isdigit; is_char 84;
   isdigit; isdigit; is_char 58; isdigit; isdigit; is_char 58;
   isdigit; isdigit; is_char 90].

Definition approved_at_matches (s : pystr) : bool :=
  match match_chars timestamp_classes s with
  | Some rest => at_end rest
  | None => false
  end.

(** [[0-9a-f]] *)
Definition is_lower_hex (c : char) : bool :=
  ((48 <=? c) && (c <=? 57)) || ((97 <=? c) && (c <=? 102)).

(** [re.match(r"^sha256:[0-9a-f]{64}$", s)] *)
Definition sha256_matches (s : pystr) : bool :=
  startswith SHA256_PREFIX s &&
  match match_chars (replicate 64 is_lower_hex) (drop (length SHA256_PREFIX) s) with
  | Some rest => at_end rest
  | None => false
  end.

(** ** [validate_approval] *)

(** [None] when the function returns, the exception when it raises. *)
Definition validate_approval (obj : list (pystr * json))
    (expected_issue_number : Z) : option approval_error :=
  let missing := missing_keys approval_required obj in
  if bool_decide (missing ≠ []) then Some (ApprovalMissingKeys missing)
  else
    match pick_estimate_hash_field obj with
    | inl e => Some e
    | inr _ =>
        let extra := extra_keys (approval_required ++ extra_allowed) obj in
        if bool_decide (extra ≠ []) then Some (ApprovalUnexpectedKeys extra)
        else if negb (eq_int (get K_SCHEMA_VERSION obj) 1)
        then Some SchemaVersionNot1
        else
          match as_int (get K_ISSUE_NUMBER obj) with
          | None => Some IssueNumberNotInt
          | Some issue_number =>
              if negb (issue_number =? expected_issue_number)%Z
              then Some (IssueNumberMismatch expected_issue_number issue_number)
              else if negb (in_strs (get K_MODE obj) MODE_ALLOWED)
              then Some ModeNotAllowed
              else
                match as_nonempty_str (get K_APPROVED_AT obj) with
                | None => Some ApprovedAtNotString
                | Some approved_at =>
                    if negb (approved_at_matches approved_at)
                    then Some ApprovedAtNotTimestamp
                    else if bool_decide
                              (as_nonempty_str (get K_APPROVER obj) = None)
                    then Some ApproverNotString
                    else None
                end
          end
    end.

(** ** The [try] block of [main] *)

Inductive gate_result :=
  | GatePass
  | GateInvalid (e : approval_error)
  | GateDrift (recorded computed : pystr).

(** From the value that [json.loads] returned for [approval.json], the
    issue number of the branch and the hash computed from [estimate.md]:
    [GatePass] is [return 0], the others are the calls of [gate_blocked]. *)
Definition check_approval (data : json) (issue_number : Z)
    (computed_hash : pystr) : gate_result :=
  match data with
  | JDict obj =>
      match validate_approval obj issue_number with
      | Some e => GateInvalid e
      | None =>
          match pick_estimate_hash_field obj with
          | inl e => GateInvalid e
          | inr (field, recorded_hash) =>
              if negb (sha256_matches recorded_hash)
              then GateInvalid (HashNotSha256 field)
              else if negb (str_eqb recorded_hash computed_hash)
              then GateDrift recorded_hash computed_hash
              else GatePass
          end
      end
  | _ => GateInvalid NotAnObject
  end.

(** ** [extract_issue_number_from_branch] *)

(** The ranges of the code points for which [str.isalnum] holds, in the
    Unicode database of CPython 3.11. *)
Definition alnum_ranges : list (N * N) :=
  [(0x30, 0x39); (0x41, 0x5A); (0x61, 0x7A); (0xAA, 0xAA); (0xB2, 0xB3);
   (0xB5, 0xB5); (0xB9, 0xBA); (0xBC, 0xBE); (0xC0, 0xD6); (0xD8, 0xF6);
   (0xF8, 0x2C1); (0x2C6, 0x2D1); (0x2E0, 0x2E4); (0x2EC, 0x2EC);
   (0x2EE, 0x2EE); (0x370, 0x374); (0x376, 0x377); (0x37A, 0x37D);
   (0x37F, 0x37F); (0x386, 0x386); (0x388, 0x38A); (0x38C, 0x38C);
   (0x38E, 0x3A1); (0x3A3, 0x3F5); (0x3F7, 0x481); (0x48A, 0x52F);
   (0x531, 0x556); (0x559, 0x559); (0x560, 0x588); (0x5D0, 0x5EA);
   (0x5EF, 0x5F2); (0x620, 0x64A); (0x660, 0x669); (0x66E, 0x66F);
   (0x671, 0x6D3); (0x6D5, 0x6D5); (0x6E5, 0x6E6); (0x6EE, 0x6FC);
   (0x6FF, 0x6FF); (0x710, 0x710); (0x712, 0x72F); (0x74D, 0x7A5);
   (0x7B1, 0x7B1); (0x7C0, 0x7EA); (0x7F4, 0x7F5); (0x7FA, 0x7FA);
   (0x800, 0x815); (0x81A, 0x81A); (0x824, 0x824); (0x828, 0x828);
   (0x840, 0x858); (0x860, 0x86A); (0x870, 0x887); (0x889, 0x88E);
   (0x8A0, 0x8C9); (0x904, 0x939); (0x93D, 0x93D); (0x950, 0x950);
   (0x958, 0x961); (0x966, 0x96F); (0x971, 0x980); (0x985, 0x98C);
   (0x98F, 0x990); (0x993, 0x9A8); (0x9AA, 0x9B0); (0x9B2, 0x9B2);
   (0x9B6, 0x9B9); (0x9BD, 0x9BD); (0x9CE, 0x9CE); (0x9DC, 0x9DD);
   (0x9DF, 0x9E1); (0x9E6, 0x9F1); (0x9F4, 0x9F9); (0x9FC, 0x9FC);
   (0xA05, 0xA0A); (0xA0F, 0xA10); (0xA13, 0xA28); (0xA2A, 0xA30);
   (0xA32, 0xA33); (0xA35, 0xA36); (0xA38, 0xA39); (0xA59, 0xA5C);
   (0xA5E, 0xA5E); (0xA66, 0xA6F); (0xA72, 0xA74); (0xA85, 0xA8D);
   (0xA8F, 0xA91); (0xA93, 0xAA8); (0xAAA, 0xAB0); (0xAB2, 0xAB3);
   (0xAB5, 0xAB9); (0xABD, 0xABD); (0xAD0, 0xAD0); (0xAE0, 0xAE1);
   (0xAE6, 0xAEF); (0xAF9, 0xAF9); (0xB05, 0xB0C); (0xB0F, 0xB10);
   (0xB13, 0xB28); (0xB2A, 0xB30); (0xB32, 0xB33); (0xB35, 0xB39);
   (0xB3D, 0xB3D); (0xB5C, 0xB5D); (0xB5F, 0xB61); (0xB66, 0xB6F);
   (0xB71, 0xB77); (0xB83, 0xB83); (0xB85, 0xB8A); (0xB8E, 0xB90);
   (0xB92, 0xB95); (0xB99, 0xB9A); (0xB9C, 0xB9C); (0xB9E, 0xB9F);
   (0xBA3, 0xBA4); (0xBA8, 0xBAA); (0xBAE, 0xBB9); (0xBD0, 0xBD0);
   (0xBE6, 0xBF2); (0xC05, 0xC0C); (0xC0E, 0xC10); (0xC12, 0xC28);
   (0xC2A, 0xC39); (0xC3D, 0xC3D); (0xC58, 0xC5A); (0xC5D, 0xC5D);
   (0xC60, 0xC61); (0xC66, 0xC6F); (0xC78, 0xC7E); (0xC80, 0xC80);
   (0xC85, 0xC8C); (0xC8E, 0xC90); (0xC92, 0xCA8); (0xCAA, 0xCB3);
   (0xCB5, 0xCB9); (0xCBD, 0xCBD); (0xCDD, 0xCDE); (0xCE0, 0xCE1);
   (0xCE6, 0xCEF); (0xCF1, 0xCF2); (0xD04, 0xD0C); (0xD0E, 0xD10);
   (0xD12, 0xD3A); (0xD3D, 0xD3D); (0xD4E, 0xD4E); (0xD54, 0xD56);
   (0xD58, 0xD61); (0xD66, 0xD78); (0xD7A, 0xD7F); (0xD85, 0xD96);
   (0xD9A, 0xDB1); (0xDB3, 0xDBB); (0xDBD, 0xDBD); (0xDC0, 0xDC6);
   (0xDE6, 0xDEF); (0xE01, 0xE30); (0xE32, 0xE33); (0xE40, 0xE46);
   (0xE50, 0xE59); (0xE81, 0xE82); (0xE84, 0xE84); (0xE86, 0xE8A);
   (0xE8C, 0xEA3); (0xEA5, 0xEA5); (0xEA7, 0xEB0); (0xEB2, 0xEB3);
   (0xEBD, 0xEBD); (0xEC0, 0xEC4); (0xEC6, 0xEC6); (0xED0, 0xED9);
   (0xEDC, 0xEDF); (0xF00, 0xF00); (0xF20, 0xF33); (0xF40, 0xF47);
   (0xF49, 0xF6C); (0xF88, 0xF8C); (0x1000, 0x102A); (0x103F, 0x1049);
   (0x1050, 0x1055); (0x105A, 0x105D); (0x1061, 0x1061); (0x1065, 0x1066);
   (0x106E, 0x1070); (0x1075, 0x1081); (0x108E, 0x108E); (0x1090, 0x1099);
   (0x10A0, 0x10C5); (0x10C7, 0x10C7); (0x10CD, 0x10CD); (0x10D0, 0x10FA);
   (0x10FC, 0x1248); (0x124A, 0x124D); (0x1250, 0x1256); (0x1258, 0x1258);
   (0x125A, 0x125D); (0x1260, 0x1288); (0x128A, 0x128D); (0x1290, 0x12B0);
   (0x12B2, 0x12B5); (0x12B8, 0x12BE); (0x12C0, 0x12C0); (0x12C2, 0x12C5);
   (0x12C8, 0x12D6); (0x12D8, 0x1310); (0x1312, 0x1315); (0x1318, 0x135A);
   (0x1369, 0x137C); (0x1380, 0x138F); (0x13A0, 0x13F5); (0x13F8, 0x13FD);
   (0x1401, 0x166C); (0x166F, 0x167F); (0x1681, 0x169A); (0x16A0, 0x16EA);
   (0x16EE, 0x16F8); (0x1700, 0x1711); (0x171F, 0x1731); (0x1740, 0x1751);
   (0x1760, 0x176C); (0x176E, 0x1770); (0x1780, 0x17B3); (0x17D7, 0x17D7);
   (0x17DC, 0x17DC); (0x17E0, 0x17E9); (0x17F0, 0x17F9); (0x1810, 0x1819);
   (0x1820, 0x1878); (0x1880, 0x1884); (0x1887, 0x18A8); (0x18AA, 0x18AA);
   (0x18B0, 0x18F5); (0x1900, 0x191E); (0x1946, 0x196D); (0x1970, 0x1974);
   (0x1980, 0x19AB); (0x19B0, 0x19C9); (0x19D0, 0x19DA); (0x1A00, 0x1A16);
   (0x1A20, 0x1A54); (0x1A80, 0x1A89); (0x1A90, 0x1A99); (0x1AA7, 0x1AA7);
   (0x1B05, 0x1B33); (0x1B45, 0x1B4C); (0x1B50, 0x1B59); (0x1B83, 0x1BA0);
   (0x1BAE, 0x1BE5); (0x1C00, 0x1C23); (0x1C40, 0x1C49); (0x1C4D, 0x1C7D);
   (0x1C80, 0x1C88); (0x1C90, 0x1CBA); (0x1CBD, 0x1CBF); (0x1CE9, 0x1CEC);
   (0x1CEE, 0x1CF3); (0x1CF5, 0x1CF6); (0x1CFA, 0x1CFA); (0x1D00, 0x1DBF);
   (0x1E00, 0x1F15); (0x1F18, 0x1F1D); (0x1F20, 0x1F45); (0x1F48, 0x1F4D);
   (0x1F50, 0x1F57); (0x1F59, 0x1F59); (0x1F5B, 0x1F5B); (0x1F5D, 0x1F5D);
   (0x1F5F, 0x1F7D); (0x1F80, 0x1FB4); (0x1FB6, 0x1FBC); (0x1FBE, 0x1FBE);
   (0x1FC2, 0x1FC4); (0x1FC6, 0x1FCC); (0x1FD0, 0x1FD3); (0x1FD6, 0x1FDB);
   (0x1FE0, 0x1FEC); (0x1FF2, 0x1FF4); (0x1FF6, 0x1FFC); (0x2070, 0x2071);
   (0x2074, 0x2079); (0x207F, 0x2089); (0x2090, 0x209C); (0x2102, 0x2102);
   (0x2107, 0x2107); (0x210A, 0x2113); (0x2115, 0x2115); (0x2119, 0x211D);
   (0x2124, 0x2124); (0x2126, 0x2126); (0x2128, 0x2128); (0x212A, 0x212D);
   (0x212F, 0x2139); (0x213C, 0x213F); (0x2145, 0x2149); (0x214E, 0x214E);
   (0x2150, 0x2189); (0x2460, 0x249B); (0x24EA, 0x24FF); (0x2776, 0x2793);
   (0x2C00, 0x2CE4); (0x2CEB, 0x2CEE); (0x2CF2, 0x2CF3); (0x2CFD, 0x2CFD);
   (0x2D00, 0x2D25); (0x2D27, 0x2D27); (0x2D2D, 0x2D2D); (0x2D30, 0x2D67);
   (0x2D6F, 0x2D6F); (0x2D80, 0x2D96); (0x2DA0, 0x2DA6); (0x2DA8, 0x2DAE);
   (0x2DB0, 0x2DB6); (0x2DB8, 0x2DBE); (0x2DC0, 0x2DC6); (0x2DC8, 0x2DCE);
   (0x2DD0, 0x2DD6); (0x2DD8, 0x2DDE); (0x2E2F, 0x2E2F); (0x3005, 0x3007);
   (0x3021, 0x3029); (0x3031, 0x3035); (0x3038, 0x303C); (0x3041, 0x3096);
   (0x309D, 0x309F); (0x30A1, 0x30FA); (0x30FC, 0x30FF); (0x3105, 0x312F);
   (0x3131, 0x318E); (0x3192, 0x3195); (0x31A0, 0x31BF); (0x31F0, 0x31FF);
   (0x3220, 0x3229); (0x3248, 0x324F); (0x3251, 0x325F); (0x3280, 0x3289);
   (0x32B1, 0x32BF); (0x3400, 0x4DBF); (0x4E00, 0xA48C); (0xA4D0, 0xA4FD);
   (0xA500, 0xA60C); (0xA610, 0xA62B); (0xA640, 0xA66E); (0xA67F, 0xA69D);
   (0xA6A0, 0xA6EF); (0xA717, 0xA71F); (0xA722, 0xA788); (0xA78B, 0xA7CA);
   (0xA7D0, 0xA7D1); (0xA7D3, 0xA7D3); (0xA7D5, 0xA7D9); (0xA7F2, 0xA801);
   (0xA803, 0xA805); (0xA807, 0xA80A); (0xA80C, 0xA822); (0xA830, 0xA835);
   (0xA840, 0xA873); (0xA882, 0xA8B3); (0xA8D0, 0xA8D9); (0xA8F2, 0xA8F7);
   (0xA8FB, 0xA8FB); (0xA8FD, 0xA8FE); (0xA900, 0xA925); (0xA930, 0xA946);
   (0xA960, 0xA97C); (0xA984, 0xA9B2); (0xA9CF, 0xA9D9); (0xA9E0, 0xA9E4);
   (0xA9E6, 0xA9FE); (0xAA00, 0xAA28); (0xAA40, 0xAA42); (0xAA44, 0xAA4B);
   (0xAA50, 0xAA59); (0xAA60, 0xAA76); (0xAA7A, 0xAA7A); (0xAA7E, 0xAAAF);
   (0xAAB1, 0xAAB1); (0xAAB5, 0xAAB6); (0xAAB9, 0xAABD); (0xAAC0, 0xAAC0);
   (0xAAC2, 0xAAC2); (0xAADB, 0xAADD); (0xAAE0, 0xAAEA); (0xAAF2, 0xAAF4);
   (0xAB01, 0xAB06); (0xAB09, 0xAB0E); (0xAB11, 0xAB16); (0xAB20, 0xAB26);
   (0xAB28, 0xAB2E); (0xAB30, 0xAB5A); (0xAB5C, 0xAB69); (0xAB70, 0xABE2);
   (0xABF0, 0xABF9); (0xAC00, 0xD7A3); (0xD7B0, 0xD7C6); (0xD7CB, 0xD7FB);
   (0xF900, 0xFA6D); (0xFA70, 0xFAD9); (0xFB00, 0xFB06); (0xFB13, 0xFB17);
   (0xFB1D, 0xFB1D); (0xFB1F, 0xFB28); (0xFB2A, 0xFB36); (0xFB38, 0xFB3C);
   (0xFB3E, 0xFB3E); (0xFB40, 0xFB41); (0xFB43, 0xFB44); (0xFB46, 0xFBB1);
   (0xFBD3, 0xFD3D); (0xFD50, 0xFD8F); (0xFD92, 0xFDC7); (0xFDF0, 0xFDFB);
   (0xFE70, 0xFE74); (0xFE76, 0xFEFC); (0xFF10, 0xFF19); (0xFF21, 0xFF3A);
   (0xFF41, 0xFF5A); (0xFF66, 0xFFBE); (0xFFC2, 0xFFC7); (0xFFCA, 0xFFCF);
   (0xFFD2, 0xFFD7); (0xFFDA, 0xFFDC); (0x10000, 0x1000B);
   (0x1000D, 0x10026); (0x10028, 0x1003A); (0x1003C, 0x1003D);
   (0x1003F, 0x1004D); (0x10050, 0x1005D); (0x10080, 0x100FA);
   (0x10107, 0x10133); (0x10140, 0x10178); (0x1018A, 0x1018B);
   (0x10280, 0x1029C); (0x102A0, 0x102D0); (0x102E1, 0x102FB);
   (0x10300, 0x10323); (0x1032D, 0x1034A); (0x10350, 0x10375);
   (0x10380, 0x1039D); (0x103A0, 0x103C3); (0x103C8, 0x103CF);
   (0x103D1, 0x103D5); (0x10400, 0x1049D); (0x104A0, 0x104A9);
   (0x104B0, 0x104D3); (0x104D8, 0x104FB); (0x10500, 0x10527);
   (0x10530, 0x10563); (0x10570, 0x1057A); (0x1057C, 0x1058A);
   (0x1058C, 0x10592); (0x10594, 0x10595); (0x10597, 0x105A1);
   (0x105A3, 0x105B1); (0x105B3, 0x105B9); (0x105BB, 0x105BC);
   (0x10600, 0x10736); (0x10740, 0x10755); (0x10760, 0x10767);
   (0x10780, 0x10785); (0x10787, 0x107B0); (0x107B2, 0x107BA);
   (0x10800, 0x10805); (0x10808, 0x10808); (0x1080A, 0x10835);
   (0x10837, 0x10838); (0x1083C, 0x1083C); (0x1083F, 0x10855);
   (0x10858, 0x10876); (0x10879, 0x1089E); (0x108A7, 0x108AF);
   (0x108E0, 0x108F2); (0x108F4, 0x108F5); (0x108FB, 0x1091B);
   (0x10920, 0x10939); (0x10980, 0x109B7); (0x109BC, 0x109CF);
   (0x109D2, 0x10A00); (0x10A10, 0x10A13); (0x10A15, 0x10A17);
   (0x10A19, 0x10A35); (0x10A40, 0x10A48); (0x10A60, 0x10A7E);
   (0x10A80, 0x10A9F); (0x10AC0, 0x10AC7); (0x10AC9, 0x10AE4);
   (0x10AEB, 0x10AEF); (0x10B00, 0x10B35); (0x10B40, 0x10B55);
   (0x10B58, 0x10B72); (0x10B78, 0x10B91); (0x10BA9, 0x10BAF);
   (0x10C00, 0x10C48); (0x10C80, 0x10CB2); (0x10CC0, 0x10CF2);
   (0x10CFA, 0x10D23); (0x10D30, 0x10D39); (0x10E60, 0x10E7E);
   (0x10E80, 0x10EA9); (0x10EB0, 0x10EB1); (0x10F00, 0x10F27);
   (0x10F30, 0x10F45); (0x10F51, 0x10F54); (0x10F70, 0x10F81);
   (0x10FB0, 0x10FCB); (0x10FE0, 0x10FF6); (0x11003, 0x11037);
   (0x11052, 0x1106F); (0x11071, 0x11072); (0x11075, 0x11075);
   (0x11083, 0x110AF); (0x110D0, 0x110E8); (0x110F0, 0x110F9);
   (0x11103, 0x11126); (0x11136, 0x1113F); (0x11144, 0x11144);
   (0x11147, 0x11147); (0x11150, 0x11172); (0x11176, 0x11176);
   (0x11183, 0x111B2); (0x111C1, 0x111C4); (0x111D0, 0x111DA);
   (0x111DC, 0x111DC); (0x111E1, 0x111F4); (0x11200, 0x11211);
   (0x11213, 0x1122B); (0x11280, 0x11286); (0x11288, 0x11288);
   (0x1128A, 0x1128D); (0x1128F, 0x1129D); (0x1129F, 0x112A8);
   (0x112B0, 0x112DE); (0x112F0, 0x112F9); (0x11305, 0x1130C);
   (0x1130F, 0x11310); (0x11313, 0x11328); (0x1132A, 0x11330);
   (0x11332, 0x11333); (0x11335, 0x11339); (0x1133D, 0x1133D);
   (0x11350, 0x11350); (0x1135D, 0x11361); (0x11400, 0x11434);
   (0x11447, 0x1144A); (0x11450, 0x11459); (0x1145F, 0x11461);
   (0x11480, 0x114AF); (0x114C4, 0x114C5); (0x114C7, 0x114C7);
   (0x114D0, 0x114D9); (0x11580, 0x115AE); (0x115D8, 0x115DB);
   (0x11600, 0x1162F); (0x11644, 0x11644); (0x11650, 0x11659);
   (0x11680, 0x116AA); (0x116B8, 0x116B8); (0x116C0, 0x116C9);
   (0x11700, 0x1171A); (0x11730, 0x1173B); (0x11740, 0x11746);
   (0x11800, 0x1182B); (0x118A0, 0x118F2); (0x118FF, 0x11906);
   (0x11909, 0x11909); (0x1190C, 0x11913); (0x11915, 0x11916);
   (0x11918, 0x1192F); (0x1193F, 0x1193F); (0x11941, 0x11941);
   (0x11950, 0x11959); (0x119A0, 0x119A7); (0x119AA, 0x119D0);
   (0x119E1, 0x119E1); (0x119E3, 0x119E3); (0x11A00, 0x11A00);
   (0x11A0B, 0x11A32); (0x11A3A, 0x11A3A); (0x11A50, 0x11A50);
   (0x11A5C, 0x11A89); (0x11A9D, 0x11A9D); (0x11AB0, 0x11AF8);
   (0x11C00, 0x11C08); (0x11C0A, 0x11C2E); (0x11C40, 0x11C40);
   (0x11C50, 0x11C6C); (0x11C72, 0x11C8F); (0x11D00, 0x11D06);
   (0x11D08, 0x11D09); (0x11D0B, 0x11D30); (0x11D46, 0x11D46);
   (0x11D50, 0x11D59); (0x11D60, 0x11D65); (0x11D67, 0x11D68);
   (0x11D6A, 0x11D89); (0x11D98, 0x11D98); (0x11DA0, 0x11DA9);
   (0x11EE0, 0x11EF2); (0x11FB0, 0x11FB0); (0x11FC0, 0x11FD4);
   (0x12000, 0x12399); (0x12400, 0x1246E); (0x12480, 0x12543);
   (0x12F90, 0x12FF0); (0x13000, 0x1342E); (0x14400, 0x14646);
   (0x16800, 0x16A38); (0x16A40, 0x16A5E); (0x16A60, 0x16A69);
   (0x16A70, 0x16ABE); (0x16AC0, 0x16AC9); (0x16AD0, 0x16AED);
   (0x16B00, 0x16B2F); (0x16B40, 0x16B43); (0x16B50, 0x16B59);
   (0x16B5B, 0x16B61); (0x16B63, 0x16B77); (0x16B7D, 0x16B8F);
   (0x16E40, 0x16E96); (0x16F00, 0x16F4A); (0x16F50, 0x16F50);
   (0x16F93, 0x16F9F); (0x16FE0, 0x16FE1); (0x16FE3, 0x16FE3);
   (0x17000, 0x187F7); (0x18800, 0x18CD5); (0x18D00, 0x18D08);
   (0x1AFF0, 0x1AFF3); (0x1AFF5, 0x1AFFB); (0x1AFFD, 0x1AFFE);
   (0x1B000, 0x1B122); (0x1B150, 0x1B152); (0x1B164, 0x1B167);
   (0x1B170, 0x1B2FB); (0x1BC00, 0x1BC6A); (0x1BC70, 0x1BC7C);
   (0x1BC80, 0x1BC88); (0x1BC90, 0x1BC99); (0x1D2E0, 0x1D2F3);
   (0x1D360, 0x1D378); (0x1D400, 0x1D454); (0x1D456, 0x1D49C);
   (0x1D49E, 0x1D49F); (0x1D4A2, 0x1D4A2); (0x1D4A5, 0x1D4A6);
   (0x1D4A9, 0x1D4AC); (0x1D4AE, 0x1D4B9); (0x1D4BB, 0x1D4BB);
   (0x1D4BD, 0x1D4C3); (0x1D4C5, 0x1D505); (0x1D507, 0x1D50A);
   (0x1D50D, 0x1D514); (0x1D516, 0x1D51C); (0x1D51E, 0x1D539);
   (0x1D53B, 0x1D53E); (0x1D540, 0x1D544); (0x1D546, 0x1D546);
   (0x1D54A, 0x1D550); (0x1D552, 0x1D6A5); (0x1D6A8, 0x1D6C0);
   (0x1D6C2, 0x1D6DA); (0x1D6DC, 0x1D6FA); (0x1D6FC, 0x1D714);
   (0x1D716, 0x1D734); (0x1D736, 0x1D74E); (0x1D750, 0x1D76E);
   (0x1D770, 0x1D788); (0x1D78A, 0x1D7A8); (0x1D7AA, 0x1D7C2);
   (0x1D7C4, 0x1D7CB); (0x1D7CE, 0x1D7FF); (0x1DF00, 0x1DF1E);
   (0x1E100, 0x1E12C); (0x1E137, 0x1E13D); (0x1E140, 0x1E149);
   (0x1E14E, 0x1E14E); (0x1E290, 0x1E2AD); (0x1E2C0, 0x1E2EB);
   (0x1E2F0, 0x1E2F9); (0x1E7E0, 0x1E7E6); (0x1E7E8, 0x1E7EB);
   (0x1E7ED, 0x1E7EE); (0x1E7F0, 0x1E7FE); (0x1E800, 0x1E8C4);
   (0x1E8C7, 0x1E8CF); (0x1E900, 0x1E943); (0x1E94B, 0x1E94B);
   (0x1E950, 0x1E959); (0x1EC71, 0x1ECAB); (0x1ECAD, 0x1ECAF);
   (0x1ECB1, 0x1ECB4); (0x1ED01, 0x1ED2D); (0x1ED2F, 0x1ED3D);
   (0x1EE00, 0x1EE03); (0x1EE05, 0x1EE1F); (0x1EE21, 0x1EE22);
   (0x1EE24, 0x1EE24); (0x1EE27, 0x1EE27); (0x1EE29, 0x1EE32);
   (0x1EE34, 0x1EE37); (0x1EE39, 0x1EE39); (0x1EE3B, 0x1EE3B);
   (0x1EE42, 0x1EE42); (0x1EE47, 0x1EE47); (0x1EE49, 0x1EE49);
   (0x1EE4B, 0x1EE4B); (0x1EE4D, 0x1EE4F); (0x1EE51, 0x1EE52);
   (0x1EE54, 0x1EE54); (0x1EE57, 0x1EE57); (0x1EE59, 0x1EE59);
   (0x1EE5B, 0x1EE5B); (0x1EE5D, 0x1EE5D); (0x1EE5F, 0x1EE5F);
   (0x1EE61, 0x1EE62); (0x1EE64, 0x1EE64); (0x1EE67, 0x1EE6A);
   (0x1EE6C, 0x1EE72); (0x1EE74, 0x1EE77); (0x1EE79, 0x1EE7C);
   (0x1EE7E, 0x1EE7E); (0x1EE80, 0x1EE89); (0x1EE8B, 0x1EE9B);
   (0x1EEA1, 0x1EEA3); (0x1EEA5, 0x1EEA9); (0x1EEAB, 0x1EEBB);
   (0x1F100, 0x1F10C); (0x1FBF0, 0x1FBF9); (0x20000, 0x2A6DF);
   (0x2A700, 0x2B738); (0x2B740, 0x2B81D); (0x2B820, 0x2CEA1);
   (0x2CEB0, 0x2EBE0); (0x2F800, 0x2FA1D); (0x30000, 0x3134A)].

(** The class [\w] of [re] on [str] patterns: alphanumeric, or the
    underscore. *)
Definition is_word (c : char) : bool :=
  (c =? 95) || existsb (λ '(a, b), (a <=? c) && (c <=? b)) alnum_ranges.

(** [\b] between two characters, [None] at an end of the string. *)
Definition word_boundary (before after : option char) : bool :=
  xorb (from_option is_word false before) (from_option is_word false after).

Definition ISSUE_PREFIX : pystr := Eval vm_compute in py "issue-".

(** [\bissue-(\d+)\b] at the head of [s], after the character [before]:
    group 1. The greedy [\d+] takes the whole run of digits; between two
    digits there is no word boundary, so no shorter run can match. *)
Definition issue_at (before : option char) (s : pystr) : option pystr :=
  if word_boundary before (head s) && startswith ISSUE_PREFIX s then
    let r := drop (length ISSUE_PREFIX) s in
    let digits := take_while isdigit r in
    match digits with
    | [] => None
    | _ :: _ =>
        if word_boundary (last digits) (head (drop (length digits) r))
        then Some digits else None
    end
  else None.

(** [re.search]: the leftmost match. *)
Fixpoint issue_search (before : option char) (s : pystr) : option pystr :=
  match issue_at before s with
  | Some g => Some g
  | None =>
      match s with
      | [] => None
      | c :: s' => issue_search (Some c) s'
      end
  end.

Definition extract_issue_number_from_branch (branch : pystr) : option Z :=
  match issue_search None branch with
  | None => None
  | Some g =>
      match py_int g with
      | None => None
      | Some n => if (n <? 0)%Z then None else Some n
      end
  end.

End ApprovalRecord.

Import ApprovalRecord.

(** * [lint-sot.py]: paths, link targets and evidence links *)
Module LintSotHelpers.

(** ** [is_safe_repo_relative_root] *)

Definition is_safe_repo_relative_root (root : pystr) : bool :=
  match root with
  | [] => false
  | _ :: _ =>
      if isabs root then false
      else
        let p := strip (replace [BACKSLASH] [SLASH] root) in
        let p := if startswith [46; SLASH] p then drop 2 p else p in
        if str_in p [DOT; DOTDOT] then false
        else
          let parts := filter (λ x, x ≠ []) (split SLASH p) in
          if bool_decide (parts = []) then false
          else if str_in DOTDOT parts then false
          else true
  end.

(** ** [has_candidate_evidence_url] *)

Definition EVIDENCE_LABEL : pystr := Eval vm_compute in py "根拠リンク:".

Definition _RESEARCH_CANDIDATE_REQUIRED_LABELS : list pystr :=
  Eval vm_compute in
  map py ["概要:"; "適用可否:"; "仮説:"; "反証:"; "採否理由:"; "根拠リンク:";
          "捨て条件:"; "リスク/検証:"].

Definition HTTP_PREFIX : pystr := Eval vm_compute in py "http".
Definition SCHEME_END : pystr := Eval vm_compute in py "://".

(** [_RESEARCH_EVIDENCE_URL_RE.search(line) is not None], pattern
    [^\s*-\s*https?://\S+] with [re.MULTILINE], on a line of
    [splitlines], in which no newline is left: [^] holds at its start
    only. After [http] an [s] is taken when there is one; without it the
    pattern would need a colon there. *)
Definition _RESEARCH_EVIDENCE_URL_RE (line : pystr) : bool :=
  match lstrip line with
  | c :: s1 =>
      (c =? 45) &&
      let s2 := lstrip s1 in
      startswith HTTP_PREFIX s2 &&
      let s3 := drop (length HTTP_PREFIX) s2 in
      let s4 := if startswith [115] s3 then drop 1 s3 else s3 in
      startswith SCHEME_END s4 &&
      match drop (length SCHEME_END) s4 with
      | c' :: _ => negb (isspace c')
      | [] => false
      end
  | [] => false
  end.

(** The [for] loop over the lines, with its variable [in_evidence]. *)
Fixpoint evidence_loop (in_evidence : bool) (lines : list pystr) : bool :=
  match lines with
  | [] => false
  | line :: rest =>
      let s := strip line in
      if negb in_evidence then
        evidence_loop (startswith EVIDENCE_LABEL s) rest
      else if existsb (λ x, startswith x s) _RESEARCH_CANDIDATE_REQUIRED_LABELS
              && negb (startswith EVIDENCE_LABEL s)
      then false
      else if _RESEARCH_EVIDENCE_URL_RE line then true
      else evidence_loop true rest
  end.

Definition has_candidate_evidence_url (block : pystr) : bool :=
  evidence_loop false (splitlines block).

(** ** [normalize_target] *)

(** [t.split()[0]]: the first run of characters that are no whitespace;
    [None] is the [IndexError] for a string of whitespace only. *)
Definition first_word (t : pystr) : option pystr :=
  match lstrip t with
  | [] => None
  | c :: r => Some (take_while (λ x, negb (isspace x)) (c :: r))
  end.

Definition DQUOTE : char := 34.
Definition SQUOTE : char := 39.
Definition QUESTION_MARK : char := 63.

(** Angle brackets around the target, and then quotes, are taken off with
    [t[1:-1].strip()]; [None] is the [IndexError] of [first_word]. *)
Definition normalize_target (target : pystr) : option pystr :=
  let t := strip target in
  let t := if startswith [60] t && endswith [62] t
           then strip (removelast (drop 1 t)) else t in
  let t := if (startswith [DQUOTE] t && endswith [DQUOTE] t)
              || (startswith [SQUOTE] t && endswith [SQUOTE] t)
           then strip (removelast (drop 1 t)) else t in
  (λ t, strip (split1_head QUESTION_MARK (split1_head HASH t))) <$>
  (if bool_decide (SPACE ∈ t) || bool_decide (TAB ∈ t) || bool_decide (LF ∈ t)
   then first_word t else Some t).

(** ** Vocabulary of the statements *)

(** The line begins with a required label that is not the label of the
    evidence links. *)
Definition starts_other_label (line : pystr) : bool :=
  existsb (λ x, startswith x (strip line)) _RESEARCH_CANDIDATE_REQUIRED_LABELS
  && negb (startswith EVIDENCE_LABEL (strip line)).

End LintSotHelpers.

Import LintSotHelpers.

(** * Vocabulary of the statements of the further facts *)
Module Vocabulary.

(** ** [md_sanitize.py] *)

(** The matches are found from the left and do not overlap. *)
Fixpoint spans_from (n : nat) (ms : list (nat * nat)) : Prop :=
  match ms with
  | [] => True
  | (a, b) :: ms' => (n ≤ a)%nat ∧ (a ≤ b)%nat ∧ spans_from b ms'
  end.

(** ** [validate-review-json.py] *)

(** The keys of [d] are the keys [ks]. *)
Definition keys_are (d : list (pystr * json)) (ks : list pystr) : Prop :=
  ∀ k, k ∈ d.*1 ↔ k ∈ ks.

(** A finding as the schema wants it. *)
Definition accepted_finding (f : json) : Prop :=
  ∃ d cl lr title body priority path a b,
    f = JDict d ∧ keys_are d required_finding_keys ∧
    get K_TITLE d = JStr title ∧ title ≠ [] ∧ (length title ≤ 120)%nat ∧
    get K_BODY d = JStr body ∧ body ≠ [] ∧
    get K_PRIORITY d = JStr priority ∧ priority ∈ PRIORITY_ALLOWED ∧
    get K_CODE_LOCATION d = JDict cl ∧ keys_are cl required_code_location_keys ∧
    get K_PATH cl = JStr path ∧ is_repo_relative_path path = true ∧
    get K_LINE_RANGE cl = JDict lr ∧ keys_are lr required_line_range_keys ∧
    as_int (get K_START lr) = Some a ∧ as_int (get K_END lr) = Some b ∧
    (1 ≤ a ≤ b)%Z.

(** ** [validate-approval.py] *)

(** A timestamp [YYYY-MM-DDTHH:mm:ssZ], of decimal digits. *)
Definition timestamp_shape (t : pystr) : Prop :=
  ∃ y1 y2 y3 y4 m1 m2 d1 d2 h1 h2 n1 n2 s1 s2,
    t = [y1; y2; y3; y4; 45; m1; m2; 45; d1; d2; 84;
         h1; h2; 58; n1; n2; 58; s1; s2; 90] ∧
    Forall (λ c, isdigit c = true)
           [y1; y2; y3; y4; m1; m2; d1; d2; h1; h2; n1; n2; s1; s2].

(** An approval of issue 7 with the given hash, every other field as the
    schema wants it. *)
Definition approval_record (hash : pystr) : list (pystr * json) :=
  [(K_SCHEMA_VERSION, JInt 1); (K_ISSUE_NUMBER, JInt 7);
   (K_MODE, JStr (py "impl"));
   (K_APPROVED_AT, JStr (py "2026-02-20T10:00:00Z"));
   (K_APPROVER, JStr (py "user")); (K_ESTIMATE_HASH, JStr hash)].

(** An ASCII digit. *)
Definition ascii_digit (c : char) : bool := (48 <=? c) && (c <=? 57).

(** The number that a string of ASCII digits denotes. *)
Definition decimal (ds : pystr) : N := foldl (λ acc c, acc * 10 + (c - 48)) 0 ds.

End Vocabulary.

Import Vocabulary.

(** * Part two: facts *)

(** * Facts about the runtime model *)
Module PyFacts.

Lemma pystr_ind2 (P : pystr → Prop) :
  P [] → (∀ c, P [c]) → (∀ c c' s, P s → P (c' :: s) → P (c :: c' :: s)) →
  ∀ s, P s.
Proof.
  intros Hnil Hone Hstep s.
  assert (P s ∧ ∀ c, P (c :: s)) as [? _]; [|done].
  induction s as [|c' s [IH1 IH2]]; [by split|].
  split; [apply IH2|]. intros c. by apply Hstep.
Qed.

Lemma startswith_prefix p s : startswith p s = true ↔ ∃ k, s = p ++ k.
Proof.
  revert s. induction p as [|a p IH]; intros s; simpl.
  - split; [by exists s|done].
  - destruct s as [|b s]; simpl.
    + split; [done|]. by intros [k ?].
    + rewrite andb_true_iff, N.eqb_eq, IH. split.
      * intros [-> [k ->]]. by exists k.
      * intros [k [= -> ->]]. split; [done|by exists k].
Qed.

Lemma startswith_app p k : startswith p (p ++ k) = true.
Proof. apply startswith_prefix. by exists k. Qed.

(** ** [splitlines(keepends=True)] *)

Lemma splitlines_keepends_cons_break c s :
  is_linebreak c = true →
  splitlines_keepends (c :: s) =
    match s with
    | c' :: s'' =>
        if (c =? CR) && (c' =? LF) then [c; c'] :: splitlines_keepends s''
        else [c] :: splitlines_keepends s
    | [] => [[c]]
    end.
Proof. intros Hc. simpl. by rewrite Hc. Qed.

Lemma splitlines_keepends_cons_char c s :
  is_linebreak c = false →
  splitlines_keepends (c :: s) =
    match splitlines_keepends s with
    | l :: ls => (c :: l) :: ls
    | [] => [[c]]
    end.
Proof. intros Hc. simpl. by rewrite Hc. Qed.

(** Joining the lines gives the text back. *)
Lemma concat_splitlines_keepends s : concat (splitlines_keepends s) = s.
Proof.
  induction s as [|c|c c' s IH1 IH2] using pystr_ind2; [done| |].
  - simpl. by destruct (is_linebreak c).
  - destruct (is_linebreak c) eqn:Hc.
    + rewrite splitlines_keepends_cons_break by done.
      destruct ((c =? CR) && (c' =? LF)); cbn [concat app]; by rewrite ?IH1, ?IH2.
    + rewrite splitlines_keepends_cons_char by done.
      destruct (splitlines_keepends (c' :: s)) as [|l ls] eqn:E.
      * cbn [concat] in IH2. by rewrite <-IH2.
      * cbn [concat app] in *. by rewrite IH2.
Qed.

Lemma str_eqb_eq s t : str_eqb s t = true ↔ s = t.
Proof.
  revert t. induction s as [|a s IH]; intros [|b t]; simpl; try done.
  rewrite andb_true_iff, N.eqb_eq, IH. split; [by intros [-> ->]|by intros [= -> ->]].
Qed.

Lemma str_in_elem_of x xs : str_in x xs = true ↔ x ∈ xs.
Proof.
  unfold str_in. rewrite existsb_exists. split.
  - by intros (y & Hy%list_elem_of_In & ->%str_eqb_eq).
  - intros Hx. exists x. split; [by apply list_elem_of_In|by apply str_eqb_eq].
Qed.

(** ** [find] *)

Lemma find_sub_None_startswith p s :
  find_sub p s = None → startswith p s = false.
Proof. destruct s; simpl; by destruct (startswith p _). Qed.

Lemma find_sub_None_cons p c s : find_sub p (c :: s) = None → find_sub p s = None.
Proof.
  simpl. destruct (startswith p (c :: s)); [done|].
  by destruct (find_sub p s).
Qed.

Lemma find_sub_None_drop p s k : find_sub p s = None → find_sub p (drop k s) = None.
Proof.
  revert s. induction k as [|k IH]; intros [|c s] H; try done.
  apply IH. by eapply find_sub_None_cons.
Qed.

Lemma find_sub_None_iff p s :
  find_sub p s = None ↔ ∀ k, startswith p (drop k s) = false.
Proof.
  split.
  - intros H k. by apply find_sub_None_startswith, find_sub_None_drop.
  - induction s as [|c s IH]; intros H.
    + specialize (H 0%nat). simpl in *. by rewrite H.
    + pose proof (H 0%nat) as H0. cbn [drop] in H0. cbn [find_sub].
      rewrite H0, IH; [done|]. intros k. apply (H (S k)).
Qed.

Lemma find_sub_None_occurs p s : find_sub p s = None ↔ ¬ occurs p s.
Proof.
  rewrite find_sub_None_iff. split.
  - intros H (a & b & ->). specialize (H (length a)).
    rewrite drop_app_length in H.
    by rewrite startswith_app in H.
  - intros H k. destruct (startswith p (drop k s)) eqn:E; [|done].
    apply startswith_prefix in E as [b Hb]. destruct H.
    exists (take k s), b. by rewrite <-Hb, take_drop.
Qed.

Lemma occurs_app_l p s t : occurs p s → occurs p (s ++ t).
Proof. intros (a & b & ->). exists a, (b ++ t). by rewrite <-!app_assoc. Qed.

Lemma occurs_app_r p s t : occurs p t → occurs p (s ++ t).
Proof. intros (a & b & ->). exists (s ++ a), b. by rewrite <-!app_assoc. Qed.

(** A pattern that occurs in [s ++ [c] ++ t] and does not contain [c]
    occurs in [s ++ [c]] or in [t]. *)
Lemma occurs_app_boundary p s c t :
  c ∉ p → occurs p ((s ++ [c]) ++ t) → occurs p (s ++ [c]) ∨ occurs p t.
Proof.
  intros Hc (a & b & Heq).
  apply app_eq_inv in Heq as [(k & Hl & Hr)|(k & -> & ->)].
  - symmetry in Hr. apply app_eq_inv in Hr as [(k' & -> & ->)|(k' & -> & ->)].
    + left. by exists a, k'.
    + destruct k as [|x k _] using rev_ind.
      * right. by exists [], b.
      * rewrite app_assoc in Hl. apply app_inj_tail in Hl as [_ ->].
        destruct Hc. set_solver.
  - right. by exists k, b.
Qed.

End PyFacts.

(** * Facts about [md_sanitize.py] *)
Module MdSanitizeFacts.
Import PyFacts.

(** ** Lines *)

Lemma splitlines_keepends_ok s : lines_ok (splitlines_keepends s).
Proof.
  induction s as [|c|c c' s IH1 IH2] using pystr_ind2.
  - constructor.
  - simpl. destruct (is_linebreak c) eqn:Hc.
    + apply lines_ok_cons; [by constructor|constructor].
    + apply lines_ok_last; [done|]. by repeat constructor.
  - destruct (is_linebreak c) eqn:Hc.
    + rewrite splitlines_keepends_cons_break by done.
      destruct ((c =? CR) && (c' =? LF)) eqn:E.
      * apply andb_true_iff in E as [->%N.eqb_eq ->%N.eqb_eq].
        apply lines_ok_cons; [constructor|done].
      * apply lines_ok_cons; [by constructor|done].
    + rewrite splitlines_keepends_cons_char by done.
      destruct (splitlines_keepends (c' :: s)) as [|l ls].
      * apply lines_ok_last; [done|]. by repeat constructor.
      * inversion IH2; subst.
        -- apply lines_ok_last; [done|]. by constructor.
        -- apply lines_ok_cons; [by constructor|done].
Qed.

Lemma lines_ok_tail l ls : lines_ok (l :: ls) → lines_ok ls.
Proof. inversion 1; [constructor|done]. Qed.

Lemma lines_ok_head l l' ls : lines_ok (l :: l' :: ls) → terminated l.
Proof. by inversion 1. Qed.

(** What [splitlines] makes of a terminated line followed by more text: the
    line itself, unless it ends in a carriage return that the next
    character, a newline, completes. *)
Lemma splitlines_keepends_terminated l rest :
  terminated l →
  (splitlines_keepends (l ++ rest) = l :: splitlines_keepends rest) ∨
  (∃ b rest', l = b ++ [CR] ∧ rest = LF :: rest' ∧
     splitlines_keepends (l ++ rest) = (l ++ [LF]) :: splitlines_keepends rest').
Proof.
  induction 1 as [c Hc| |c l Hc Hl IH].
  - cbn [app]. rewrite splitlines_keepends_cons_break by done.
    destruct rest as [|c' rest']; [by left|].
    destruct ((c =? CR) && (c' =? LF)) eqn:E; [|by left].
    apply andb_true_iff in E as [->%N.eqb_eq ->%N.eqb_eq].
    right. by exists [], rest'.
  - left. done.
  - cbn [app]. rewrite splitlines_keepends_cons_char by done.
    destruct IH as [->|(b & rest' & -> & -> & ->)]; [by left|].
    right. by exists (c :: b), rest'.
Qed.

(** ** The fence patterns *)

Lemma run_length_stop c c' b x :
  c' ≠ c → run_length c (b ++ c' :: x) = run_length c (b ++ [c']).
Proof.
  intros Hc. induction b as [|a b IH]; simpl.
  - by destruct (N.eqb_spec c' c).
  - destruct (a =? c); [by rewrite IH|done].
Qed.

(** What follows a character that is no blank and no fence character has no
    influence on the opening pattern. *)
Lemma fence_open_stop n c b x :
  is_blank c = false → c ≠ BACKTICK → c ≠ TILDE →
  fence_seq (skip_blanks n (b ++ c :: x)) = fence_seq (skip_blanks n (b ++ [c])).
Proof.
  intros Hb Hq Ht. revert n. induction b as [|a b IH]; intros n.
  - assert (∀ y, skip_blanks n (c :: y) = c :: y) as Hskip.
    { intros y. destruct n; simpl; [done|by rewrite Hb]. }
    cbn [app]. rewrite !Hskip. unfold fence_seq.
    destruct (N.eqb_spec c BACKTICK), (N.eqb_spec c TILDE); done.
  - assert (∀ y, fence_seq (a :: b ++ c :: y) = fence_seq (a :: b ++ [c])) as Hseq.
    { intros y. unfold fence_seq.
      destruct ((a =? BACKTICK) || (a =? TILDE)) eqn:E; [|done].
      assert (c ≠ a) as Hca.
      { intros ->. by apply orb_true_iff in E as [?%N.eqb_eq|?%N.eqb_eq]. }
      pose proof (run_length_stop a c (a :: b) y Hca) as H1.
      pose proof (run_length_stop a c (a :: b) [] Hca) as H2.
      cbn [app] in H1, H2. by rewrite H1. }
    destruct n as [|n]; cbn [app skip_blanks]; [by rewrite Hseq|].
    destruct (is_blank a); [apply IH|by rewrite Hseq].
Qed.

Lemma fence_open_crlf b :
  _FENCE_OPEN_RE ((b ++ [CR]) ++ [LF]) = _FENCE_OPEN_RE (b ++ [CR]).
Proof. rewrite <-app_assoc. by apply fence_open_stop. Qed.

(** ** The fence loop *)

Lemma fence_loop_app st l1 l2 :
  fence_loop st (l1 ++ l2) =
  fence_loop st l1 ++ fence_loop (fence_state_after st l1) l2.
Proof.
  revert st. induction l1 as [|l l1 IH]; intros st; [done|].
  cbn [app fence_loop fence_state_after].
  destruct (fence_step st l) as [st' out]. by rewrite IH, app_assoc.
Qed.

Lemma fence_state_after_app st l1 l2 :
  fence_state_after st (l1 ++ l2) =
  fence_state_after (fence_state_after st l1) l2.
Proof. revert st. induction l1; intros st; [done|]. apply IHl1. Qed.

Lemma fence_step_inv st line : fence_inv st → fence_inv (fence_step st line).1.
Proof.
  intros Hst. unfold fence_step.
  destruct (in_fence st) eqn:Hin; cbn [negb].
  - destruct (_FENCE_CLOSE_RE line) as [[c n]|];
      [destruct (_ && _)|]; unfold fence_inv; cbn; congruence.
  - destruct (_FENCE_OPEN_RE line) as [[c n]|]; [done|by intros _; apply Hst].
Qed.

Lemma fence_state_after_inv st lines :
  fence_inv st → fence_inv (fence_state_after st lines).
Proof.
  revert st. induction lines as [|l ls IH]; intros st Hst; [done|].
  apply IH, fence_step_inv, Hst.
Qed.

(** Only lines that do not open a fence are kept. *)
Lemma fence_loop_kept st lines :
  Forall (λ line, _FENCE_OPEN_RE line = None) (fence_loop st lines).
Proof.
  revert st. induction lines as [|l ls IH]; intros st; [constructor|].
  cbn [fence_loop]. unfold fence_step.
  destruct (in_fence st); cbn [negb].
  - destruct (_FENCE_CLOSE_RE l) as [[c n]|]; [destruct (_ && _)|]; apply IH.
  - destruct (_FENCE_OPEN_RE l) as [[c n]|] eqn:E; [apply IH|].
    constructor; [done|apply IH].
Qed.

Lemma fence_loop_lines_ok st lines :
  lines_ok lines → lines_ok (fence_loop st lines).
Proof.
  revert st. induction lines as [|l ls IH]; intros st Hok; [constructor|].
  assert (lines_ok (l :: fence_loop st ls)) as Hkeep.
  { destruct ls as [|l' ls]; [done|].
    apply lines_ok_cons; [by eapply lines_ok_head|].
    by eapply IH, lines_ok_tail. }
  pose proof (lines_ok_tail _ _ Hok) as Htl.
  cbn [fence_loop]. unfold fence_step.
  destruct (in_fence st); cbn [negb].
  - destruct (_FENCE_CLOSE_RE l) as [[c n]|]; [destruct (_ && _)|]; by apply IH.
  - destruct (_FENCE_OPEN_RE l) as [[c n]|]; [by apply IH|done].
Qed.

(** Without an opening line the loop keeps every line. *)
Lemma fence_loop_opener_free lines :
  Forall (λ line, _FENCE_OPEN_RE line = None) lines →
  fence_loop no_fence lines = lines.
Proof.
  induction 1 as [|l ls Hl _ IH]; [done|].
  cbn [fence_loop]. unfold fence_step. cbn [negb in_fence no_fence].
  rewrite Hl. cbn [app]. by rewrite IH.
Qed.

Lemma strip_fenced_opener_free text :
  opener_free text → strip_fenced_code_blocks text = text.
Proof.
  intros H. unfold strip_fenced_code_blocks.
  by rewrite fence_loop_opener_free, concat_splitlines_keepends.
Qed.

Lemma splitlines_keepends_unterminated l :
  l ≠ [] → Forall (λ c, is_linebreak c = false) l → splitlines_keepends l = [l].
Proof.
  intros Hne Hl. induction Hl as [|c l Hc Hl IH]; [done|].
  rewrite splitlines_keepends_cons_char by done.
  destruct l as [|c' l]; [done|]. by rewrite IH.
Qed.

(** Joining lines none of which opens a fence gives a text none of whose
    lines opens a fence, although a line that ends in a carriage return may
    merge with a following newline. *)
Lemma opener_free_concat ls :
  lines_ok ls → Forall (λ line, _FENCE_OPEN_RE line = None) ls →
  opener_free (concat ls).
Proof.
  unfold opener_free.
  induction 1 as [|l Hne Hl|l ls Hl Hls IH]; intros Hopen.
  - constructor.
  - cbn [concat]. rewrite app_nil_r, splitlines_keepends_unterminated by done.
    done.
  - apply Forall_cons in Hopen as [Hl0 Hrest]. specialize (IH Hrest).
    cbn [concat].
    destruct (splitlines_keepends_terminated l (concat ls) Hl)
      as [->|(b & rest' & -> & Hcat & ->)].
    + by constructor.
    + rewrite Hcat in IH.
      constructor; [by rewrite fence_open_crlf|].
      rewrite splitlines_keepends_cons_break in IH by done.
      destruct rest' as [|c' r]; [constructor|].
      cbn [N.eqb andb] in IH. by apply Forall_cons in IH as [_ ?].
Qed.

(** ** Inline code masking *)

(** Masking changes a character only to a blank. *)
Lemma run_end_spec fuel text c i :
  (length text - i ≤ fuel)%nat →
  run_end fuel text c i = (i + run_length c (drop i text))%nat.
Proof.
  revert i. induction fuel as [|fuel IH]; intros i Hfuel.
  - cbn. rewrite drop_ge by lia. cbn. lia.
  - cbn [run_end]. destruct (text !! i) as [x|] eqn:Hx.
    + rewrite (drop_S _ _ _ Hx). cbn [run_length].
      case_bool_decide as Hc.
      * injection Hc as ->. rewrite N.eqb_refl, IH by lia. lia.
      * destruct (N.eqb_spec x c) as [->|]; [done|lia].
    + rewrite bool_decide_eq_false_2 by done.
      rewrite drop_ge by (by apply lookup_ge_None). cbn. lia.
Qed.

Lemma run_length_le c s : (run_length c s ≤ length s)%nat.
Proof. induction s as [|x s IH]; cbn; [lia|]. destruct (x =? c); cbn; lia. Qed.

Lemma run_length_drop c s :
  match drop (run_length c s) s with
  | x :: _ => x ≠ c
  | [] => True
  end.
Proof.
  induction s as [|x s IH]; cbn; [done|].
  destruct (N.eqb_spec x c); [done|]. cbn. done.
Qed.

Lemma find_closer_run open_len run s :
  find_closer open_len run s =
  (λ j, run_length BACKTICK s + j)%nat <$>
    find_closer open_len (run + run_length BACKTICK s)
      (drop (run_length BACKTICK s) s).
Proof.
  revert run. induction s as [|c s IH]; intros run.
  - cbn. rewrite Nat.add_0_r. by destruct (_ =? _)%nat.
  - cbn [run_length]. destruct (N.eqb_spec c BACKTICK) as [->|Hc].
    + cbn [find_closer drop]. replace (BACKTICK =? BACKTICK) with true by done.
      rewrite IH, <-option_fmap_compose.
      replace (S run + run_length BACKTICK s)%nat
        with (run + S (run_length BACKTICK s))%nat by lia.
      by destruct (find_closer _ _ _).
    + rewrite Nat.add_0_r, drop_0. by destruct (find_closer _ _ _).
Qed.

(** At the end of a run of backticks: the run closes the span if it has
    the length of the opening run, and the search goes on otherwise. *)
Lemma find_closer_after_run open_len run s :
  (1 ≤ open_len)%nat →
  match s with x :: _ => x ≠ BACKTICK | [] => True end →
  find_closer open_len run s =
  if (run =? open_len)%nat then Some 0%nat else find_closer open_len 0 s.
Proof.
  intros Hlen Hs. destruct s as [|x s]; cbn [find_closer].
  - destruct (Nat.eqb_spec run open_len); [done|].
    by destruct (Nat.eqb_spec 0 open_len); [lia|].
  - destruct (N.eqb_spec x BACKTICK); [done|].
    destruct (Nat.eqb_spec run open_len); [done|].
    by destruct (Nat.eqb_spec 0 open_len); [lia|].
Qed.

Lemma closer_loop_spec fuel text open_len k :
  (1 ≤ open_len)%nat → (length text - k ≤ fuel)%nat →
  closer_loop fuel text open_len k =
  (λ j, k + j)%nat <$> find_closer open_len 0 (drop k text).
Proof.
  intros Hlen. revert k. induction fuel as [|fuel IH]; intros k Hfuel.
  - rewrite drop_ge by lia. cbn [closer_loop find_closer].
    by destruct (Nat.eqb_spec 0 open_len); [lia|].
  - cbn [closer_loop]. destruct (text !! k) as [c|] eqn:Hc.
    2:{ rewrite drop_ge by (by apply lookup_ge_None). cbn [find_closer].
        by destruct (Nat.eqb_spec 0 open_len); [lia|]. }
    destruct (N.eqb_spec c BACKTICK) as [->|Hne].
    + rewrite run_end_spec by lia.
      set (m := run_length BACKTICK (drop k text)).
      assert (1 ≤ m)%nat as Hm.
      { unfold m. rewrite (drop_S _ _ _ Hc). cbn. lia. }
      rewrite (find_closer_run _ _ (drop k text)). fold m.
      rewrite drop_drop, Nat.add_0_l.
      rewrite find_closer_after_run; [|done|].
      2:{ rewrite <-drop_drop. apply run_length_drop. }
      replace (k + m - k)%nat with m by lia.
      destruct (Nat.eqb_spec m open_len); [cbn; f_equal; lia|].
      rewrite IH by lia. rewrite <-option_fmap_compose.
      destruct (find_closer _ _ _); cbn; [f_equal; lia|done].
    + rewrite (drop_S _ _ _ Hc). cbn [find_closer].
      destruct (N.eqb_spec c BACKTICK); [done|].
      destruct (Nat.eqb_spec 0 open_len); [lia|].
      rewrite IH by lia. rewrite <-option_fmap_compose.
      destruct (find_closer _ _ _); cbn; [f_equal; lia|done].
Qed.

Lemma blank_range_spec p s count :
  (count ≤ length s)%nat →
  blank_range (p ++ s) (length p) count =
  p ++ replicate count SPACE ++ drop count s.
Proof.
  revert p s. induction count as [|count IH]; intros p s Hs; [done|].
  destruct s as [|x s]; [cbn in Hs; lia|]. cbn [blank_range].
  rewrite insert_app_r_alt, Nat.sub_diag by lia. cbn [insert list_insert].
  replace (S (length p)) with (length (p ++ [SPACE]))
    by (rewrite length_app; cbn; lia).
  rewrite (cons_middle SPACE p s), app_assoc, IH by (cbn in Hs; lia).
  by rewrite <-app_assoc.
Qed.

Lemma mask_from_copy k s :
  mask_from k false s = take k s ++ mask_from 0 false (drop k s).
Proof.
  revert k. induction s as [|c s IH]; intros [|k]; try done.
  cbn [mask_from take drop app]. by rewrite IH.
Qed.

Lemma mask_from_blank k s :
  (k ≤ length s)%nat →
  mask_from k true s = replicate k SPACE ++ mask_from 0 false (drop k s).
Proof.
  revert k. induction s as [|c s IH]; intros [|k] Hk; try done;
    [cbn in Hk; lia|].
  cbn [mask_from replicate drop app]. rewrite IH by (cbn in Hk; lia). done.
Qed.

Lemma find_closer_bound open_len run s k :
  find_closer open_len run s = Some k → (k ≤ length s)%nat.
Proof.
  revert run k. induction s as [|c s IH]; intros run k; cbn [find_closer].
  - destruct (_ =? _)%nat; [|done]. intros [= <-]. lia.
  - destruct (c =? BACKTICK).
    + destruct (find_closer _ _ s) eqn:E; [|done]. intros [= <-].
      apply IH in E. cbn. lia.
    + destruct (_ =? _)%nat; [intros [= <-]; lia|].
      destruct (find_closer _ _ s) eqn:E; [|done]. intros [= <-].
      apply IH in E. cbn. lia.
Qed.

(** The loop with the index computes what the recursion over the rest of
    the text computes: after [p], the part of [out] that is decided, comes
    the mask of the text from [i] on. *)
Lemma mask_loop_spec fuel text p i :
  i = length p → (i ≤ length text)%nat → (length text - i ≤ fuel)%nat →
  mask_loop fuel text (p ++ drop i text) i =
  p ++ mask_from 0 false (drop i text).
Proof.
  revert p i. induction fuel as [|fuel IH]; intros p i Hp Hi Hfuel.
  - by rewrite drop_ge by lia.
  - cbn [mask_loop]. destruct (text !! i) as [c|] eqn:Hc.
    2:{ by rewrite drop_ge by (by apply lookup_ge_None). }
    pose proof (lookup_lt_Some _ _ _ Hc) as Hlt.
    pose proof (drop_S _ _ _ Hc) as Hdrop.
    assert (∀ n, (1 ≤ n)%nat → (n ≤ length (drop i text))%nat →
              mask_loop fuel text (p ++ drop i text) (i + n) =
              p ++ c :: take (n - 1) (drop (S i) text) ++
                   mask_from 0 false (drop (n - 1) (drop (S i) text)))
      as Hcopy.
    { intros n Hn1 Hn.
      rewrite <-(take_drop n (drop i text)) at 1.
      rewrite drop_drop, app_assoc, IH.
      - rewrite <-app_assoc. f_equal.
        replace n with (S (n - 1)) at 1 2 by lia.
        rewrite Hdrop at 1. cbn [take app]. do 2 f_equal.
        rewrite drop_drop.
        apply (f_equal (λ k, mask_from 0 false (drop k text))). lia.
      - rewrite length_app, length_take. lia.
      - rewrite length_drop in Hn. lia.
      - lia. }
    rewrite Hdrop. cbn [mask_from]. rewrite <-Hdrop.
    destruct (N.eqb_spec c BACKSLASH) as [->|Hbs].
    + rewrite run_end_spec by lia.
      set (num_bs := run_length BACKSLASH (drop i text)).
      assert (1 ≤ num_bs)%nat as Hn1.
      { unfold num_bs. rewrite Hdrop. cbn. lia. }
      pose proof (run_length_le BACKSLASH (drop i text)) as Hle.
      fold num_bs in Hle.
      replace (i + num_bs - i)%nat with num_bs by lia.
      rewrite <-(Nat.add_0_r (i + num_bs)), <-Nat.add_assoc.
      rewrite <-(lookup_drop text i (num_bs + 0)), <-lookup_drop.
      rewrite mask_from_copy.
      destruct (drop num_bs (drop i text)) as [|c' r] eqn:Hrest.
      * rewrite bool_decide_eq_false_2 by done. cbn [andb].
        rewrite !Nat.add_0_r, Hcopy by done. done.
      * change ((c' :: r) !! 0%nat) with (Some c').
        destruct (N.eqb_spec c' BACKTICK) as [->|Hc'].
        -- rewrite bool_decide_eq_true_2 by done. cbn [andb].
           destruct (Nat.odd num_bs).
           ++ replace (S (i + (num_bs + 0))) with (i + S num_bs)%nat by lia.
              rewrite Hcopy; [|lia|].
              2:{ apply (f_equal length) in Hrest.
                  rewrite length_drop in Hrest. cbn in Hrest. lia. }
              by replace (num_bs - 1 + 1)%nat with (S num_bs - 1)%nat by lia.
           ++ rewrite !Nat.add_0_r, Hcopy by done. done.
        -- rewrite bool_decide_eq_false_2 by congruence. cbn [andb].
           rewrite !Nat.add_0_r, Hcopy by done. done.
    + destruct (N.eqb_spec c BACKTICK) as [->|Hbt].
      * rewrite run_end_spec by lia.
        set (open_len := run_length BACKTICK (drop i text)).
        assert (1 ≤ open_len)%nat as Hn1.
        { unfold open_len. rewrite Hdrop. cbn. lia. }
        pose proof (run_length_le BACKTICK (drop i text)) as Hle.
        fold open_len in Hle.
        replace (i + open_len - i)%nat with open_len by lia.
        rewrite closer_loop_spec by lia.
        rewrite <-drop_drop.
        destruct (find_closer open_len 0 (drop open_len (drop i text)))
          as [k|] eqn:Hk; cbn [fmap option_fmap option_map].
        -- pose proof (find_closer_bound _ _ _ _ Hk) as Hkb.
           rewrite !length_drop in Hkb. rewrite length_drop in Hle.
           replace (i + open_len + k - i)%nat with (open_len + k)%nat by lia.
           replace (blank_range (p ++ drop i text) i)
             with (blank_range (p ++ drop i text) (length p)) by (by rewrite Hp).
           rewrite blank_range_spec by (rewrite length_drop; lia).
           rewrite app_assoc, drop_drop.
           replace (i + open_len + k)%nat with (i + (open_len + k))%nat by lia.
           rewrite IH.
           ++ rewrite <-app_assoc. f_equal.
              replace (open_len + k)%nat with (S (open_len + k - 1)) at 1 by lia.
              cbn [replicate app]. f_equal.
              rewrite mask_from_blank.
              ** f_equal. rewrite drop_drop.
                 apply (f_equal (λ k, mask_from 0 false (drop k text))). lia.
              ** rewrite length_drop. lia.
           ++ rewrite length_app, length_replicate. lia.
           ++ lia.
           ++ lia.
        -- rewrite Hcopy by done. by rewrite (mask_from_copy (open_len - 1)).
      * replace (mask_loop fuel text (p ++ drop i text) (S i))
          with (mask_loop fuel text (p ++ drop i text) (i + 1))
          by (f_equal; lia).
        rewrite Hcopy; [|lia|].
        2:{ rewrite Hdrop. cbn. lia. }
        cbn [Nat.sub take drop app]. by rewrite drop_0.
Qed.

(** The loop of [_mask_inline_code_spans] and the recursion on the rest of
    the text give the same mask. *)
Lemma mask_inline_code_spans_structural text :
  _mask_inline_code_spans text = mask_from 0 false text.
Proof.
  unfold _mask_inline_code_spans.
  pose proof (mask_loop_spec (length text) text [] 0%nat) as H.
  rewrite drop_0 in H. apply H; cbn; lia.
Qed.

Lemma mask_from_pointwise s k b :
  Forall2 (λ a m, m = a ∨ m = SPACE) s (mask_from k b s).
Proof.
  revert k b. induction s as [|c s IH]; intros k b; [constructor|].
  cbn [mask_from]. destruct k as [|k].
  - destruct (c =? BACKSLASH); [by constructor; [left|]|].
    destruct (c =? BACKTICK); [|by constructor; [left|]].
    destruct (find_closer _ _ _); by constructor; [(left + right)|].
  - constructor; [|done]. destruct b; [by right|by left].
Qed.

(** A text without backticks is its own mask. *)
Lemma mask_from_no_backtick s k : BACKTICK ∉ s → mask_from k false s = s.
Proof.
  revert k. induction s as [|c s IH]; intros k Hs; [done|].
  apply not_elem_of_cons in Hs as [Hc Hs].
  cbn [mask_from]. destruct k as [|k]; [|by rewrite IH].
  destruct (c =? BACKSLASH); [by rewrite IH|].
  destruct (N.eqb_spec c BACKTICK); [done|by rewrite IH].
Qed.

(** A pattern without blanks that does not occur in a text does not occur
    in a text that differs from it by blanks only. *)
Lemma startswith_pointwise p s m :
  SPACE ∉ p → Forall2 (λ a m, m = a ∨ m = SPACE) s m →
  startswith p m = true → startswith p s = true.
Proof.
  intros Hp Hsm. revert p Hp.
  induction Hsm as [|a x s m Hax _ IH]; intros [|q p] Hp; try done.
  apply not_elem_of_cons in Hp as [Hq Hp].
  cbn [startswith]. rewrite !andb_true_iff, !N.eqb_eq.
  intros [-> Hrest]. split; [|by apply IH].
  by destruct Hax.
Qed.

Lemma find_sub_None_pointwise p s m :
  SPACE ∉ p → Forall2 (λ a m, m = a ∨ m = SPACE) s m →
  find_sub p s = None → find_sub p m = None.
Proof.
  intros Hp Hsm. induction Hsm as [|a x s m Hax Hsm IH]; intros Hs.
  - simpl in *. by destruct p.
  - pose proof (find_sub_None_startswith _ _ Hs) as H0.
    cbn [find_sub].
    destruct (startswith p (x :: m)) eqn:E.
    + apply (startswith_pointwise p (a :: s)) in E; [congruence|done|].
      by constructor.
    + by rewrite IH; [|eapply find_sub_None_cons].
Qed.

Lemma mask_find_sub_None p s :
  SPACE ∉ p → find_sub p s = None → find_sub p (_mask_inline_code_spans s) = None.
Proof.
  intros. rewrite mask_inline_code_spans_structural.
  eapply find_sub_None_pointwise; [done|apply mask_from_pointwise|done].
Qed.

(** ** Comment stripping *)

Lemma space_not_in_open : SPACE ∉ COMMENT_OPEN.
Proof. apply (bool_decide_unpack _). by vm_compute. Qed.

Lemma space_not_in_close : SPACE ∉ COMMENT_CLOSE.
Proof. apply (bool_decide_unpack _). by vm_compute. Qed.

Lemma comment_finditer_None pos c s :
  _HTML_COMMENT_BLOCK_RE (c :: s) = None →
  comment_finditer pos 0 (c :: s) = comment_finditer (S pos) 0 s.
Proof. intros H. cbn [comment_finditer]. by rewrite H. Qed.

Lemma comment_finditer_nil pos s :
  (∀ k, _HTML_COMMENT_BLOCK_RE (drop k s) = None) →
  comment_finditer pos 0 s = [].
Proof.
  revert pos. induction s as [|c s IH]; intros pos H; [done|].
  rewrite comment_finditer_None by apply (H 0%nat).
  apply IH. intros k. apply (H (S k)).
Qed.

(** No comment is found in a text without a closer. *)
Lemma comment_block_no_closer s :
  find_sub COMMENT_CLOSE s = None → _HTML_COMMENT_BLOCK_RE s = None.
Proof.
  intros H. unfold _HTML_COMMENT_BLOCK_RE.
  destruct (startswith _ _); [|done].
  by rewrite (find_sub_None_drop _ _ 4 H).
Qed.

(** No comment is found in a text without an opener. *)
Lemma comment_block_no_opener s :
  find_sub COMMENT_OPEN s = None → _HTML_COMMENT_BLOCK_RE s = None.
Proof.
  intros H. unfold _HTML_COMMENT_BLOCK_RE.
  by rewrite (find_sub_None_startswith _ _ H).
Qed.

(** Without an opener in the text, comment stripping changes nothing. *)
Lemma strip_html_comment_blocks_no_opener text :
  find_sub COMMENT_OPEN text = None → strip_html_comment_blocks text = text.
Proof.
  intros H. unfold strip_html_comment_blocks.
  assert (find_sub COMMENT_OPEN (_mask_inline_code_spans text) = None) as Hm.
  { by apply mask_find_sub_None; [apply space_not_in_open|]. }
  rewrite comment_finditer_nil.
  - cbn [comment_parts concat]. rewrite drop_0, app_nil_r. by rewrite Hm.
  - intros k. by apply comment_block_no_opener, find_sub_None_drop.
Qed.

Lemma comment_block_at_opener s :
  _HTML_COMMENT_BLOCK_RE (COMMENT_OPEN ++ s) =
  (λ j, 4 + j + 3)%nat <$> find_sub COMMENT_CLOSE s.
Proof. unfold _HTML_COMMENT_BLOCK_RE. by rewrite startswith_app. Qed.

(** ** What removing lines cannot create *)

Lemma terminated_last l : terminated l → ∃ l' c, l = l' ++ [c] ∧ is_linebreak c = true.
Proof.
  induction 1 as [c Hc| |c l Hc Hl (l' & c' & -> & Hc')].
  - by exists [], c.
  - by exists [CR], LF.
  - by exists (c :: l'), c'.
Qed.

(** A pattern without line boundaries that occurs in what is left of the
    lines of a text occurs in the text. *)
Lemma occurs_sublist_lines p ks ls :
  Forall (λ c, is_linebreak c = false) p →
  ks `sublist_of` ls → lines_ok ls →
  occurs p (concat ks) → occurs p (concat ls).
Proof.
  intros Hp Hsub. induction Hsub as [|x ks ls Hsub IH|x ks ls Hsub IH]; intros Hok.
  - done.
  - cbn [concat]. inversion Hok as [|? ? ?|? ? Hx Hls]; subst.
    + by apply sublist_nil_r in Hsub as ->.
    + destruct (terminated_last x Hx) as (x' & c & -> & Hc).
      intros [?|?]%occurs_app_boundary.
      * by apply occurs_app_l.
      * by apply occurs_app_r, IH.
      * intros Hin. rewrite Forall_forall in Hp. specialize (Hp c Hin). congruence.
  - cbn [concat]. intros H. apply occurs_app_r, IH; [|done].
    by eapply lines_ok_tail.
Qed.

Lemma fence_loop_sublist st lines : fence_loop st lines `sublist_of` lines.
Proof.
  revert st. induction lines as [|l ls IH]; intros st; [constructor|].
  cbn [fence_loop]. unfold fence_step.
  destruct (in_fence st); cbn [negb].
  - destruct (_FENCE_CLOSE_RE l) as [[c n]|]; [destruct (_ && _)|];
      cbn [app]; by apply sublist_cons.
  - destruct (_FENCE_OPEN_RE l) as [[c n]|]; cbn [app];
      [by apply sublist_cons|by apply sublist_skip].
Qed.

(** The lines of a text that begins with characters that are no line
    boundaries. *)
Lemma splitlines_keepends_prefix p x :
  p ≠ [] → Forall (λ c, is_linebreak c = false) p →
  splitlines_keepends (p ++ x) =
    match splitlines_keepends x with
    | [] => [p]
    | l :: ls => (p ++ l) :: ls
    end.
Proof.
  intros Hne Hp. induction Hp as [|c p Hc Hp IH]; [done|].
  cbn [app]. rewrite splitlines_keepends_cons_char by done.
  destruct p as [|c' p].
  - cbn [app]. by destruct (splitlines_keepends x).
  - rewrite IH by done. by destruct (splitlines_keepends x).
Qed.

(** Stripping the lines of code from a text whose first line begins with
    an escaped backtick and a comment opener keeps that beginning and adds
    no comment closer. *)
Lemma strip_lines_escaped_opener (keep : list pystr → list pystr) x :
  (∀ ls, keep ls `sublist_of` ls) →
  (∀ l ls, keep (([BACKSLASH; BACKTICK] ++ COMMENT_OPEN ++ l) :: ls)
           = ([BACKSLASH; BACKTICK] ++ COMMENT_OPEN ++ l) :: keep ls) →
  ¬ occurs COMMENT_CLOSE x →
  ∃ x', concat (keep (splitlines_keepends ([BACKSLASH; BACKTICK] ++ COMMENT_OPEN ++ x)))
        = [BACKSLASH; BACKTICK] ++ COMMENT_OPEN ++ x' ∧
        ¬ occurs COMMENT_CLOSE x'.
Proof.
  intros Hsub Hfirst Hx.
  change ([BACKSLASH; BACKTICK] ++ COMMENT_OPEN ++ x)
    with (([BACKSLASH; BACKTICK] ++ COMMENT_OPEN) ++ x).
  rewrite splitlines_keepends_prefix; [|done|by repeat constructor].
  pose proof (concat_splitlines_keepends x) as Hcat.
  pose proof (splitlines_keepends_ok x) as Hok.
  destruct (splitlines_keepends x) as [|l ls].
  - exists []. split; [|by rewrite <-Hcat in Hx].
    pose proof (Hfirst [] []) as H. rewrite app_nil_r in H.
    rewrite H. cbn [concat].
    pose proof (Hsub []) as ->%sublist_nil_r. by rewrite !app_nil_r.
  - exists (concat (l :: keep ls)). split.
    + rewrite <-app_assoc. rewrite Hfirst. cbn [concat]. by rewrite <-!app_assoc.
    + intros Hocc. apply Hx. rewrite <-Hcat.
      apply (occurs_sublist_lines _ (l :: keep ls)); [by repeat constructor| |done..].
      by apply sublist_skip.
Qed.

Lemma mask_escaped_opener x :
  _mask_inline_code_spans ([BACKSLASH; BACKTICK] ++ COMMENT_OPEN ++ x) =
  [BACKSLASH; BACKTICK] ++ COMMENT_OPEN ++ _mask_inline_code_spans x.
Proof. by rewrite !mask_inline_code_spans_structural. Qed.

Lemma strip_html_comment_blocks_escaped_opener x :
  find_sub COMMENT_CLOSE x = None →
  strip_html_comment_blocks ([BACKSLASH; BACKTICK] ++ COMMENT_OPEN ++ x) =
  [BACKSLASH; BACKTICK].
Proof.
  intros HX.
  pose proof (mask_find_sub_None _ _ space_not_in_close HX) as HM.
  pose proof (mask_escaped_opener x) as Hmask.
  set (M := _mask_inline_code_spans x) in *.
  assert (comment_finditer 0 0 ([BACKSLASH; BACKTICK] ++ COMMENT_OPEN ++ M) = [])
    as Hiter.
  { cbn [app]. do 2 rewrite comment_finditer_None by reflexivity.
    change (COMMENT_OPEN ++ M) with (60 :: 33 :: 45 :: 45 :: M).
    rewrite comment_finditer_None
      by (etrans; [apply (comment_block_at_opener M)|by rewrite HM]).
    do 3 rewrite comment_finditer_None by reflexivity.
    apply comment_finditer_nil. intros k.
    by apply comment_block_no_closer, find_sub_None_drop. }
  unfold strip_html_comment_blocks. rewrite Hmask, Hiter.
  cbn [comment_parts concat]. rewrite drop_0, app_nil_r, Hmask.
  reflexivity.
Qed.

Lemma sanitize_status_text_escaped_opener x :
  find_sub COMMENT_CLOSE x = None →
  sanitize_status_text ([BACKSLASH; BACKTICK] ++ COMMENT_OPEN ++ x) =
  [BACKSLASH; BACKTICK].
Proof.
  intros Hx%find_sub_None_occurs. unfold sanitize_status_text.
  destruct (strip_lines_escaped_opener (fence_loop no_fence) x)
    as (x1 & Hfenced & Hx1); [apply fence_loop_sublist|done|done|].
  destruct (strip_lines_escaped_opener
              (filter (λ line, _INDENTED_CODE_RE line = false)) x1)
    as (x2 & Hindented & Hx2); [apply sublist_filter|done|done|].
  unfold strip_fenced_code_blocks. rewrite Hfenced.
  unfold strip_indented_code_blocks. rewrite Hindented.
  by apply strip_html_comment_blocks_escaped_opener, find_sub_None_occurs.
Qed.

(** C3. For a text that consists of a backslash-escaped backtick, the
    comment opener and any content [X] without a closer, inline-code
    masking does not take the escaped backtick for a span delimiter, so the
    opener is not masked, and comment stripping removes everything from the
    opener to the end of the text: what is left, of comment stripping and
    of the whole pipeline, is the escaped backtick, and [X] is gone. *)
Theorem escaped_backtick_comment_opener (X : pystr) :
  find_sub COMMENT_CLOSE X = None →
  let text := [BACKSLASH; BACKTICK] ++ COMMENT_OPEN ++ X in
  _mask_inline_code_spans text =
    [BACKSLASH; BACKTICK] ++ COMMENT_OPEN ++ _mask_inline_code_spans X ∧
  strip_html_comment_blocks text = [BACKSLASH; BACKTICK] ∧
  sanitize_status_text text = [BACKSLASH; BACKTICK].
Proof.
  intros HX text. split_and!.
  - apply mask_escaped_opener.
  - by apply strip_html_comment_blocks_escaped_opener.
  - by apply sanitize_status_text_escaped_opener.
Qed.

Lemma escaped_backtick_comment_opener_witness :
  strip_html_comment_blocks (py "\`<!-- X `->` Y") = py "\`" ∧
  sanitize_status_text (unlines ["\`<!-- X"; "    Y"; "```"; "Z"]) = py "\`".
Proof.
  split.
  - apply (escaped_backtick_comment_opener (py " X `->` Y")). reflexivity.
  - apply (escaped_backtick_comment_opener
             ((py " X" ++ [LF]) ++ unlines ["    Y"; "```"; "Z"])).
    reflexivity.
Defined.

(** The two texts of the tests of the escaped backtick and of the code
    span that holds a backslash: the status line after the opener goes. *)
Example test_escaped_backtick_comment :
  strip_html_comment_blocks
    (unlines ["Here is an escaped backtick \`<!-- and another \`"; "";
              "- ステータス: Approved"])
  = py "Here is an escaped backtick \`".
Proof. reflexivity. Qed.

Example test_code_span_backslash_before_comment :
  strip_html_comment_blocks (unlines ["`\`<!--`"; ""; "- ステータス: Approved"])
  = py "`\`".
Proof. reflexivity. Qed.

(** ** The full pipeline on plain text *)

Lemma skip_blanks_suffix n s c : c ∈ skip_blanks n s → c ∈ s.
Proof.
  revert n. induction s as [|a s IH]; intros [|n]; simpl; try done.
  destruct (is_blank a); [|done]. intros ?%IH. by right.
Qed.

(** The fence character of an opening line is a backtick or a tilde, and
    it is a character of the line. *)
Lemma fence_open_char line c n :
  _FENCE_OPEN_RE line = Some (c, n) → (c = BACKTICK ∨ c = TILDE) ∧ c ∈ line.
Proof.
  unfold _FENCE_OPEN_RE, fence_seq. intros H.
  destruct (skip_blanks 3 line) as [|a s] eqn:E; [done|].
  destruct ((a =? BACKTICK) || (a =? TILDE)) eqn:Ha; [|done].
  destruct (3 <=? _)%nat; [|done]. injection H as <- _.
  split.
  - apply orb_true_iff in Ha as [?%N.eqb_eq|?%N.eqb_eq]; [by left|by right].
  - apply (skip_blanks_suffix 3). rewrite E. by left.
Qed.

Lemma strip_indented_code_blocks_plain text :
  Forall (λ line, _INDENTED_CODE_RE line = false) (splitlines_keepends text) →
  strip_indented_code_blocks text = text.
Proof.
  intros H. unfold strip_indented_code_blocks.
  rewrite <-(concat_splitlines_keepends text) at 2. f_equal.
  induction H as [|l ls Hl _ IH]; [done|].
  by rewrite filter_cons_True, IH.
Qed.

(** C4, as the code has it. For every input text that contains no backtick
    and no comment opener, and in which no line is indented code (a tab or
    four spaces at its start) and no line opens a fence (which, without
    backticks, is a run of three tildes after at most three blanks), the
    full pipeline returns the text unchanged. *)
Theorem sanitize_status_text_plain (text : pystr) :
  BACKTICK ∉ text →
  find_sub COMMENT_OPEN text = None →
  Forall (λ line, _INDENTED_CODE_RE line = false) (splitlines_keepends text) →
  Forall (λ line, opens_tilde_fence line = false) (splitlines_keepends text) →
  sanitize_status_text text = text.
Proof.
  intros Htick Hopen Hind Hfence. unfold sanitize_status_text.
  rewrite strip_fenced_opener_free.
  - rewrite strip_indented_code_blocks_plain by done.
    by apply strip_html_comment_blocks_no_opener.
  - unfold opener_free. apply Forall_forall. intros line Hline.
    rewrite Forall_forall in Hfence. specialize (Hfence line Hline).
    unfold opens_tilde_fence in Hfence.
    destruct (_FENCE_OPEN_RE line) as [[c n]|] eqn:E; [|done].
    apply fence_open_char in E as [[-> | ->] Hc]; [|done].
    exfalso. apply Htick.
    rewrite <-(concat_splitlines_keepends text).
    apply list_elem_of_In, in_concat. exists line.
    by rewrite <-!list_elem_of_In.
Qed.

Lemma sanitize_status_text_plain_witness :
  sanitize_status_text (unlines ["# Title"; ""; "- a: b"; "   ~~ c"]) =
  unlines ["# Title"; ""; "- a: b"; "   ~~ c"].
Proof.
  apply sanitize_status_text_plain.
  - apply (bool_decide_unpack _). by vm_compute.
  - reflexivity.
  - repeat constructor.
  - repeat constructor.
Defined.

(** The claim C4 as stated fails: an indented line has no backtick and no
    comment opener, and the pipeline removes it. *)
Lemma sanitize_status_text_plain_counterexample :
  (BACKTICK ∉ py "    x") ∧
  find_sub COMMENT_OPEN (py "    x") = None ∧
  sanitize_status_text (py "    x") = [] ∧
  sanitize_status_text (py "    x") ≠ py "    x".
Proof.
  split_and!; [|reflexivity|reflexivity|by vm_compute].
  apply (bool_decide_unpack _). by vm_compute.
Qed.

(** So does a tilde fence: it has no backtick and no comment opener, no
    line of it is indented, and the pipeline removes it with its body. *)
Example test_tilde_fence_removed :
  (BACKTICK ∉ unlines ["~~~"; "x"; "~~~"; "y"]) ∧
  find_sub COMMENT_OPEN (unlines ["~~~"; "x"; "~~~"; "y"]) = None ∧
  Forall (λ line, _INDENTED_CODE_RE line = false)
         (splitlines_keepends (unlines ["~~~"; "x"; "~~~"; "y"])) ∧
  sanitize_status_text (unlines ["~~~"; "x"; "~~~"; "y"]) = unlines ["y"].
Proof.
  split_and!; [|reflexivity|repeat constructor|reflexivity].
  apply (bool_decide_unpack _). by vm_compute.
Qed.

(** ** Fence stripping is idempotent *)

(** C5. For every input text, [strip_fenced_code_blocks] is idempotent:
    applying it twice yields the same result as applying it once. *)
Theorem strip_fenced_code_blocks_idempotent (text : pystr) :
  strip_fenced_code_blocks (strip_fenced_code_blocks text) =
  strip_fenced_code_blocks text.
Proof.
  apply strip_fenced_opener_free. unfold strip_fenced_code_blocks.
  apply opener_free_concat.
  - apply fence_loop_lines_ok, splitlines_keepends_ok.
  - apply fence_loop_kept.
Qed.

(** ** Fence run-length matching *)

Lemma fence_step_closes c len line :
  fence_step (FenceState true [c] len) line =
  (if closes c len line then no_fence else FenceState true [c] len, []).
Proof.
  unfold fence_step, closes. cbn [in_fence fence_char fence_len negb].
  destruct (_FENCE_CLOSE_RE line) as [[c' n]|]; [|done].
  cbn [str_eqb]. rewrite andb_true_r. by destruct (_ && _).
Qed.

(** Inside a fence, lines that do not close it are dropped and leave the
    loop variables as they are. *)
Lemma fence_loop_inside c len body :
  Forall (λ l, closes c len l = false) body →
  fence_loop (FenceState true [c] len) body = [] ∧
  fence_state_after (FenceState true [c] len) body = FenceState true [c] len.
Proof.
  induction 1 as [|l body Hl _ [IH1 IH2]]; [done|].
  cbn [fence_loop fence_state_after].
  by rewrite fence_step_closes, Hl.
Qed.

Lemma fence_step_opening line c n :
  _FENCE_OPEN_RE line = Some (c, n) →
  fence_step no_fence line = (FenceState true [c] n, []).
Proof. intros E. unfold fence_step. cbn [in_fence no_fence negb]. by rewrite E. Qed.

(** C6. In a text in which a fence is opened by a line of 4 backticks, a
    subsequent line of exactly 3 backticks does not close the fence; the
    fence closes only at a line whose fence run uses the same character and
    has length at least 4, and all lines from the opener up to and
    including that closer (or to the end of the text if there is no closer)
    are removed by [strip_fenced_code_blocks]. *)
Theorem fence_length_matching
    (text : pystr) (pre rest : list pystr) (opener : pystr) :
  splitlines_keepends text = pre ++ opener :: rest →
  in_fence (fence_state_after no_fence pre) = false →
  _FENCE_OPEN_RE opener = Some (BACKTICK, 4%nat) →
  (∀ line, fence_seq (skip_blanks 3 line) = Some (BACKTICK, 3%nat) →
           closes BACKTICK 4 line = false) ∧
  (∀ body, Forall (λ l, closes BACKTICK 4 l = false) body →
           in_fence (fence_state_after no_fence (pre ++ opener :: body)) = true) ∧
  (∀ body closer,
     Forall (λ l, closes BACKTICK 4 l = false) body → closes BACKTICK 4 closer = true →
     in_fence (fence_state_after no_fence (pre ++ opener :: body ++ [closer]))
       = false) ∧
  (∀ body closer post,
     rest = body ++ closer :: post →
     Forall (λ l, closes BACKTICK 4 l = false) body → closes BACKTICK 4 closer = true →
     strip_fenced_code_blocks text =
       concat (fence_loop no_fence pre) ++ concat (fence_loop no_fence post)) ∧
  (Forall (λ l, closes BACKTICK 4 l = false) rest →
   strip_fenced_code_blocks text = concat (fence_loop no_fence pre)).
Proof.
  intros Hlines Hpre Hopen.
  assert (fence_state_after no_fence pre = no_fence) as Hst.
  { by apply (fence_state_after_inv no_fence pre). }
  pose proof (fence_step_opening _ _ _ Hopen) as Hstep.
  split_and!.
  - intros line Hseq. unfold closes, _FENCE_CLOSE_RE.
    rewrite Hseq. by destruct (at_end _).
  - intros body Hbody.
    rewrite fence_state_after_app, Hst. cbn [fence_state_after].
    rewrite Hstep. cbn [fst].
    by rewrite (proj2 (fence_loop_inside _ _ _ Hbody)).
  - intros body closer Hbody Hcloser.
    rewrite fence_state_after_app, Hst. cbn [fence_state_after].
    rewrite Hstep. cbn [fst].
    rewrite fence_state_after_app, (proj2 (fence_loop_inside _ _ _ Hbody)).
    cbn [fence_state_after]. by rewrite fence_step_closes, Hcloser.
  - intros body closer post -> Hbody Hcloser.
    unfold strip_fenced_code_blocks. rewrite Hlines.
    rewrite fence_loop_app, Hst. cbn [fence_loop].
    rewrite Hstep. cbn [app].
    rewrite fence_loop_app.
    destruct (fence_loop_inside _ _ _ Hbody) as [-> ->].
    cbn [fence_loop app]. rewrite fence_step_closes, Hcloser.
    cbn [app]. by rewrite concat_app.
  - intros Hrest.
    unfold strip_fenced_code_blocks. rewrite Hlines.
    rewrite fence_loop_app, Hst. cbn [fence_loop].
    rewrite Hstep. cbn [app].
    rewrite (proj1 (fence_loop_inside _ _ _ Hrest)).
    by rewrite app_nil_r.
Qed.

Lemma fence_length_matching_witness :
  strip_fenced_code_blocks
    (unlines ["a"; "````"; "b"; "```"; "c"; "`````"; "d"])
  = unlines ["a"; "d"].
Proof.
  destruct (fence_length_matching
              (unlines ["a"; "````"; "b"; "```"; "c"; "`````"; "d"])
              [unlines ["a"]] (map (λ l, unlines [l]) ["b"; "```"; "c"; "`````"; "d"])
              (unlines ["````"]) eq_refl eq_refl eq_refl)
    as (_ & _ & _ & H & _).
  rewrite (H (map (λ l, unlines [l]) ["b"; "```"; "c"]) (unlines ["`````"])
             [unlines ["d"]] eq_refl).
  - reflexivity.
  - repeat constructor.
  - reflexivity.
Defined.

End MdSanitizeFacts.



(** * Facts about [lint-sot.py] *)
Module LintSotFacts.
Import PyFacts.

(** ** The status format *)

(** C1. For every document path under [docs/prd/] or [docs/epics/] whose
    basename is not [_template.md], and every raw text: if the status-line
    pattern matches the text after fenced-code stripping followed by
    HTML-comment stripping, but does not match the fully sanitized text,
    then [lint_status_format] returns exactly one finding, about the
    misplaced indentation; in every other case it returns no finding. *)
Theorem lint_status_format_spec (rel_path text : pystr) :
  startswith DOCS_PRD rel_path = true ∨ startswith DOCS_EPICS rel_path = true →
  basename rel_path ≠ TEMPLATE_MD →
  let partial := strip_html_comment_blocks (strip_fenced_code_blocks text) in
  let full := sanitize_status_text text in
  (_STATUS_ANY_RE partial = true ∧ _STATUS_ANY_RE full = false →
   lint_status_format rel_path text =
     [{| path := rel_path; message := STATUS_INDENTED_MESSAGE |}]) ∧
  (¬ (_STATUS_ANY_RE partial = true ∧ _STATUS_ANY_RE full = false) →
   lint_status_format rel_path text = []).
Proof.
  intros Hdir Hbase partial full. unfold lint_status_format.
  assert (startswith DOCS_PRD rel_path || startswith DOCS_EPICS rel_path = true)
    as -> by (by apply orb_true_iff).
  destruct (str_eqb (basename rel_path) TEMPLATE_MD) eqn:E.
  { by apply str_eqb_eq in E. }
  cbn [negb]. fold partial full.
  destruct (_STATUS_ANY_RE partial), (_STATUS_ANY_RE full); cbn [andb negb];
    split; try done; intros []; by try split.
Qed.

Lemma lint_status_format_spec_witness :
  lint_status_format (py "docs/epics/test.md")
    (unlines [""; "# Epic: Test"; ""; "## メタ情報"; ""; "- メタ:";
              "    - ステータス: Approved"; "    - 参照PRD: docs/prd/test.md"])
  = [{| path := py "docs/epics/test.md"; message := STATUS_INDENTED_MESSAGE |}]
  ∧
  lint_status_format (py "docs/prd/test.md")
    (unlines [""; "# PRD: Test"; ""; "- ステータス: Approved"])
  = [].
Proof.
  split.
  - apply lint_status_format_spec; [by right|by vm_compute|by split].
  - apply lint_status_format_spec; [by left|by vm_compute|].
    vm_compute. by intros [_ ?].
Defined.

(** ** The block numbers *)

Lemma unique_ints_loop_spec ms seen out :
  (∀ v, v ∈ seen ↔ v ∈ out) → NoDup out →
  NoDup (unique_ints_loop ms seen out) ∧
  ∀ v, v ∈ unique_ints_loop ms seen out ↔
       v ∈ out ∨ ∃ m, m ∈ ms ∧ match_int m = Some v.
Proof.
  revert seen out. induction ms as [|m ms IH]; intros seen out Hseen Hout.
  - split; [done|]. intros v. split; [by left|].
    intros [?|(m & Hm & _)]; [done|]. by apply elem_of_nil in Hm.
  - cbn [unique_ints_loop].
    assert (∀ v, (v ∈ out ∨ ∃ m', m' ∈ ms ∧ match_int m' = Some v) →
                 v ∈ out ∨ ∃ m', m' ∈ m :: ms ∧ match_int m' = Some v) as Hweak.
    { intros v [?|(m' & ? & ?)]; [by left|]. right. exists m'. split; [by right|done]. }
    destruct (match_int m) as [v0|] eqn:Em.
    + destruct (decide (v0 ∈ seen)) as [Hin|Hnin].
      * destruct (IH seen out Hseen Hout) as [Hnd Hmem]. split; [done|].
        intros v. rewrite Hmem. split; [apply Hweak|].
        intros [?|(m' & [->|?]%elem_of_cons & Hv)]; [by left| |by right; exists m'].
        left. apply Hseen. congruence.
      * destruct (IH ({[v0]} ∪ seen) (out ++ [v0])) as [Hnd Hmem].
        { intros v. rewrite elem_of_union, elem_of_singleton, elem_of_app,
            list_elem_of_singleton, Hseen. tauto. }
        { apply NoDup_app. split_and!; [done| |apply NoDup_singleton].
          intros v Hv ->%list_elem_of_singleton. by apply Hnin, Hseen. }
        split; [done|]. intros v. rewrite Hmem, elem_of_app, list_elem_of_singleton.
        split.
        -- intros [[?| ->]|(m' & ? & ?)]; [by left| |by right; exists m'; split; [right|]].
           right. exists m. split; [by left|done].
        -- intros [?|(m' & [->|?]%elem_of_cons & Hv)];
             [by left; left| |by right; exists m'].
           left. right. congruence.
    + destruct (IH seen out Hseen Hout) as [Hnd Hmem]. split; [done|].
      intros v. rewrite Hmem. split; [apply Hweak|].
      intros [?|(m' & [->|?]%elem_of_cons & Hv)]; [by left|congruence|by right; exists m'].
Qed.

Lemma StronglySorted_le_NoDup_lt (l : list Z) :
  StronglySorted Z.le l → NoDup l → StronglySorted Z.lt l.
Proof.
  induction 1 as [|x l Hl IH Hx]; intros Hnd; [constructor|].
  apply NoDup_cons in Hnd as [Hxl Hnd].
  constructor; [by apply IH|].
  rewrite Forall_forall in Hx |- *. intros y Hy.
  pose proof (Hx y Hy). assert (x ≠ y) by (by intros ->). lia.
Qed.

Lemma unique_ints_NoDup ms : NoDup (_unique_ints ms).
Proof.
  unfold _unique_ints. rewrite merge_sort_Permutation.
  apply unique_ints_loop_spec; [set_solver|constructor].
Qed.

Lemma unique_ints_elem_of ms v :
  v ∈ _unique_ints ms ↔ ∃ m, m ∈ ms ∧ match_int m = Some v.
Proof.
  unfold _unique_ints. rewrite merge_sort_Permutation.
  rewrite (proj2 (unique_ints_loop_spec ms ∅ [] ltac:(set_solver) ltac:(constructor))).
  split; [|by right]. by intros [?%elem_of_nil|?].
Qed.

Lemma unique_ints_sorted ms : StronglySorted Z.lt (_unique_ints ms).
Proof.
  apply StronglySorted_le_NoDup_lt; [|apply unique_ints_NoDup].
  apply (StronglySorted_merge_sort _).
Qed.

(** C7, as the code has it. For every sequence of marker matches,
    [_unique_ints] returns each block number once (the first occurrence is
    taken, later ones are skipped), in ascending numeric order, whatever
    the order of the markers in the document; this is how the numbers of
    the families 隣接領域-N and 抽象化-N are extracted. The count of
    candidate blocks (候補-N) that the minimum-of-5 rule uses is the number
    of blocks that the candidate pattern matches: the rule reports nothing
    from five matched blocks on, and below five it reports their number. *)
Theorem unique_ints_spec (ms : list re_match) :
  NoDup (_unique_ints ms) ∧
  StronglySorted Z.lt (_unique_ints ms) ∧
  (∀ v, v ∈ _unique_ints ms ↔ ∃ m, m ∈ ms ∧ match_int m = Some v) ∧
  (∀ ms', ms' ≡ₚ ms → _unique_ints ms' = _unique_ints ms) ∧
  (∀ rel_path contract_text,
     let count := length (_RESEARCH_CANDIDATE_BLOCK_RE contract_text) in
     (5 ≤ count → lint_candidate_count rel_path contract_text = []) ∧
     (count < 5 →
      lint_candidate_count rel_path contract_text =
        [{| path := rel_path;
            message := CANDIDATE_COUNT_MESSAGE ++ str_of_nat count |}]))%nat.
Proof.
  split_and!.
  - apply unique_ints_NoDup.
  - apply unique_ints_sorted.
  - apply unique_ints_elem_of.
  - intros ms' Hperm.
    apply (StronglySorted_unique Z.le).
    + apply (StronglySorted_merge_sort _).
    + apply (StronglySorted_merge_sort _).
    + apply NoDup_Permutation; [apply unique_ints_NoDup..|].
      intros v. rewrite !unique_ints_elem_of.
      by setoid_rewrite Hperm.
  - intros rel_path contract_text count. unfold lint_candidate_count.
    fold count. destruct (Nat.ltb_spec count 5); split; (done || lia).
Qed.

Lemma unique_ints_spec_witness :
  let ms := _RESEARCH_ADJACENT_RE
              (unlines ["隣接領域-3"; "x"; "隣接領域-1"; "隣接領域-3"; "隣接領域-2"]) in
  _unique_ints (reverse ms) = _unique_ints ms
  ∧ lint_candidate_count (py "docs/research/prd/2026-01-01.md")
      (unlines ["候補-1"; "候補-2"; "候補-3"; "候補-4"])
    = [{| path := py "docs/research/prd/2026-01-01.md";
          message := CANDIDATE_COUNT_MESSAGE ++ py "4" |}].
Proof.
  split.
  - apply unique_ints_spec, reverse_Permutation.
  - destruct (unique_ints_spec []) as (_ & _ & _ & _ & H).
    apply H. vm_compute. lia.
Defined.

(** The claim C7 as stated fails for the candidate blocks: a document with
    the marker 候補-1 five times has one block number, and the rule counts
    five blocks and reports nothing. *)
Lemma candidate_count_duplicates_counterexample :
  let doc := unlines ["候補-1"; "候補-1"; "候補-1"; "候補-1"; "候補-1"] in
  contract_text_of doc = doc ∧
  length (_RESEARCH_CANDIDATE_BLOCK_RE doc) = 5%nat ∧
  _unique_ints (_RESEARCH_CANDIDATE_BLOCK_RE doc) = [1%Z] ∧
  lint_candidate_count (py "docs/research/prd/2026-01-01.md") doc = [].
Proof. by vm_compute. Qed.

(** ** The comparison table *)

Lemma count_table_rows_header req pre header rest :
  Forall (λ l, is_table_header req l = false) pre →
  is_table_header req header = true →
  count_table_rows req (pre ++ header :: rest) =
  count_data_rows (length (parse_table_cells (strip header))) 0 rest.
Proof.
  intros Hpre Hh. induction Hpre as [|l pre Hl _ IH]; cbn [app count_table_rows].
  - by rewrite Hh.
  - by rewrite Hl.
Qed.

Lemma count_data_rows_align cols count line rest :
  is_alignment_row (strip line) = true →
  count_data_rows cols count (line :: rest) = count_data_rows cols count rest.
Proof.
  intros H. cbn [count_data_rows]. rewrite H.
  unfold is_alignment_row in H. apply andb_true_iff in H as [-> _]. done.
Qed.

Lemma count_data_rows_data cols count line rest :
  is_data_row cols line = true →
  count_data_rows cols count (line :: rest) =
  count_data_rows cols (count + 1)%Z rest.
Proof.
  unfold is_data_row. rewrite !andb_true_iff, negb_true_iff.
  intros [[H1 H2] H3]. cbn [count_data_rows]. by rewrite H1, H2, H3.
Qed.

Lemma count_data_rows_end cols count lines :
  table_ends lines = true → count_data_rows cols count lines = count.
Proof. destruct lines as [|l ls]; [done|]. cbn. by intros ->. Qed.

(** C8, as the code has it. For a section whose block under '定量比較表:'
    has a table with a header row that includes every required column,
    followed by one alignment row and exactly 2 data rows whose cell count
    is that of the header, 2 data rows are counted and the table check
    emits exactly one finding, which says that 3 or more data rows are
    needed; its message is a fixed text. *)
Theorem comparison_table_two_rows
    (rel_path section : pystr) (pre post : list pystr)
    (header align row1 row2 : pystr) :
  let table_block := extract_labeled_block section TABLE_LABEL [REASON_LABEL] in
  let cols := length (parse_table_cells (strip header)) in
  splitlines table_block = pre ++ header :: align :: row1 :: row2 :: post →
  Forall (λ l, is_table_header _RESEARCH_EPIC_REQUIRED_TABLE_COLUMNS l = false) pre →
  is_table_header _RESEARCH_EPIC_REQUIRED_TABLE_COLUMNS header = true →
  is_alignment_row (strip align) = true →
  is_data_row cols row1 = true →
  is_data_row cols row2 = true →
  table_ends post = true →
  count_markdown_table_rows_with_headers
    table_block _RESEARCH_EPIC_REQUIRED_TABLE_COLUMNS = 2%Z ∧
  lint_comparison_table rel_path section =
    [{| path := rel_path; message := TABLE_ROWS_MESSAGE |}].
Proof.
  intros table_block cols Hlines Hpre Hheader Halign Hrow1 Hrow2 Hpost.
  assert (count_markdown_table_rows_with_headers
            table_block _RESEARCH_EPIC_REQUIRED_TABLE_COLUMNS = 2%Z) as Hcount.
  { unfold count_markdown_table_rows_with_headers. rewrite Hlines.
    rewrite count_table_rows_header by done. fold cols.
    rewrite count_data_rows_align by done.
    rewrite !count_data_rows_data by done.
    by rewrite count_data_rows_end. }
  split; [done|].
  unfold lint_comparison_table. fold table_block. by rewrite Hcount.
Qed.

Lemma comparison_table_two_rows_witness :
  lint_comparison_table (py "docs/research/epic/2026-02-20.md") two_row_section
  = [{| path := py "docs/research/epic/2026-02-20.md";
        message := TABLE_ROWS_MESSAGE |}].
Proof.
  apply (comparison_table_two_rows
           (py "docs/research/epic/2026-02-20.md") two_row_section
           [[]] []
           (py "| サービス名 | ベンダー | 初期費用 | 月額費用 | レイテンシ | 可用性SLO | 運用負荷 | 適用判定 |")
           (py "|---|---|---|---|---|---|---|---|")
           (py "| A | a | 0 | 1 | 2 | 3 | 4 | Yes |")
           (py "| B | b | 0 | 1 | 2 | 3 | 4 | No |")).
  - vm_compute. reflexivity.
  - constructor; [vm_compute; reflexivity|constructor].
  - vm_compute. reflexivity.
  - vm_compute. reflexivity.
  - vm_compute. reflexivity.
  - vm_compute. reflexivity.
  - vm_compute. reflexivity.
Defined.

(** The claim C8 as stated fails in its last part: on a table with two
    data rows the finding is emitted, and its message does not report the
    count 2. *)
Lemma comparison_table_count_counterexample :
  count_markdown_table_rows_with_headers
    (extract_labeled_block two_row_section TABLE_LABEL [REASON_LABEL])
    _RESEARCH_EPIC_REQUIRED_TABLE_COLUMNS = 2%Z ∧
  lint_comparison_table (py "docs/research/epic/2026-02-20.md") two_row_section
  = [{| path := py "docs/research/epic/2026-02-20.md";
        message := TABLE_ROWS_MESSAGE |}] ∧
  contains (py "2") TABLE_ROWS_MESSAGE = false.
Proof. by vm_compute. Qed.

End LintSotFacts.

(** * Facts about [validate-approval.py] *)
Module ValidateApprovalFacts.
Import PyFacts.

Lemma replace_crlf_nil : replace CRLF [LF] [] = [].
Proof. done. Qed.

Lemma replace_crlf_crlf s : replace CRLF [LF] (CR :: LF :: s) = LF :: replace CRLF [LF] s.
Proof. done. Qed.

Lemma replace_crlf_other c s :
  startswith CRLF (c :: s) = false →
  replace CRLF [LF] (c :: s) = c :: replace CRLF [LF] s.
Proof. unfold replace. cbn [replace_from]. by intros ->. Qed.

Lemma replace_cr s :
  replace [CR] [LF] s = map (λ c, if c =? CR then LF else c) s.
Proof.
  unfold replace. induction s as [|c s IH]; [done|].
  cbn [replace_from startswith map length]. rewrite andb_true_r.
  destruct (CR =? c) eqn:E.
  - apply N.eqb_eq in E as <-. cbn. by rewrite IH.
  - rewrite N.eqb_sym, E. by rewrite IH.
Qed.

Lemma startswith_crlf_other c s : c ≠ CR → startswith CRLF (c :: s) = false.
Proof.
  intros Hc. cbn [startswith CRLF].
  replace (CR =? c) with false; [done|]. symmetry. by apply N.eqb_neq.
Qed.

Lemma tokens_other c s :
  c ≠ CR → c ≠ LF → tokens (c :: s) = Char c :: tokens s.
Proof.
  intros Hc Hl. cbn [tokens].
  by rewrite (proj2 (N.eqb_neq c CR) Hc), (proj2 (N.eqb_neq c LF) Hl).
Qed.

Lemma tokens_lf s : tokens (LF :: s) = Eol :: tokens s.
Proof. done. Qed.

Lemma tokens_cr_other c s : c ≠ LF → tokens (CR :: c :: s) = Eol :: tokens (c :: s).
Proof.
  intros Hl. cbn [tokens]. replace (CR =? CR) with true by done.
  by rewrite (proj2 (N.eqb_neq c LF) Hl).
Qed.

(** Both replacements together turn every line ending into a newline. *)
Lemma replace_tokens s :
  replace [CR] [LF] (replace CRLF [LF] s) = map render_token (tokens s).
Proof.
  rewrite replace_cr.
  induction s as [|c|c c' s IH1 IH2] using pystr_ind2; [done| |].
  - destruct (N.eqb_spec c CR) as [->|Hc]; [done|].
    rewrite replace_crlf_other by (by apply startswith_crlf_other).
    cbn [map]. rewrite (proj2 (N.eqb_neq c CR) Hc).
    destruct (N.eqb_spec c LF) as [->|Hl]; [done|].
    by rewrite tokens_other.
  - destruct (N.eqb_spec c CR) as [->|Hc].
    + destruct (N.eqb_spec c' LF) as [->|Hc'].
      * rewrite replace_crlf_crlf. cbn [map]. by rewrite IH1.
      * rewrite replace_crlf_other.
        2:{ cbn [startswith CRLF]. replace (LF =? c') with false; [done|].
            symmetry. apply N.eqb_neq. congruence. }
        rewrite tokens_cr_other by done. cbn [map]. by rewrite IH2.
    + rewrite replace_crlf_other by (by apply startswith_crlf_other).
      cbn [map]. rewrite (proj2 (N.eqb_neq c CR) Hc), IH2.
      destruct (N.eqb_spec c LF) as [->|Hl]; [done|].
      by rewrite (tokens_other c).
Qed.

Lemma tokens_crlf s : tokens (CR :: LF :: s) = Eol :: tokens s.
Proof. done. Qed.

Lemma tokens_chars s :
  Forall (λ t, match t with Char c => c ≠ LF | Eol => True end) (tokens s).
Proof.
  induction s as [|c|c c' s IH1 IH2] using pystr_ind2; [constructor| |].
  - destruct (N.eqb_spec c CR) as [->|Hc]; [by repeat constructor|].
    destruct (N.eqb_spec c LF) as [->|Hl]; [by repeat constructor|].
    rewrite tokens_other by done. by repeat constructor.
  - destruct (N.eqb_spec c CR) as [->|Hc].
    + destruct (N.eqb_spec c' LF) as [->|Hc'].
      * rewrite tokens_crlf. by constructor.
      * rewrite tokens_cr_other by done. by constructor.
    + destruct (N.eqb_spec c LF) as [->|Hl].
      * rewrite tokens_lf. by constructor.
      * rewrite tokens_other by done. by constructor.
Qed.

(** The normalised text is the text of the tokens without a final line
    ending, followed by a newline. *)
Lemma normalize_text_tokens s :
  normalize_text s = map render_token (drop_final_eol (tokens s)) ++ [LF].
Proof.
  unfold normalize_text. rewrite replace_tokens.
  pose proof (tokens_chars s) as Hchars.
  destruct (tokens s) as [|t ts _] using rev_ind; [done|].
  apply Forall_app in Hchars as [_ [Ht _]%Forall_cons].
  unfold drop_final_eol, endswith.
  rewrite map_app, !reverse_app. cbn [map reverse app].
  rewrite !reverse_singleton. cbn [app startswith]. rewrite andb_true_r.
  destruct t as [c|]; cbn [render_token].
  - destruct (N.eqb_spec LF c) as [<-|]; [done|].
    cbn [negb]. by rewrite map_app.
  - cbn [N.eqb negb]. replace (LF =? LF) with true by done.
    cbn [negb]. by rewrite reverse_involutive.
Qed.

(** C10. For every pair of estimate texts that differ only in the
    convention of their line endings (CRLF or a lone CR against LF) or in
    the presence of a final newline, [normalize_text_for_hash] returns
    identical bytes, and so the content hash that the approval gate
    computes and compares is the same for both. *)
Theorem normalize_text_for_hash_line_endings
    (sha256_hexdigest : list byte → pystr) (s t : pystr) :
  same_modulo_line_endings s t →
  normalize_text_for_hash s = normalize_text_for_hash t ∧
  computed_hash sha256_hexdigest s = computed_hash sha256_hexdigest t ∧
  ∀ recorded_hash,
    estimate_drift sha256_hexdigest recorded_hash s =
    estimate_drift sha256_hexdigest recorded_hash t.
Proof.
  intros Hst.
  assert (normalize_text_for_hash s = normalize_text_for_hash t) as Hnorm.
  { unfold normalize_text_for_hash. rewrite !normalize_text_tokens.
    unfold same_modulo_line_endings in Hst. by rewrite Hst. }
  unfold estimate_drift, computed_hash. by rewrite Hnorm.
Qed.

Lemma normalize_text_for_hash_line_endings_witness :
  normalize_text_for_hash [97; CR; LF; 98; CR; 99; LF] =
  normalize_text_for_hash [97; LF; 98; LF; 99]
  ∧ normalize_text_for_hash [97; LF; 98; LF; 99] =
    Some [x61; x0a; x62; x0a; x63; x0a]%byte.
Proof.
  split; [|reflexivity].
  by apply (normalize_text_for_hash_line_endings (λ _, [])).
Defined.

End ValidateApprovalFacts.


(** * Facts about [sot_refs.py] *)
Module SotRefsFacts.
Import PyFacts.

(** What a path that [is_safe_repo_relative] accepts cannot be. *)
Lemma is_safe_repo_relative_sound (path : pystr) :
  is_safe_repo_relative path = true →
  path ≠ [] ∧ path ≠ DOT ∧ path ≠ DOTDOT ∧ isabs path = false ∧
  DOTDOT ∉ split SLASH path.
Proof.
  unfold is_safe_repo_relative, isabs.
  destruct path as [|c path]; [done|].
  destruct (startswith [SLASH] (c :: path)); [done|].
  destruct (str_in DOTDOT _) eqn:Hparts; [done|].
  destruct (str_in (c :: path) [DOT; DOTDOT]) eqn:Hdots; [done|]. intros _.
  assert (c :: path ∉ [DOT; DOTDOT]) as Hnot.
  { intros H%str_in_elem_of. congruence. }
  split_and!; try done.
  - intros E. apply Hnot. rewrite E. by left.
  - intros E. apply Hnot. rewrite E. right. by left.
  - intros Hin. assert (str_in DOTDOT
      (filter (λ p, p ≠ []) (split SLASH (c :: path))) = true); [|congruence].
    apply str_in_elem_of, list_elem_of_filter. by split.
Qed.

Section Resolve.
Variable urlparse : pystr → option ParseResult.
Variable realpath : pystr → pystr.
Variable relpath : pystr → pystr → pystr.

Local Abbreviation resolve :=
  (resolve_ref_to_repo_path urlparse realpath relpath).

(** Every path that is returned passed [is_safe_repo_relative]. *)
Lemma resolve_ref_to_repo_path_checked repo_root ref p :
  resolve repo_root ref = inr p → is_safe_repo_relative p = true.
Proof using Type.
  unfold resolve_ref_to_repo_path, resolve_view.
  destruct (normalize_reference ref) as [|c r]; [done|].
  destruct (urlparse (c :: r)) as [parsed|]; [|done].
  repeat match goal with
         | |- context [if negb (is_safe_repo_relative ?x) then _ else _] =>
             destruct (is_safe_repo_relative x) eqn:?; cbn [negb]
         | |- context [if ?b then _ else _] => destruct b
         end; intros [= <-]; done.
Qed.

(** C2. For every repo root and every reference whose normalised
    candidate contains a [..] segment, as for [../../etc/passwd],
    [resolve_ref_to_repo_path] raises and returns no path; and it never
    returns a candidate that is empty, equal to [.] or [..], absolute, or
    that contains a [..] segment. *)
Theorem resolve_ref_to_repo_path_safe (repo_root ref : pystr) :
  (∀ p, resolve repo_root ref = inr p →
        p ≠ [] ∧ p ≠ DOT ∧ p ≠ DOTDOT ∧ isabs p = false ∧
        DOTDOT ∉ split SLASH p) ∧
  (∀ parsed,
     let r := normalize_reference ref in
     r ≠ [] → urlparse r = Some parsed →
     str_in (scheme parsed) [HTTP; HTTPS] = false → isabs r = false →
     DOTDOT ∈ split SLASH (relative_candidate r) →
     resolve repo_root ref = inl (UnsafeRelative (relative_candidate r))) ∧
  (∀ parsed,
     urlparse (py "../../etc/passwd") = Some parsed →
     str_in (scheme parsed) [HTTP; HTTPS] = false →
     resolve repo_root (py "../../etc/passwd") =
       inl (UnsafeRelative (py "../../etc/passwd"))).
Proof using Type.
  assert (∀ ref' parsed,
     let r := normalize_reference ref' in
     r ≠ [] → urlparse r = Some parsed →
     str_in (scheme parsed) [HTTP; HTTPS] = false → isabs r = false →
     DOTDOT ∈ split SLASH (relative_candidate r) →
     resolve repo_root ref' = inl (UnsafeRelative (relative_candidate r)))
    as Hrel.
  { intros ref' parsed r Hr Hparse Hscheme Habs Hdots.
    unfold resolve_ref_to_repo_path. fold r.
    destruct r as [|c r'] eqn:Er; [done|].
    rewrite Hparse, Hscheme, Habs.
    destruct (is_safe_repo_relative (relative_candidate (c :: r'))) eqn:Hsafe;
      [|done].
    by apply is_safe_repo_relative_sound in Hsafe as (_ & _ & _ & _ & ?). }
  split_and!.
  - intros p Hp.
    by apply is_safe_repo_relative_sound, (resolve_ref_to_repo_path_checked repo_root ref).
  - apply Hrel.
  - intros parsed Hparse Hscheme.
    apply (Hrel (py "../../etc/passwd") parsed); try done.
    apply (bool_decide_unpack _). by vm_compute.
Qed.
End Resolve.

Lemma resolve_ref_to_repo_path_safe_witness :
  resolve_ref_to_repo_path urlparse_plain id (λ p _, p)
    (py "/repo") (py "../../etc/passwd")
  = inl (UnsafeRelative (py "../../etc/passwd"))
  ∧ resolve_ref_to_repo_path urlparse_plain id (λ p _, p)
      (py "/repo") (py "[PRD](./docs/prd/a.md#goal)")
    = inr (py "docs/prd/a.md")
  ∧ DOTDOT ∉ split SLASH (py "docs/prd/a.md").
Proof.
  destruct (resolve_ref_to_repo_path_safe urlparse_plain id (λ p _, p)
              (py "/repo") (py "../../etc/passwd")) as (_ & H2 & _).
  destruct (resolve_ref_to_repo_path_safe urlparse_plain id (λ p _, p)
              (py "/repo") (py "[PRD](./docs/prd/a.md#goal)")) as (H1 & _ & _).
  split_and!.
  - apply (H2 {| scheme := []; hostname := None;
                 url_path := py "../../etc/passwd" |}).
    + by vm_compute.
    + vm_compute. reflexivity.
    + vm_compute. reflexivity.
    + vm_compute. reflexivity.
    + apply (bool_decide_unpack _). vm_compute. reflexivity.
  - vm_compute. reflexivity.
  - apply (H1 (py "docs/prd/a.md")). vm_compute. reflexivity.
Defined.

End SotRefsFacts.

(** * Facts about [validate-review-json.py] *)
Module ValidateReviewFacts.
Import PyFacts.

Lemma Forall_when (P : review_error → Prop) cond e : P e → Forall P (when cond e).
Proof. intros He. unfold when. destruct cond; by repeat constructor. Qed.

Lemma Forall_concat_imap {A B} (P : B → Prop) (f : nat → A → list B) l :
  (∀ i x, Forall P (f i x)) → Forall P (concat (imap f l)).
Proof.
  revert f. induction l as [|x l IH]; intros f Hf; [constructor|].
  cbn [imap concat]. apply Forall_app. split; [apply Hf|].
  apply IH. intros i y. apply Hf.
Qed.

Local Ltac not_cross :=
  repeat (apply Forall_app; split);
  try (apply Forall_when; reflexivity);
  try (by repeat constructor).

Lemma validate_line_range_not_cross idx v :
  Forall (λ e, is_cross_field e = false) (validate_line_range idx v).
Proof. unfold validate_line_range. destruct v; not_cross. Qed.

Lemma validate_code_location_not_cross idx v :
  Forall (λ e, is_cross_field e = false) (validate_code_location idx v).
Proof.
  unfold validate_code_location. destruct v; not_cross.
  apply validate_line_range_not_cross.
Qed.

Lemma validate_finding_not_cross idx v :
  Forall (λ e, is_cross_field e = false) (validate_finding idx v).
Proof.
  unfold validate_finding. destruct v; not_cross.
  - apply Forall_fmap, Forall_forall. by intros k _.
  - destruct (as_nonempty_str _); not_cross.
  - apply validate_code_location_not_cross.
Qed.

(** The checks before the cross-field constraints report none of the
    cross-field errors. *)
Lemma field_errors_not_cross obj expected :
  Forall (λ e, is_cross_field e = false) (field_errors obj expected).
Proof.
  unfold field_errors. not_cross.
  - destruct (as_nonempty_str _), expected; not_cross.
  - apply Forall_concat_imap. intros i x. apply validate_finding_not_cross.
Qed.

(** With every required key present and a status that is a string, the
    function returns the field errors followed by the cross-field ones. *)
Lemma validate_review_returns obj expected s :
  missing_keys required obj = [] → get K_STATUS obj = JStr s →
  validate_review obj expected =
    Some (field_errors obj expected
          ++ cross_field_errors (JStr s) (checked_findings obj)
               (checked_questions obj)).
Proof. intros Hm Hs. unfold validate_review. by rewrite Hm, Hs. Qed.

(** Whatever keys are there, a status that is a string makes the function
    return a list of errors. *)
Lemma validate_review_total obj expected s :
  get K_STATUS obj = JStr s →
  ∃ errors, validate_review obj expected = Some errors ∧
    (missing_keys required obj ≠ [] → errors ≠ []) ∧
    (missing_keys required obj = [] →
     errors = field_errors obj expected
              ++ cross_field_errors (JStr s) (checked_findings obj)
                   (checked_questions obj)) ∧
    (missing_keys required obj ≠ [] →
     Forall (λ e, is_cross_field e = false) errors).
Proof.
  intros Hs. unfold validate_review. rewrite Hs. cbn [hashable negb].
  case_bool_decide as Hm.
  - eexists. split; [done|]. split_and!; [done|done|]. by repeat constructor.
  - eexists. split; [done|]. by split_and!.
Qed.

Lemma cross_field_errors_approved findings questions :
  cross_field_errors (JStr APPROVED) findings questions =
  when (negb (length findings =? 0)%nat) ApprovedWithFindings
  ++ when (negb (length questions =? 0)%nat) ApprovedWithQuestions.
Proof.
  unfold cross_field_errors.
  change (is_the_str (JStr APPROVED) APPROVED) with true.
  change (is_the_str (JStr APPROVED) APPROVED_WITH_NITS) with false.
  change (is_the_str (JStr APPROVED) BLOCKED) with false.
  change (is_the_str (JStr APPROVED) QUESTION) with false.
  cbn [app]. by rewrite app_nil_r.
Qed.

Lemma cross_field_errors_blocked findings questions :
  cross_field_errors (JStr BLOCKED) findings questions =
  when (bool_decide (filter (λ f, is_blocking f = true) findings = []))
       BlockedWithoutBlocking.
Proof.
  unfold cross_field_errors.
  change (is_the_str (JStr BLOCKED) APPROVED) with false.
  change (is_the_str (JStr BLOCKED) APPROVED_WITH_NITS) with false.
  change (is_the_str (JStr BLOCKED) BLOCKED) with true.
  change (is_the_str (JStr BLOCKED) QUESTION) with false.
  cbn [app]. by rewrite app_nil_r.
Qed.

Lemma filter_blocking_nil findings :
  Forall (λ f, is_blocking f = false) findings →
  filter (λ f, is_blocking f = true) findings = [].
Proof.
  induction 1 as [|f fs Hf _ IH]; [done|].
  rewrite filter_cons_False by congruence. done.
Qed.

(** C9. [validate_review] reports an error whenever the status is
    'Approved' and the list of findings or the list of questions is not
    empty, and whenever the status is 'Blocked' and no finding has priority
    'P0' or 'P1': with every required key present the error is the one of
    the cross-field constraint (for questions that are not all strings, the
    one of their type check). For an 'Approved' record with empty findings
    and empty questions the cross-field constraints contribute no error. *)
Theorem validate_review_cross_field
    (obj : list (pystr * json)) (expected_scope_id : option pystr) :
  (∀ fs, get K_STATUS obj = JStr APPROVED →
     get K_FINDINGS obj = JList fs → fs ≠ [] →
     ∃ errors, validate_review obj expected_scope_id = Some errors ∧
       errors ≠ [] ∧
       (missing_keys required obj = [] → ApprovedWithFindings ∈ errors)) ∧
  (∀ qs, get K_STATUS obj = JStr APPROVED →
     get K_QUESTIONS obj = JList qs → qs ≠ [] →
     ∃ errors, validate_review obj expected_scope_id = Some errors ∧
       errors ≠ [] ∧
       (missing_keys required obj = [] →
        ApprovedWithQuestions ∈ errors ∨ QuestionsNotStrings ∈ errors)) ∧
  (get K_STATUS obj = JStr BLOCKED →
     Forall (λ f, is_blocking f = false) (checked_findings obj) →
     ∃ errors, validate_review obj expected_scope_id = Some errors ∧
       errors ≠ [] ∧
       (missing_keys required obj = [] → BlockedWithoutBlocking ∈ errors)) ∧
  (get K_STATUS obj = JStr APPROVED →
     get K_FINDINGS obj = JList [] → get K_QUESTIONS obj = JList [] →
     ∃ errors, validate_review obj expected_scope_id = Some errors ∧
       Forall (λ e, is_cross_field e = false) errors).
Proof.
  assert (∀ s e,
    get K_STATUS obj = JStr s →
    (missing_keys required obj = [] →
     e ∈ field_errors obj expected_scope_id
         ++ cross_field_errors (JStr s) (checked_findings obj)
              (checked_questions obj)) →
    ∃ errors, validate_review obj expected_scope_id = Some errors ∧
      errors ≠ [] ∧ (missing_keys required obj = [] → e ∈ errors)) as Hreport.
  { intros s e Hs He.
    destruct (validate_review_total obj expected_scope_id s Hs)
      as (errors & Hret & Hmiss & Hall & _).
    exists errors. split; [done|].
    destruct (decide (missing_keys required obj = [])) as [Hm|Hm].
    - specialize (He Hm). rewrite <-(Hall Hm) in He.
      split; [|done]. intros ->. by apply elem_of_nil in He.
    - split; [by apply Hmiss|done]. }
  split_and!.
  - intros fs Hs Hfs Hne. apply (Hreport APPROVED); [done|]. intros _.
    rewrite cross_field_errors_approved. unfold checked_findings. rewrite Hfs.
    destruct fs; [done|]. rewrite !elem_of_app. right. left. by left.
  - intros qs Hs Hqs Hne.
    destruct (forallb is_str qs) eqn:Hstr.
    + destruct (Hreport APPROVED ApprovedWithQuestions Hs) as (errors & ? & ? & ?).
      { intros _. rewrite cross_field_errors_approved. unfold checked_questions.
        rewrite Hqs, Hstr. destruct qs; [done|].
        rewrite !elem_of_app. right. right. by left. }
      exists errors. split_and!; [done..|]. intros ?. left. auto.
    + destruct (Hreport APPROVED QuestionsNotStrings Hs) as (errors & ? & ? & ?).
      { intros _. unfold field_errors. rewrite Hqs, Hstr.
        rewrite !elem_of_app. left. do 5 right. left. by left. }
      exists errors. split_and!; [done..|]. intros ?. right. auto.
  - intros Hs Hblock. apply (Hreport BLOCKED); [done|]. intros _.
    rewrite cross_field_errors_blocked, filter_blocking_nil by done.
    rewrite elem_of_app. right. by left.
  - intros Hs Hfs Hqs.
    destruct (validate_review_total obj expected_scope_id APPROVED Hs)
      as (errors & Hret & _ & Hall & Hmiss).
    exists errors. split; [done|].
    destruct (decide (missing_keys required obj = [])) as [Hm|Hm]; [|by apply Hmiss].
    rewrite (Hall Hm). apply Forall_app. split; [apply field_errors_not_cross|].
    rewrite cross_field_errors_approved. unfold checked_findings, checked_questions.
    rewrite Hfs, Hqs. constructor.
Qed.

Lemma validate_review_cross_field_witness :
  (∃ errors,
     validate_review (review_record APPROVED [finding_of (py "P2")] []) None
       = Some errors ∧ errors ≠ [] ∧
     (missing_keys required (review_record APPROVED [finding_of (py "P2")] [])
        = [] → ApprovedWithFindings ∈ errors)) ∧
  (∃ errors,
     validate_review (review_record BLOCKED [finding_of (py "P2")] []) None
       = Some errors ∧ errors ≠ [] ∧
     (missing_keys required (review_record BLOCKED [finding_of (py "P2")] [])
        = [] → BlockedWithoutBlocking ∈ errors)) ∧
  (∃ errors,
     validate_review (review_record APPROVED [] []) None = Some errors ∧
     Forall (λ e, is_cross_field e = false) errors).
Proof.
  split_and!.
  - apply (proj1 (validate_review_cross_field
                    (review_record APPROVED [finding_of (py "P2")] []) None)
             [finding_of (py "P2")]); [reflexivity|reflexivity|done].
  - apply (validate_review_cross_field
             (review_record BLOCKED [finding_of (py "P2")] []) None);
      [reflexivity|]. constructor; [vm_compute; reflexivity|constructor].
  - apply (validate_review_cross_field (review_record APPROVED [] []) None);
      reflexivity.
Defined.

End ValidateReviewFacts.

(** * Further facts about the runtime model *)
Module PyMoreFacts.
Import PyFacts.

Lemma startswith_take p n s :
  startswith p (take n s) = true → startswith p s = true.
Proof.
  revert n s. induction p as [|a p IH]; intros [|n] [|b s]; try done.
  cbn [take startswith]. rewrite !andb_true_iff. intros [? ?]. eauto.
Qed.

Lemma find_sub_Some_take p s i :
  p ≠ [] → find_sub p s = Some i → find_sub p (take i s) = None.
Proof.
  intros Hp. revert i. induction s as [|c s IH]; intros i.
  - destruct p; [done|]. by cbn.
  - cbn [find_sub]. destruct (startswith p (c :: s)) eqn:E.
    + intros [= <-]. destruct p; [done|]. by cbn.
    + destruct (find_sub p s) as [i'|] eqn:E'; [|done]. intros [= <-].
      cbn [take find_sub].
      destruct (startswith p (c :: take i' s)) eqn:E2.
      * apply (startswith_take p (S i') (c :: s)) in E2. congruence.
      * by rewrite IH.
Qed.

Lemma find_sub_Some_startswith p s i :
  find_sub p s = Some i → startswith p (drop i s) = true.
Proof.
  revert i. induction s as [|c s IH]; intros i; cbn [find_sub].
  - destruct (startswith p []) eqn:E; [|done]. by intros [= <-].
  - destruct (startswith p (c :: s)) eqn:E; [by intros [= <-]|].
    destruct (find_sub p s) as [i'|]; [|done]. intros [= <-]. by apply IH.
Qed.

Lemma find_sub_Some_first p s i k :
  find_sub p s = Some i → (k < i)%nat → startswith p (drop k s) = false.
Proof.
  revert i k. induction s as [|c s IH]; intros i k; cbn [find_sub].
  - destruct (startswith p []); [|done]. intros [= <-]. lia.
  - destruct (startswith p (c :: s)) eqn:E; [intros [= <-]; lia|].
    destruct (find_sub p s) as [i'|] eqn:E'; [|done]. intros [= <-] Hk.
    destruct k as [|k]; [done|]. cbn [drop]. apply (IH i'); [done|lia].
Qed.

Lemma find_sub_Some_bound p s i :
  find_sub p s = Some i → (i + length p ≤ length s)%nat.
Proof.
  revert i. induction s as [|c s IH]; intros i; cbn [find_sub].
  - destruct (startswith p []) eqn:E; [|done]. intros [= <-].
    by destruct p.
  - destruct (startswith p (c :: s)) eqn:E.
    + intros [= <-]. apply startswith_prefix in E as [k Hk].
      rewrite Hk, length_app. lia.
    + destruct (find_sub p s) as [i'|]; [|done]. intros [= <-].
      specialize (IH i' eq_refl). cbn. lia.
Qed.

Lemma startswith_app_l p s t :
  (length p ≤ length s)%nat → startswith p (s ++ t) = startswith p s.
Proof.
  revert s. induction p as [|a p IH]; intros [|b s] Hlen; try done.
  - cbn in Hlen. lia.
  - cbn [app startswith]. rewrite IH; [done|]. cbn in Hlen. lia.
Qed.

Lemma find_sub_Some_app p s t i :
  find_sub p s = Some i → find_sub p (s ++ t) = Some i.
Proof.
  revert i. induction s as [|c s IH]; intros i H.
  - pose proof (find_sub_Some_bound _ _ _ H) as Hb. cbn in Hb.
    destruct p; [|cbn in Hb; lia]. cbn in H. injection H as <-.
    by destruct t.
  - pose proof (find_sub_Some_bound _ _ _ H) as Hb.
    cbn [find_sub] in H. cbn [app find_sub].
    change (c :: s ++ t) with ((c :: s) ++ t).
    rewrite (startswith_app_l p (c :: s)) by lia.
    destruct (startswith p (c :: s)); [done|].
    destruct (find_sub p s) as [i'|]; [|done].
    by rewrite (IH i').
Qed.

Lemma occurs_snoc p s c : c ∉ p → p ≠ [] → occurs p (s ++ [c]) → occurs p s.
Proof.
  intros Hc Hp (x & y & H).
  destruct y as [|c' y _] using rev_ind.
  - rewrite app_nil_r in H. destruct p as [|q p _] using rev_ind; [done|].
    rewrite app_assoc in H. apply app_inj_tail in H as [_ ->].
    destruct Hc. set_solver.
  - rewrite !app_assoc in H. apply app_inj_tail in H as [-> _].
    exists x, y. by rewrite <-app_assoc.
Qed.

Lemma sublist_concat (l1 l2 : list pystr) :
  sublist l1 l2 → sublist (concat l1) (concat l2).
Proof.
  induction 1 as [|x l1 l2 _ IH|x l1 l2 _ IH]; cbn [concat].
  - done.
  - by apply sublist_app.
  - by apply sublist_inserts_l.
Qed.

(** ** [strip] *)

Lemma lstrip_head s c r : lstrip s = c :: r → isspace c = false.
Proof.
  induction s as [|x s IH]; [done|]. cbn [lstrip].
  destruct (isspace x) eqn:E; [done|]. by intros [= <- _].
Qed.

Lemma lstrip_fixed s :
  match s with c :: _ => isspace c = false | [] => True end → lstrip s = s.
Proof. destruct s as [|c s]; [done|]. cbn. by intros ->. Qed.

Lemma lstrip_idemp s : lstrip (lstrip s) = lstrip s.
Proof.
  apply lstrip_fixed. destruct (lstrip s) as [|c r] eqn:E; [done|].
  by eapply lstrip_head.
Qed.

Lemma lstrip_suffix s : ∃ w, s = w ++ lstrip s ∧ Forall (λ c, isspace c = true) w.
Proof.
  induction s as [|x s (w & Hw & Hall)]; [by exists []|]. cbn [lstrip].
  destruct (isspace x) eqn:E.
  - exists (x :: w). split; [by rewrite Hw at 1|by constructor].
  - by exists [].
Qed.

Lemma lstrip_snoc a c :
  isspace c = false → ∃ a', lstrip (a ++ [c]) = a' ++ [c].
Proof.
  intros Hc. induction a as [|x a [a' IH]]; cbn [app lstrip].
  - rewrite Hc. by exists [].
  - destruct (isspace x); [by exists a'|]. by exists (x :: a).
Qed.

Lemma rstrip_prefix s : ∃ w, s = rstrip s ++ w ∧ Forall (λ c, isspace c = true) w.
Proof.
  unfold rstrip. destruct (lstrip_suffix (reverse s)) as (w & Hw & Hall).
  exists (reverse w). split.
  - rewrite <-reverse_app, <-Hw. by rewrite reverse_involutive.
  - by apply Forall_reverse.
Qed.

Lemma rstrip_last s : from_option isspace false (last (rstrip s)) = false.
Proof.
  unfold rstrip. destruct (lstrip (reverse s)) as [|c r] eqn:E; [done|].
  rewrite reverse_cons, last_snoc. cbn. by eapply lstrip_head.
Qed.

(** Stripping on the right keeps a first character that is no
    whitespace. *)
Lemma rstrip_head c r :
  isspace c = false → ∃ r', rstrip (c :: r) = c :: r'.
Proof.
  intros Hc. unfold rstrip. rewrite reverse_cons.
  destruct (lstrip_snoc (reverse r) c Hc) as [a' ->].
  rewrite reverse_app. cbn. by eexists.
Qed.

Lemma strip_head s c r : strip s = c :: r → isspace c = false.
Proof.
  unfold strip. destruct (lstrip s) as [|x t] eqn:E; [done|].
  pose proof (lstrip_head _ _ _ E) as Hx.
  destruct (rstrip_head x t Hx) as [r' ->]. by intros [= <- _].
Qed.

Lemma strip_last s : from_option isspace false (last (strip s)) = false.
Proof. apply rstrip_last. Qed.

Lemma rstrip_idemp s : rstrip (rstrip s) = rstrip s.
Proof. unfold rstrip. by rewrite reverse_involutive, lstrip_idemp. Qed.

Lemma strip_idemp s : strip (strip s) = strip s.
Proof.
  unfold strip at 1. rewrite lstrip_fixed.
  - apply rstrip_idemp.
  - fold (strip s). destruct (strip s) as [|c r] eqn:E; [done|].
    by eapply strip_head.
Qed.

(** A stripped text is a part of the text. *)
Lemma strip_parts s :
  ∃ w1 w2, s = w1 ++ strip s ++ w2 ∧
    Forall (λ c, isspace c = true) w1 ∧ Forall (λ c, isspace c = true) w2.
Proof.
  destruct (lstrip_suffix s) as (w1 & H1 & Hw1).
  destruct (rstrip_prefix (lstrip s)) as (w2 & H2 & Hw2).
  exists w1, w2. split_and!; [|done..]. unfold strip. by rewrite <-H2.
Qed.

Lemma strip_elem_of s c : c ∈ strip s → c ∈ s.
Proof.
  destruct (strip_parts s) as (w1 & w2 & H & _). intros Hc.
  rewrite H. set_solver.
Qed.

(** A text that begins and ends with characters that are no whitespace is
    its own stripped text. *)
Lemma strip_fixed s :
  from_option isspace false (head s) = false →
  from_option isspace false (last s) = false → strip s = s.
Proof.
  intros Hh Hl. unfold strip. rewrite lstrip_fixed by (by destruct s).
  unfold rstrip. rewrite lstrip_fixed; [by rewrite reverse_involutive|].
  destruct (reverse s) as [|c r] eqn:E; [done|].
  apply (f_equal reverse) in E. rewrite reverse_involutive, reverse_cons in E.
  rewrite E, last_snoc in Hl. done.
Qed.

(** ** [split] *)

Lemma split1_head_elem_of sep s c : c ∈ split1_head sep s → c ∈ s ∧ c ≠ sep.
Proof.
  induction s as [|x s IH]; cbn [split1_head]; [by intros ?%elem_of_nil|].
  destruct (N.eqb_spec x sep); [by intros ?%elem_of_nil|].
  intros [->|H]%elem_of_cons; [split; [by left|done]|].
  destruct (IH H). split; [by right|done].
Qed.

Lemma take_while_elem_of f s c : c ∈ take_while f s → c ∈ s ∧ f c = true.
Proof.
  induction s as [|x s IH]; cbn [take_while]; [by intros ?%elem_of_nil|].
  destruct (f x) eqn:E; [|by intros ?%elem_of_nil].
  intros [->|H]%elem_of_cons; [split; [by left|done]|].
  destruct (IH H). split; [by right|done].
Qed.

Lemma split_not_nil sep s : split sep s ≠ [].
Proof.
  destruct s as [|c s]; [done|]. cbn [split].
  destruct (c =? sep); [done|]. by destruct (split sep s).
Qed.

Lemma split_no_sep sep x : sep ∉ x → split sep x = [x].
Proof.
  induction x as [|c x IH]; [done|]. intros [Hc Hx]%not_elem_of_cons.
  cbn [split]. destruct (N.eqb_spec c sep); [done|]. by rewrite IH.
Qed.

(** The components of a text before a separator, then those after it. *)
Lemma split_app_sep sep a b :
  split sep (a ++ sep :: b) = split sep a ++ split sep b.
Proof.
  induction a as [|c a IH]; cbn [app split].
  - by rewrite N.eqb_refl.
  - destruct (c =? sep); [by rewrite IH|].
    rewrite IH. pose proof (split_not_nil sep a).
    by destruct (split sep a).
Qed.

(** A text has no separator, or a first one. *)
Lemma first_sep (sep : char) (s : pystr) :
  (sep ∉ s) ∨ ∃ a b, s = a ++ sep :: b ∧ (sep ∉ a).
Proof.
  induction s as [|c s IH]; [left; apply not_elem_of_nil|].
  destruct (N.eqb_spec c sep) as [->|Hc].
  - right. exists [], s. split; [done|apply not_elem_of_nil].
  - destruct IH as [H|(a & b & -> & Ha)].
    + left. by apply not_elem_of_cons.
    + right. exists (c :: a), b. split; [done|]. by apply not_elem_of_cons.
Qed.

(** Text before the first component. *)
Lemma split_prepend sep w s :
  sep ∉ w →
  ∃ hd tl, split sep s = hd :: tl ∧ split sep (w ++ s) = (w ++ hd) :: tl.
Proof.
  intros Hw. destruct (first_sep sep s) as [Hs|(a & b & -> & Ha)].
  - exists s, []. rewrite (split_no_sep sep s) by done.
    by rewrite (split_no_sep sep (w ++ s)) by (by rewrite not_elem_of_app).
  - exists a, (split sep b). rewrite app_assoc, !split_app_sep.
    rewrite (split_no_sep sep a) by done.
    by rewrite (split_no_sep sep (w ++ a)) by (by rewrite not_elem_of_app).
Qed.

(** Text after the last component. *)
Lemma split_append sep s w :
  sep ∉ w →
  ∃ init lst, split sep s = init ++ [lst] ∧
    split sep (s ++ w) = init ++ [lst ++ w].
Proof.
  intros Hw. induction s as [|c s (init & lst & H1 & H2)].
  - exists [], []. split; [done|]. cbn [app]. by rewrite split_no_sep.
  - cbn [app split]. destruct (c =? sep).
    + exists ([] :: init), lst. by rewrite H1, H2.
    + rewrite H1, H2. destruct init as [|p init]; cbn [app].
      * by exists [], (c :: lst).
      * by exists ((c :: p) :: init), lst.
Qed.

(** [s.replace(a, b)] for single characters. *)
Lemma replace_char a b s :
  replace [a] [b] s = map (λ c, if c =? a then b else c) s.
Proof.
  unfold replace. induction s as [|c s IH]; [done|].
  cbn [replace_from startswith map length]. rewrite andb_true_r.
  rewrite (N.eqb_sym a c).
  destruct (c =? a); cbn [Nat.sub app]; by rewrite IH.
Qed.

End PyMoreFacts.

(** * Facts about the key sets of JSON objects *)
Module JsonFacts.
Import PyFacts.

Lemma insert_sorted_not_nil x xs : insert_sorted x xs ≠ [].
Proof. destruct xs as [|y ys]; cbn; [done|]. by destruct (str_leb x y). Qed.

Lemma sorted_nil xs : sorted xs = [] → xs = [].
Proof.
  destruct xs as [|x xs]; [done|]. cbn [sorted foldr]. intros H.
  by apply insert_sorted_not_nil in H.
Qed.

Lemma remove_dups_nil (xs : list pystr) : remove_dups xs = [] → xs = [].
Proof.
  destruct xs as [|x xs]; [done|]. intros H.
  assert (x ∈ remove_dups (x :: xs)) as Hx by (apply elem_of_remove_dups; by left).
  rewrite H in Hx. by apply elem_of_nil in Hx.
Qed.

Lemma has_key_elem_of k d : has_key k d = true ↔ k ∈ d.*1.
Proof. apply str_in_elem_of. Qed.

End JsonFacts.

(** * Further facts about [md_sanitize.py] *)
Module MdSanitizeMoreFacts.
Import PyFacts PyMoreFacts MdSanitizeFacts.

(** ** The mask *)

Lemma mask_inline_code_spans_pointwise text :
  Forall2 (λ a m, m = a ∨ m = SPACE) text (_mask_inline_code_spans text).
Proof. rewrite mask_inline_code_spans_structural. apply mask_from_pointwise. Qed.

(** X1. The mask has the length of the text, and every character of it is
    the character of the text at its place or a space. *)
Theorem mask_inline_code_spans_shape (text : pystr) :
  length (_mask_inline_code_spans text) = length text ∧
  ∀ i c, _mask_inline_code_spans text !! i = Some c →
         text !! i = Some c ∨ c = SPACE.
Proof.
  pose proof (mask_inline_code_spans_pointwise text) as H. split.
  - symmetry. by eapply Forall2_length.
  - intros i c Hc.
    destruct (Forall2_lookup_r _ _ _ _ _ H Hc) as (a & Ha & [->| ->]); auto.
Qed.

Lemma run_length_take c s i x :
  s !! i = Some x → x ≠ c → run_length c (take i s) = run_length c s.
Proof.
  revert i. induction s as [|y s IH]; intros [|i] Hi Hx; try done.
  - cbn in Hi. injection Hi as ->. cbn. by destruct (N.eqb_spec x c).
  - cbn [take run_length]. destruct (y =? c); [|done]. f_equal. by eapply IH.
Qed.

Lemma run_length_lookup c s i x :
  s !! i = Some x → x ≠ c → (run_length c s ≤ i)%nat.
Proof.
  revert i. induction s as [|y s IH]; intros [|i] Hi Hx; try done.
  - cbn in Hi. injection Hi as ->. cbn. by destruct (N.eqb_spec x c).
  - cbn [run_length]. destruct (y =? c); [|lia].
    apply le_n_S. by eapply IH.
Qed.

(** The search for the closer in a text that is cut at a character that
    is no backtick: a closer before the cut is found, one after it is not. *)
Lemma find_closer_take open_len run r j x :
  r !! j = Some x → x ≠ BACKTICK →
  find_closer open_len run (take j r) =
  match find_closer open_len run r with
  | Some k => if (k <=? j)%nat then Some k else None
  | None => None
  end.
Proof.
  revert run j. induction r as [|c r IH]; intros run [|j] Hj Hx; try done.
  - cbn in Hj. injection Hj as ->. cbn [take find_closer].
    destruct (N.eqb_spec x BACKTICK); [done|].
    destruct (run =? open_len)%nat; [done|].
    by destruct (find_closer _ _ _).
  - cbn [take find_closer]. destruct (c =? BACKTICK).
    + rewrite (IH _ j) by done.
      destruct (find_closer _ _ r) as [k|]; cbn; [by destruct (k <=? j)%nat|done].
    + destruct (run =? open_len)%nat; [done|].
      rewrite (IH _ j) by done.
      destruct (find_closer _ _ r) as [k|]; cbn; [by destruct (k <=? j)%nat|done].
Qed.

Lemma escaped_take n j s x (b : bool) :
  s !! j = Some x → x ≠ BACKTICK → (n ≤ j)%nat →
  match drop n (take j s) with
  | c' :: _ => (c' =? BACKTICK) && b
  | [] => false
  end =
  match drop n s with
  | c' :: _ => (c' =? BACKTICK) && b
  | [] => false
  end.
Proof.
  intros Hj Hx Hn.
  replace j with (n + (j - n))%nat in * by lia.
  rewrite <-take_drop_commute. rewrite <-lookup_drop in Hj.
  destruct (drop n s) as [|y r]; [by rewrite take_nil|].
  destruct (j - n)%nat; [|done].
  cbn in Hj. injection Hj as ->. cbn [take].
  by destruct (N.eqb_spec x BACKTICK).
Qed.

Lemma mask_from_blank_lookup skip s i y :
  (i < skip)%nat → mask_from skip true s !! i = Some y → y = SPACE.
Proof.
  revert skip i. induction s as [|c s IH]; intros [|skip] [|i] Hi; try done;
    try lia; cbn [mask_from base.lookup list_lookup].
  - congruence.
  - apply IH. lia.
Qed.

(** The mask of a text that is cut at a character which is neither a
    backslash nor a backtick and which the mask leaves as it is. *)
Lemma mask_from_take s skip blank i x :
  s !! i = Some x → x ≠ BACKSLASH → x ≠ BACKTICK → x ≠ SPACE →
  mask_from skip blank s !! i = Some x →
  mask_from skip blank (take i s) = take i (mask_from skip blank s).
Proof.
  revert skip blank i.
  induction s as [|c s IH]; intros skip blank [|i] Hi Hbs Hbt Hsp Hm; try done.
  assert ((c :: s) !! S i = Some x) as Hi' by done.
  cbn [base.lookup list_lookup] in Hi.
  destruct skip as [|k].
  2:{ cbn [take mask_from] in *. f_equal. by apply IH. }
  change (take (S i) (c :: s)) with (c :: take i s).
  cbn [mask_from] in *.
  change (c :: take i s) with (take (S i) (c :: s)).
  destruct (N.eqb_spec c BACKSLASH) as [->|Hc1].
  - rewrite (run_length_take _ _ _ _ Hi' Hbs).
    pose proof (run_length_lookup _ _ _ _ Hi' Hbs) as Hle.
    rewrite (escaped_take _ _ _ _ _ Hi' Hbt Hle).
    cbn [take]. f_equal. by apply IH.
  - destruct (N.eqb_spec c BACKTICK) as [->|Hc2].
    + rewrite (run_length_take _ _ _ _ Hi' Hbt).
      pose proof (run_length_lookup _ _ _ _ Hi' Hbt) as Hle.
      set (ol := run_length BACKTICK (BACKTICK :: s)) in *.
      replace (S i) with (ol + (S i - ol))%nat at 1 by lia.
      rewrite <-take_drop_commute.
      rewrite (find_closer_take _ _ _ _ x); [|by rewrite lookup_drop;
        replace (ol + (S i - ol))%nat with (S i) by lia|done].
      destruct (find_closer ol 0 (drop ol (BACKTICK :: s))) as [k|] eqn:Hk.
      * destruct (Nat.leb_spec k (S i - ol)).
        -- cbn [take]. f_equal. by apply IH.
        -- cbn [base.lookup list_lookup] in Hm.
           apply mask_from_blank_lookup in Hm; [done|lia].
      * cbn [take]. f_equal. by apply IH.
    + cbn [take]. f_equal. by apply IH.
Qed.




(** A text in whose mask no comment opens is left as it is. *)
Lemma strip_html_comment_blocks_fixed text :
  find_sub COMMENT_OPEN (_mask_inline_code_spans text) = None →
  strip_html_comment_blocks text = text.
Proof.
  intros H. unfold strip_html_comment_blocks.
  rewrite comment_finditer_nil.
  - cbn [comment_parts concat]. rewrite drop_0, app_nil_r. by rewrite H.
  - intros k. by apply comment_block_no_opener, find_sub_None_drop.
Qed.

(** What [strip_html_comment_blocks] returns has no comment opener
    outside the inline code spans. *)
Lemma strip_html_comment_blocks_clean text :
  find_sub COMMENT_OPEN
    (_mask_inline_code_spans (strip_html_comment_blocks text)) = None.
Proof.
  unfold strip_html_comment_blocks.
  set (result := concat _).
  destruct (find_sub COMMENT_OPEN (_mask_inline_code_spans result))
    as [i|] eqn:E; [|done].
  pose proof (find_sub_Some_startswith _ _ _ E) as Hopen.
  assert (_mask_inline_code_spans result !! i = Some 60) as Hm.
  { rewrite <-(Nat.add_0_r i), <-lookup_drop.
    destruct (drop i _) as [|c r]; [done|].
    change COMMENT_OPEN with (60 :: [33; 45; 45]) in Hopen.
    cbn [startswith] in Hopen.
    apply andb_true_iff in Hopen as [<-%N.eqb_eq _]. done. }
  assert (result !! i = Some 60) as Hr.
  { destruct (Forall2_lookup_r _ _ _ _ _
      (mask_inline_code_spans_pointwise result) Hm) as (a & Ha & [->|?]); done. }
  rewrite mask_inline_code_spans_structural in Hm, E |- *.
  rewrite (mask_from_take _ _ _ _ 60) by done.
  by apply find_sub_Some_take.
Qed.

(** X2. The result of [strip_html_comment_blocks] has no comment opener
    outside its inline code spans, and stripping it again changes nothing. *)
Theorem strip_html_comment_blocks_idempotent (text : pystr) :
  find_sub COMMENT_OPEN
    (_mask_inline_code_spans (strip_html_comment_blocks text)) = None ∧
  strip_html_comment_blocks (strip_html_comment_blocks text) =
  strip_html_comment_blocks text.
Proof.
  split; [apply strip_html_comment_blocks_clean|].
  apply strip_html_comment_blocks_fixed, strip_html_comment_blocks_clean.
Qed.

(** ** Code spans *)

(** Before the first backslash and the first backtick the mask is the
    text. *)
Lemma mask_from_app_plain a s :
  BACKTICK ∉ a → BACKSLASH ∉ a →
  mask_from 0 false (a ++ s) = a ++ mask_from 0 false s.
Proof.
  induction a as [|c a IH]; intros Ht Hs; [done|].
  apply not_elem_of_cons in Ht as [Hc1 Ht].
  apply not_elem_of_cons in Hs as [Hc2 Hs].
  cbn [app mask_from].
  destruct (N.eqb_spec c BACKSLASH); [done|].
  destruct (N.eqb_spec c BACKTICK); [done|]. by rewrite IH.
Qed.

Lemma run_length_replicate c n s :
  match s with x :: _ => x ≠ c | [] => True end →
  run_length c (replicate n c ++ s) = n.
Proof.
  intros Hs. induction n as [|n IH]; cbn [replicate app run_length].
  - destruct s as [|x s]; [done|]. cbn. by destruct (N.eqb_spec x c).
  - by rewrite N.eqb_refl, IH.
Qed.

(** The closing run of a span whose content has no backtick. *)
Lemma find_closer_content n x b :
  (1 ≤ n)%nat → BACKTICK ∉ x →
  match b with c :: _ => c ≠ BACKTICK | [] => True end →
  find_closer n 0 (x ++ replicate n BACKTICK ++ b) = Some (length x + n)%nat.
Proof.
  intros Hn Hx Hb. induction x as [|c x IH].
  - cbn [app length]. rewrite find_closer_run.
    rewrite run_length_replicate by done.
    rewrite drop_app_length' by (by rewrite length_replicate).
    rewrite find_closer_after_run by done.
    rewrite Nat.add_0_l, Nat.eqb_refl. cbn. f_equal. lia.
  - apply not_elem_of_cons in Hx as [Hc Hx].
    cbn [app find_closer length].
    destruct (N.eqb_spec c BACKTICK); [done|].
    destruct (Nat.eqb_spec 0 n); [lia|].
    by rewrite IH.
Qed.

Lemma mask_from_span n x b :
  (1 ≤ n)%nat → BACKTICK ∉ x → x ≠ [] →
  match b with c :: _ => c ≠ BACKTICK | [] => True end →
  mask_from 0 false (replicate n BACKTICK ++ x ++ replicate n BACKTICK ++ b) =
  replicate (n + length x + n) SPACE ++ mask_from 0 false b.
Proof.
  intros Hn Hx Hne Hb.
  pose proof (find_closer_content n x b Hn Hx Hb) as Hclose.
  assert (length (x ++ replicate n BACKTICK ++ b) =
          (length x + n + length b)%nat) as Hlen.
  { rewrite !length_app, length_replicate. lia. }
  assert (drop (length x + n) (x ++ replicate n BACKTICK ++ b) = b) as Hdrop.
  { rewrite app_assoc. apply drop_app_length'.
    by rewrite length_app, length_replicate. }
  assert (run_length BACKTICK
            (replicate n BACKTICK ++ x ++ replicate n BACKTICK ++ b) = n) as Hrun.
  { apply run_length_replicate. destruct x as [|c x]; [done|].
    apply not_elem_of_cons in Hx as [? _]. done. }
  set (t := x ++ replicate n BACKTICK ++ b) in *.
  destruct n as [|n]; [lia|].
  cbn [replicate app] in Hrun |- *.
  change (mask_from 0 false (BACKTICK :: replicate n BACKTICK ++ t))
    with (let ol := run_length BACKTICK (BACKTICK :: replicate n BACKTICK ++ t) in
          match find_closer ol 0 (drop ol (BACKTICK :: replicate n BACKTICK ++ t)) with
          | Some k => SPACE :: mask_from (ol + k - 1) true (replicate n BACKTICK ++ t)
          | None => BACKTICK :: mask_from (ol - 1) false (replicate n BACKTICK ++ t)
          end).
  cbv zeta. rewrite Hrun. cbn [drop].
  rewrite drop_app_length' by (by rewrite length_replicate).
  rewrite Hclose.
  rewrite mask_from_blank by (rewrite length_app, length_replicate; lia).
  replace (S n + (length x + S n) - 1)%nat with (n + (length x + S n))%nat by lia.
  rewrite <-drop_drop, drop_app_length' by (by rewrite length_replicate).
  rewrite Hdrop.
  change (SPACE :: ?l ++ ?r) with ((SPACE :: l) ++ r). f_equal.
  change (SPACE :: replicate ?k SPACE) with (replicate (S k) SPACE).
  f_equal. lia.
Qed.

Lemma mask_inline_code_spans_span_eq n a x b :
  (1 ≤ n)%nat → BACKTICK ∉ a → BACKSLASH ∉ a → BACKTICK ∉ x → x ≠ [] →
  match b with c :: _ => c ≠ BACKTICK | [] => True end →
  _mask_inline_code_spans
    (a ++ replicate n BACKTICK ++ x ++ replicate n BACKTICK ++ b) =
  a ++ replicate (n + length x + n) SPACE ++ _mask_inline_code_spans b.
Proof.
  intros. rewrite !mask_inline_code_spans_structural.
  rewrite mask_from_app_plain by done. by rewrite mask_from_span.
Qed.

(** X3. A code span whose content has no backtick is blanked with its
    delimiters, whatever else the content is; the text before it, which
    has no backtick and no backslash, is kept, and masking goes on behind
    the span. *)
Theorem mask_inline_code_spans_span (n : nat) (a x b : pystr) :
  (1 ≤ n)%nat → BACKTICK ∉ a → BACKSLASH ∉ a → BACKTICK ∉ x → x ≠ [] →
  match b with c :: _ => c ≠ BACKTICK | [] => True end →
  _mask_inline_code_spans
    (a ++ replicate n BACKTICK ++ x ++ replicate n BACKTICK ++ b) =
  a ++ replicate (n + length x + n) SPACE ++ _mask_inline_code_spans b.
Proof. apply mask_inline_code_spans_span_eq. Qed.


(** A pattern without a space that occurs in two texts joined by spaces
    occurs in one of them. *)
Lemma occurs_blanks p a m b :
  SPACE ∉ p → p ≠ [] → (1 ≤ m)%nat →
  occurs p (a ++ replicate m SPACE ++ b) → occurs p a ∨ occurs p b.
Proof.
  intros Hc Hp Hm. destruct m as [|m]; [lia|clear Hm].
  revert a. induction m as [|m IH]; intros a.
  - cbn [replicate app].
    rewrite (cons_middle SPACE a b), app_assoc.
    intros [H|H]%occurs_app_boundary; [|by right|done].
    left. by eapply occurs_snoc.
  - change (replicate (S (S m)) SPACE) with (SPACE :: replicate (S m) SPACE).
    cbn [app]. rewrite (cons_middle SPACE a), app_assoc.
    intros [H|H]%IH; [|by right].
    left. by eapply occurs_snoc.
Qed.

(** X4. Comment delimiters inside a code span are no comment: a text with
    one code span, and with no comment opener and no backtick outside it,
    is left as it is, whatever the span contains. *)
Theorem strip_html_comment_blocks_code_span (n : nat) (a x b : pystr) :
  (1 ≤ n)%nat → BACKTICK ∉ a → BACKSLASH ∉ a → BACKTICK ∉ x → x ≠ [] →
  BACKTICK ∉ b →
  find_sub COMMENT_OPEN a = None → find_sub COMMENT_OPEN b = None →
  strip_html_comment_blocks
    (a ++ replicate n BACKTICK ++ x ++ replicate n BACKTICK ++ b) =
  a ++ replicate n BACKTICK ++ x ++ replicate n BACKTICK ++ b.
Proof.
  intros Hn Ha1 Ha2 Hx Hne Hb Hoa Hob.
  apply strip_html_comment_blocks_fixed.
  rewrite mask_inline_code_spans_span_eq; try done.
  2:{ destruct b as [|c b]; [done|]. by apply not_elem_of_cons in Hb as [? _]. }
  rewrite mask_inline_code_spans_structural, mask_from_no_backtick by done.
  apply find_sub_None_occurs.
  intros [H|H]%occurs_blanks.
  - by apply find_sub_None_occurs in Hoa.
  - by apply find_sub_None_occurs in Hob.
  - apply space_not_in_open.
  - done.
  - lia.
Qed.

(** ** Comments in a text without code spans *)





Lemma comment_finditer_skip pos skip s :
  comment_finditer pos skip s =
  comment_finditer (pos + skip) 0 (drop skip s).
Proof.
  revert pos skip. induction s as [|c s IH]; intros pos [|skip].
  - done.
  - done.
  - by rewrite Nat.add_0_r.
  - cbn [comment_finditer drop]. rewrite IH. f_equal. lia.
Qed.

Lemma comment_finditer_prefix pos a s :
  (∀ k, (k < length a)%nat → _HTML_COMMENT_BLOCK_RE (drop k (a ++ s)) = None) →
  comment_finditer pos 0 (a ++ s) = comment_finditer (pos + length a) 0 s.
Proof.
  revert pos. induction a as [|c a IH]; intros pos H.
  - by rewrite Nat.add_0_r.
  - cbn [app]. rewrite comment_finditer_None by (apply (H 0%nat); cbn; lia).
    rewrite IH. { f_equal. cbn. lia. }
    intros k Hk. apply (H (S k)). cbn. lia.
Qed.

(** Before the first opener no comment begins. *)
Lemma comment_block_before_opener a s k :
  find_sub COMMENT_OPEN (a ++ COMMENT_OPEN) = Some (length a) →
  (k < length a)%nat →
  _HTML_COMMENT_BLOCK_RE (drop k (a ++ COMMENT_OPEN ++ s)) = None.
Proof.
  intros Hfirst Hk. unfold _HTML_COMMENT_BLOCK_RE.
  rewrite app_assoc, drop_app_le by (rewrite length_app; lia).
  rewrite startswith_app_l.
  - by rewrite (find_sub_Some_first _ _ _ _ Hfirst Hk).
  - rewrite length_drop, length_app. lia.
Qed.

Lemma comment_finditer_match pos s len :
  _HTML_COMMENT_BLOCK_RE s = Some len →
  comment_finditer pos 0 s =
  (pos, (pos + len)%nat) :: comment_finditer (pos + len) 0 (drop len s).
Proof.
  intros H.
  assert (7 ≤ len)%nat as Hlen.
  { unfold _HTML_COMMENT_BLOCK_RE in H. destruct (startswith _ _); [|done].
    destruct (find_sub _ _); [|done]. injection H as <-. lia. }
  destruct s as [|c s]; [done|].
  cbn [comment_finditer]. rewrite H, comment_finditer_skip.
  replace (S pos + (len - 1))%nat with (pos + len)%nat by lia.
  do 2 f_equal. destruct len as [|len]; [lia|].
  cbn [drop]. f_equal. lia.
Qed.

Lemma not_backtick_open : BACKTICK ∉ COMMENT_OPEN.
Proof. apply (bool_decide_unpack _). by vm_compute. Qed.

Lemma not_backtick_close : BACKTICK ∉ COMMENT_CLOSE.
Proof. apply (bool_decide_unpack _). by vm_compute. Qed.

(** X5. In a text without backticks a comment, from the first opener to the
    first closer behind it, is cut out; what is left is returned when no
    opener is left in it. *)
Theorem strip_html_comment_blocks_matched (a b c : pystr) :
  BACKTICK ∉ a → BACKTICK ∉ b → BACKTICK ∉ c →
  find_sub COMMENT_OPEN (a ++ COMMENT_OPEN) = Some (length a) →
  find_sub COMMENT_CLOSE (b ++ COMMENT_CLOSE) = Some (length b) →
  find_sub COMMENT_OPEN (a ++ c) = None →
  strip_html_comment_blocks (a ++ COMMENT_OPEN ++ b ++ COMMENT_CLOSE ++ c) =
  a ++ c.
Proof.
  intros Ha Hb Hc Hopen Hclose Hrest.
  unfold strip_html_comment_blocks.
  rewrite (mask_inline_code_spans_structural (a ++ _)).
  rewrite mask_from_no_backtick.
  2:{ rewrite !not_elem_of_app. split_and!; try done;
        [apply not_backtick_open|apply not_backtick_close]. }
  rewrite comment_finditer_prefix
    by (intros k Hk; by apply comment_block_before_opener).
  rewrite (comment_finditer_match _ _ (4 + length b + 3)).
  2:{ rewrite comment_block_at_opener.
      rewrite (app_assoc b), (find_sub_Some_app _ _ _ _ Hclose). done. }
  assert (drop (4 + length b + 3) (COMMENT_OPEN ++ b ++ COMMENT_CLOSE ++ c) = c)
    as ->.
  { rewrite !app_assoc. apply drop_app_length'.
    rewrite !length_app. cbn. lia. }
  rewrite comment_finditer_nil.
  2:{ intros k. apply comment_block_no_opener.
      rewrite <-(drop_app_length a c), drop_drop.
      by apply find_sub_None_drop. }
  cbn [comment_parts concat]. unfold slice.
  rewrite drop_0, Nat.sub_0_r, Nat.add_0_l, take_app_length, app_nil_r.
  assert (drop (length a + (4 + length b + 3))
            (a ++ COMMENT_OPEN ++ b ++ COMMENT_CLOSE ++ c) = c) as ->.
  { rewrite !app_assoc. apply drop_app_length'.
    rewrite !length_app. cbn. lia. }
  rewrite mask_inline_code_spans_structural, mask_from_no_backtick
    by (rewrite not_elem_of_app; done).
  by rewrite Hrest.
Qed.

(** X6. In a text without backticks, an opener that no closer follows
    ends the text: what comes before the first opener is returned. *)
Theorem strip_html_comment_blocks_unclosed (text : pystr) (i : nat) :
  BACKTICK ∉ text →
  find_sub COMMENT_OPEN text = Some i →
  find_sub COMMENT_CLOSE (drop (i + 4) text) = None →
  strip_html_comment_blocks text = take i text.
Proof.
  intros Ht Hopen Hclose. unfold strip_html_comment_blocks.
  rewrite (mask_inline_code_spans_structural text), mask_from_no_backtick by done.
  rewrite comment_finditer_nil.
  - cbn [comment_parts concat]. rewrite drop_0, app_nil_r.
    rewrite mask_inline_code_spans_structural, mask_from_no_backtick by done.
    by rewrite Hopen.
  - intros k. unfold _HTML_COMMENT_BLOCK_RE.
    destruct (decide (k < i)%nat) as [Hk|Hk].
    + by rewrite (find_sub_Some_first _ _ _ _ Hopen Hk).
    + destruct (startswith _ _); [|done].
      rewrite drop_drop.
      replace (k + 4)%nat with (i + 4 + (k - i))%nat by lia.
      rewrite <-drop_drop. by rewrite find_sub_None_drop.
Qed.

(** ** The sanitizers only delete *)



Lemma comment_finditer_spans pos s :
  spans_from pos (comment_finditer pos 0 s).
Proof.
  remember (length s) as n eqn:Hn. revert pos s Hn.
  induction (lt_wf n) as [n _ IH]; intros pos s ->.
  destruct s as [|c s]; [done|].
  destruct (_HTML_COMMENT_BLOCK_RE (c :: s)) as [len|] eqn:E.
  - rewrite (comment_finditer_match _ _ _ E).
    assert (7 ≤ len)%nat as Hlen.
    { unfold _HTML_COMMENT_BLOCK_RE in E. destruct (startswith _ _); [|done].
      destruct (find_sub _ _); [|done]. injection E as <-. lia. }
    split_and!; [lia..|].
    eapply IH; [|done]. rewrite length_drop. cbn. lia.
  - rewrite comment_finditer_None by done.
    assert (∀ p q ms, (p ≤ q)%nat → spans_from q ms → spans_from p ms) as Hmono.
    { intros p q [|[a b] ms] Hpq; [done|]. cbn. intros (? & ? & ?).
      split_and!; [lia|done..]. }
    apply (Hmono _ (S pos)); [lia|]. eapply IH; [|done]. cbn. lia.
Qed.

Lemma comment_parts_sublist text last ms :
  spans_from last ms →
  sublist (concat (comment_parts text last ms)) (drop last text).
Proof.
  revert last. induction ms as [|[a b] ms IH]; intros last; cbn [comment_parts concat].
  - by rewrite app_nil_r.
  - intros (Ha & Hb & Hms). unfold slice.
    rewrite <-(take_drop (a - last) (drop last text)) at 2.
    apply sublist_app; [done|].
    rewrite drop_drop. replace (last + (a - last))%nat with a by lia.
    etrans; [by apply IH|].
    replace b with (a + (b - a))%nat by lia.
    rewrite <-drop_drop. apply sublist_drop.
Qed.

Lemma strip_fenced_code_blocks_sublist text :
  sublist (strip_fenced_code_blocks text) text.
Proof.
  unfold strip_fenced_code_blocks.
  rewrite <-(concat_splitlines_keepends text) at 2.
  apply sublist_concat, fence_loop_sublist.
Qed.

Lemma strip_indented_code_blocks_sublist text :
  sublist (strip_indented_code_blocks text) text.
Proof.
  unfold strip_indented_code_blocks.
  rewrite <-(concat_splitlines_keepends text) at 2.
  apply sublist_concat, sublist_filter.
Qed.

Lemma strip_html_comment_blocks_sublist text :
  sublist (strip_html_comment_blocks text) text.
Proof.
  unfold strip_html_comment_blocks.
  assert (sublist (concat (comment_parts text 0
            (comment_finditer 0 0 (_mask_inline_code_spans text)))) text) as H.
  { rewrite <-(drop_0 text) at 3.
    apply comment_parts_sublist, comment_finditer_spans. }
  destruct (find_sub _ _); [|done].
  etrans; [apply sublist_take|done].
Qed.

(** X7. The sanitizers only delete: what each of them returns is the text
    with some of its characters left out, in the order of the text. *)
Theorem sanitizers_only_delete (text : pystr) :
  sublist (strip_fenced_code_blocks text) text ∧
  sublist (strip_indented_code_blocks text) text ∧
  sublist (strip_html_comment_blocks text) text ∧
  sublist (sanitize_status_text text) text.
Proof.
  split_and!.
  - apply strip_fenced_code_blocks_sublist.
  - apply strip_indented_code_blocks_sublist.
  - apply strip_html_comment_blocks_sublist.
  - unfold sanitize_status_text.
    etrans; [apply strip_html_comment_blocks_sublist|].
    etrans; [apply strip_indented_code_blocks_sublist|].
    apply strip_fenced_code_blocks_sublist.
Qed.

(** ** Indented code *)

(** Joining lines that have a property gives a text whose lines have it,
    when the property of a line that ends in a carriage return is kept as
    a newline is added to it. *)
Lemma lines_concat_Forall (P : pystr → Prop) ls :
  (∀ b, P (b ++ [CR]) → P ((b ++ [CR]) ++ [LF])) →
  lines_ok ls → Forall P ls → Forall P (splitlines_keepends (concat ls)).
Proof.
  intros HP. induction 1 as [|l Hne Hl|l ls Hl Hls IH]; intros Hall.
  - constructor.
  - cbn [concat]. rewrite app_nil_r, splitlines_keepends_unterminated by done.
    done.
  - apply Forall_cons in Hall as [Hl0 Hrest]. specialize (IH Hrest).
    cbn [concat].
    destruct (splitlines_keepends_terminated l (concat ls) Hl)
      as [->|(b & rest' & -> & Hcat & ->)].
    + by constructor.
    + rewrite Hcat in IH.
      constructor; [by apply HP|].
      rewrite splitlines_keepends_cons_break in IH by done.
      destruct rest' as [|c' r]; [constructor|].
      cbn [N.eqb andb] in IH. by apply Forall_cons in IH as [_ ?].
Qed.

Lemma lines_ok_filter (P : pystr → Prop) `{∀ l, Decision (P l)} ls :
  lines_ok ls → lines_ok (filter P ls).
Proof.
  induction ls as [|l ls IH]; intros Hok; [constructor|].
  pose proof (lines_ok_tail _ _ Hok) as Htl.
  rewrite filter_cons. destruct (decide (P l)); [|by apply IH].
  destruct ls as [|l' ls]; [done|].
  destruct (filter P (l' :: ls)) as [|k ks] eqn:E.
  - inversion Hok; subst.
    apply lines_ok_cons; [done|constructor].
  - apply lines_ok_cons; [by eapply lines_ok_head|]. by apply IH.
Qed.

Lemma indented_crlf b :
  _INDENTED_CODE_RE (b ++ [CR]) = false →
  _INDENTED_CODE_RE ((b ++ [CR]) ++ [LF]) = false.
Proof.
  unfold _INDENTED_CODE_RE.
  destruct b as [|c1 [|c2 [|c3 [|c4 b]]]]; cbn [app startswith];
    intros H; try done.
  all: revert H;
    repeat match goal with
           | |- context [?a =? ?b] => destruct (a =? b)
           end; try done.
Qed.

Lemma strip_indented_code_blocks_clean text :
  Forall (λ line, _INDENTED_CODE_RE line = false)
         (splitlines_keepends (strip_indented_code_blocks text)).
Proof.
  unfold strip_indented_code_blocks.
  apply (lines_concat_Forall (λ line, _INDENTED_CODE_RE line = false)).
  - apply indented_crlf.
  - apply (lines_ok_filter _), splitlines_keepends_ok.
  - apply Forall_forall. by intros l [? _]%list_elem_of_filter.
Qed.

(** X8. No line of what [strip_indented_code_blocks] returns begins with a
    tab or four spaces, and stripping again changes nothing. *)
Theorem strip_indented_code_blocks_idempotent (text : pystr) :
  Forall (λ line, _INDENTED_CODE_RE line = false)
         (splitlines_keepends (strip_indented_code_blocks text)) ∧
  strip_indented_code_blocks (strip_indented_code_blocks text) =
  strip_indented_code_blocks text.
Proof.
  split; [apply strip_indented_code_blocks_clean|].
  apply strip_indented_code_blocks_plain, strip_indented_code_blocks_clean.
Qed.

Lemma mask_inline_code_spans_span_witness :
  _mask_inline_code_spans (py "see ``<!-- x`` ok") = py "see            ok".
Proof.
  apply (mask_inline_code_spans_span 2 (py "see ") (py "<!-- x") (py " ok")).
  - lia.
  - apply (bool_decide_unpack _). vm_compute. reflexivity.
  - apply (bool_decide_unpack _). vm_compute. reflexivity.
  - apply (bool_decide_unpack _). vm_compute. reflexivity.
  - vm_compute. discriminate.
  - vm_compute. discriminate.
Defined.

Lemma strip_html_comment_blocks_code_span_witness :
  strip_html_comment_blocks (py "use `<!-- x -->` here") =
  py "use `<!-- x -->` here".
Proof.
  apply (strip_html_comment_blocks_code_span 1 (py "use ") (py "<!-- x -->")
           (py " here")).
  - lia.
  - apply (bool_decide_unpack _). vm_compute. reflexivity.
  - apply (bool_decide_unpack _). vm_compute. reflexivity.
  - apply (bool_decide_unpack _). vm_compute. reflexivity.
  - vm_compute. discriminate.
  - apply (bool_decide_unpack _). vm_compute. reflexivity.
  - vm_compute. reflexivity.
  - vm_compute. reflexivity.
Defined.

Lemma strip_html_comment_blocks_matched_witness :
  strip_html_comment_blocks (py "a <!-- b --> c") = py "a  c".
Proof.
  apply (strip_html_comment_blocks_matched (py "a ") (py " b ") (py " c")).
  - apply (bool_decide_unpack _). vm_compute. reflexivity.
  - apply (bool_decide_unpack _). vm_compute. reflexivity.
  - apply (bool_decide_unpack _). vm_compute. reflexivity.
  - vm_compute. reflexivity.
  - vm_compute. reflexivity.
  - vm_compute. reflexivity.
Defined.

Lemma strip_html_comment_blocks_unclosed_witness :
  strip_html_comment_blocks (py "a --> b <!-- c") = py "a --> b ".
Proof.
  apply (strip_html_comment_blocks_unclosed (py "a --> b <!-- c") 8).
  - apply (bool_decide_unpack _). vm_compute. reflexivity.
  - vm_compute. reflexivity.
  - vm_compute. reflexivity.
Defined.

End MdSanitizeMoreFacts.

(** * Facts about the approval record and the branch *)
Module ApprovalRecordFacts.
Import PyFacts PyMoreFacts JsonFacts.

Lemma is_none_true v : is_none v = true ↔ v = JNull.
Proof. by destruct v. Qed.

Lemma as_nonempty_str_inv v s :
  as_nonempty_str v = Some s → v = JStr s ∧ s ≠ [].
Proof. destruct v as [| | | |[|c t]| |]; try done. by intros [= <-]. Qed.

Lemma json_eq_str same_nan s t : json_eq same_nan (JStr s) (JStr t) = str_eqb s t.
Proof. done. Qed.

Lemma json_eq_str_l same_nan s v :
  json_eq same_nan (JStr s) v = true → v = JStr s.
Proof.
  destruct v; try done. rewrite json_eq_str. by intros ->%str_eqb_eq.
Qed.

Lemma pick_estimate_hash_field_hash obj field value :
  pick_estimate_hash_field obj = inr (field, value) → value ≠ [].
Proof.
  unfold pick_estimate_hash_field.
  destruct (_ && _); [done|]. destruct (_ && _); [done|].
  destruct (as_nonempty_str _) as [v|] eqn:Ev; [|done]. intros [= <- <-].
  by apply as_nonempty_str_inv in Ev as [_ ?].
Qed.

(** X9. What [pick_estimate_hash_field] returns is the non-empty string
    under the key it names; the key is [estimate_hash] whenever that key
    has a value, and [estimate_sha256] otherwise; a second hash that is
    there is the same string. *)
Theorem pick_estimate_hash_field_returns
    (obj : list (pystr * json)) (field value : pystr) :
  pick_estimate_hash_field obj = inr (field, value) →
  get field obj = JStr value ∧ value ≠ [] ∧
  (field = K_ESTIMATE_HASH ∨
   field = K_ESTIMATE_SHA256 ∧ get K_ESTIMATE_HASH obj = JNull) ∧
  (get K_ESTIMATE_HASH obj = JNull ∨ get K_ESTIMATE_HASH obj = JStr value) ∧
  (get K_ESTIMATE_SHA256 obj = JNull ∨ get K_ESTIMATE_SHA256 obj = JStr value).
Proof.
  unfold pick_estimate_hash_field.
  destruct (is_none (get K_ESTIMATE_HASH obj)) eqn:E1;
    destruct (is_none (get K_ESTIMATE_SHA256 obj)) eqn:E2; cbn [negb andb].
  - done.
  - apply is_none_true in E1.
    destruct (as_nonempty_str _) as [v|] eqn:Ev; [|done]. intros [= <- <-].
    apply as_nonempty_str_inv in Ev as [Hv ?]. rewrite Hv. auto 10.
  - apply is_none_true in E2.
    destruct (as_nonempty_str _) as [v|] eqn:Ev; [|done]. intros [= <- <-].
    apply as_nonempty_str_inv in Ev as [Hv ?]. rewrite Hv. auto 10.
  - destruct (json_eq false _ _) eqn:Eq; cbn [negb]; [|done].
    destruct (as_nonempty_str _) as [v|] eqn:Ev; [|done]. intros [= <- <-].
    apply as_nonempty_str_inv in Ev as [Hv ?]. rewrite Hv in *.
    apply json_eq_str_l in Eq. rewrite Eq. auto 10.
Qed.

Lemma match_chars_cons f classes s rest :
  match_chars (f :: classes) s = Some rest →
  ∃ c s', s = c :: s' ∧ f c = true ∧ match_chars classes s' = Some rest.
Proof.
  cbn [match_chars]. destruct s as [|c s']; [done|].
  destruct (f c) eqn:E; [|done]. eauto.
Qed.

Lemma is_char_true x c : is_char x c = true → c = x.
Proof. apply N.eqb_eq. Qed.

Lemma at_end_inv s : at_end s = true → s = [] ∨ s = [LF].
Proof.
  destruct s as [|c [|c' s]]; try done; [by left|].
  cbn. intros ->%N.eqb_eq. by right.
Qed.

(** The strings that the timestamp pattern matches. *)
Lemma approved_at_matches_shape s :
  approved_at_matches s = true →
  timestamp_shape s ∨ ∃ t, s = t ++ [LF] ∧ timestamp_shape t.
Proof.
  unfold approved_at_matches, timestamp_classes.
  destruct (match_chars _ s) as [rest|] eqn:E; [|done].
  repeat match type of E with
         | match_chars (_ :: _) _ = Some _ =>
             apply match_chars_cons in E as (? & ? & -> & ? & E)
         end.
  cbn [match_chars] in E. injection E as ->.
  repeat match goal with
         | H : is_char _ _ = true |- _ => apply is_char_true in H as ->
         end.
  intros [->| ->]%at_end_inv.
  - left. do 14 eexists. split; [reflexivity|].
    repeat (constructor; [assumption|]). constructor.
  - right.
    match goal with
    | |- ∃ t, ?l = t ++ [LF] ∧ _ =>
        exists (removelast l); cbn [removelast]; split; [reflexivity|]
    end.
    do 14 eexists. split; [reflexivity|].
    repeat (constructor; [assumption|]). constructor.
Qed.

Lemma missing_keys_nil req d k :
  missing_keys req d = [] → k ∈ req → k ∈ d.*1.
Proof.
  unfold missing_keys. intros Hm Hk.
  destruct (has_key k d) eqn:E; [by apply has_key_elem_of|].
  assert (k ∈ filter (λ k, has_key k d = false) req) as Hin
    by (by apply list_elem_of_filter).
  rewrite Hm in Hin. by apply elem_of_nil in Hin.
Qed.

Lemma extra_keys_nil req d k :
  extra_keys req d = [] → k ∈ d.*1 → k ∈ req.
Proof.
  unfold extra_keys. intros He%sorted_nil%remove_dups_nil Hk.
  destruct (str_in k req) eqn:E; [by apply str_in_elem_of|].
  assert (k ∈ filter (λ k, str_in k req = false) d.*1) as Hin
    by (by apply list_elem_of_filter).
  rewrite He in Hin. by apply elem_of_nil in Hin.
Qed.

Lemma in_strs_inv v xs : in_strs v xs = true → ∃ s, v = JStr s ∧ s ∈ xs.
Proof.
  destruct v as [| | | |s| |]; try done. intros H%str_in_elem_of. eauto.
Qed.

Lemma validate_approval_None obj expected :
  validate_approval obj expected = None →
  ∃ field hash mode approved_at approver,
    pick_estimate_hash_field obj = inr (field, hash) ∧
    missing_keys approval_required obj = [] ∧
    extra_keys (approval_required ++ extra_allowed) obj = [] ∧
    eq_int (get K_SCHEMA_VERSION obj) 1 = true ∧
    as_int (get K_ISSUE_NUMBER obj) = Some expected ∧
    get K_MODE obj = JStr mode ∧ mode ∈ MODE_ALLOWED ∧
    get K_APPROVED_AT obj = JStr approved_at ∧
    approved_at_matches approved_at = true ∧
    get K_APPROVER obj = JStr approver ∧ approver ≠ [].
Proof.
  unfold validate_approval. case_bool_decide as Hmiss; [done|].
  destruct (pick_estimate_hash_field obj) as [e|[field hash]] eqn:Hpick; [done|].
  case_bool_decide as Hextra; [done|].
  destruct (eq_int (get K_SCHEMA_VERSION obj) 1) eqn:Hver; [|done].
  cbn [negb].
  destruct (as_int (get K_ISSUE_NUMBER obj)) as [n|] eqn:Hn; [|done].
  destruct (Z.eqb_spec n expected) as [->|]; [|done]. cbn [negb].
  destruct (in_strs (get K_MODE obj) MODE_ALLOWED) eqn:Hmode; [|done].
  apply in_strs_inv in Hmode as (mode & Hmode & Hallowed). cbn [negb].
  destruct (as_nonempty_str (get K_APPROVED_AT obj)) as [at_|] eqn:Hat; [|done].
  apply as_nonempty_str_inv in Hat as [Hat _].
  destruct (approved_at_matches at_) eqn:Hmatch; [|done]. cbn [negb].
  case_bool_decide as Happrover; [done|]. intros _.
  destruct (as_nonempty_str (get K_APPROVER obj)) as [approver|] eqn:Ha; [|done].
  apply as_nonempty_str_inv in Ha as [Ha ?].
  exists field, hash, mode, at_, approver. by split_and!.
Qed.

(** X10. An approval record that [validate_approval] lets pass has the
    required keys and, beside them, only the two hash keys; its version
    is 1, its issue number the expected one, its mode one of the three
    allowed, its time of approval a timestamp [YYYY-MM-DDTHH:mm:ssZ] of
    decimal digits (after which one newline may come), its approver a
    non-empty string, and its hash a non-empty string. *)
Theorem validate_approval_accepts
    (obj : list (pystr * json)) (expected_issue_number : Z) :
  validate_approval obj expected_issue_number = None →
  ∃ field hash mode approved_at approver,
    pick_estimate_hash_field obj = inr (field, hash) ∧ hash ≠ [] ∧
    (∀ k, k ∈ approval_required → k ∈ obj.*1) ∧
    (∀ k, k ∈ obj.*1 → k ∈ approval_required ++ extra_allowed) ∧
    eq_int (get K_SCHEMA_VERSION obj) 1 = true ∧
    as_int (get K_ISSUE_NUMBER obj) = Some expected_issue_number ∧
    get K_MODE obj = JStr mode ∧ mode ∈ MODE_ALLOWED ∧
    get K_APPROVED_AT obj = JStr approved_at ∧
    (timestamp_shape approved_at ∨
     ∃ t, approved_at = t ++ [LF] ∧ timestamp_shape t) ∧
    get K_APPROVER obj = JStr approver ∧ approver ≠ [].
Proof.
  intros (field & hash & mode & at_ & approver & Hpick & Hm & He & ? & ? & ?
          & ? & ? & Hat & ? & ?)%validate_approval_None.
  exists field, hash, mode, at_, approver. split_and!; try done.
  - by apply pick_estimate_hash_field_hash in Hpick.
  - intros k. by apply missing_keys_nil.
  - intros k. by apply extra_keys_nil.
  - by apply approved_at_matches_shape.
Qed.

Lemma match_chars_replicate f h :
  Forall (λ c, f c = true) h → match_chars (replicate (length h) f) h = Some [].
Proof.
  induction 1 as [|c h Hc _ IH]; [done|].
  cbn [length replicate match_chars]. by rewrite Hc.
Qed.

Lemma sha256_matches_prefixed h :
  length h = 64%nat → Forall (λ c, is_lower_hex c = true) h →
  sha256_matches (SHA256_PREFIX ++ h) = true.
Proof.
  intros Hlen Hhex. unfold sha256_matches.
  rewrite startswith_app, drop_app_length, <-Hlen.
  by rewrite match_chars_replicate.
Qed.

(** X11. With a digest function that returns 64 lower-case hexadecimal
    digits, as [hashlib] does, the gate passes exactly when the record is
    a valid approval of the issue whose hash is the hash computed from the
    estimate. *)
Theorem check_approval_passes
    (sha256_hexdigest : list byte → pystr)
    (data : json) (issue_number : Z) (estimate_text computed : pystr) :
  (∀ bytes, length (sha256_hexdigest bytes) = 64%nat ∧
            Forall (λ c, is_lower_hex c = true) (sha256_hexdigest bytes)) →
  computed_hash sha256_hexdigest estimate_text = Some computed →
  check_approval data issue_number computed = GatePass ↔
  ∃ obj field,
    data = JDict obj ∧ validate_approval obj issue_number = None ∧
    pick_estimate_hash_field obj = inr (field, computed).
Proof.
  intros Hsha Hcomputed. unfold check_approval. split.
  - destruct data as [| | | | | |obj]; try done.
    destruct (validate_approval obj issue_number) eqn:Hv; [done|].
    destruct (pick_estimate_hash_field obj) as [e|[field recorded]] eqn:Hpick;
      [done|].
    destruct (sha256_matches recorded); [|done]. cbn [negb].
    destruct (str_eqb recorded computed) eqn:E; [|done].
    apply str_eqb_eq in E as ->. intros _. by exists obj, field.
  - intros (obj & field & -> & -> & ->).
    unfold computed_hash in Hcomputed.
    destruct (normalize_text_for_hash estimate_text) as [bytes|]; [|done].
    injection Hcomputed as <-. unfold sha256_prefixed.
    destruct (Hsha bytes) as [Hlen Hhex].
    rewrite sha256_matches_prefixed by done. cbn [negb].
    by rewrite (proj2 (str_eqb_eq _ _) eq_refl).
Qed.

(** ** The issue number of a branch *)


Lemma ascii_digit_cases c :
  ascii_digit c = true →
  c = 48 ∨ c = 49 ∨ c = 50 ∨ c = 51 ∨ c = 52 ∨ c = 53 ∨ c = 54 ∨ c = 55
  ∨ c = 56 ∨ c = 57.
Proof.
  unfold ascii_digit. rewrite andb_true_iff, !N.leb_le. lia.
Qed.

Lemma ascii_digit_facts c :
  ascii_digit c = true →
  digit_value c = Some (c - 48) ∧ isdigit c = true ∧ is_word c = true ∧
  int_space c = false ∧ c ≠ 45 ∧ c ≠ 43 ∧ c ≠ 95.
Proof.
  intros H%ascii_digit_cases.
  repeat destruct H as [->|H]; try subst c; by vm_compute.
Qed.

Lemma issue_search_None before s :
  find_sub ISSUE_PREFIX s = None → issue_search before s = None.
Proof.
  revert before. induction s as [|c s IH]; intros before H.
  - cbn. unfold issue_at. by rewrite andb_false_r.
  - cbn [issue_search]. unfold issue_at.
    rewrite (find_sub_None_startswith _ _ H), andb_false_r.
    apply IH. by eapply find_sub_None_cons.
Qed.

(** Every decimal digit is a word character. *)
Lemma isdigit_is_word c : isdigit c = true → is_word c = true.
Proof.
  unfold isdigit, digit_value. intros H%bool_decide_eq_true.
  destruct (find _ decimal_digit_runs) as [s|] eqn:E; [|by destruct H].
  apply find_some in E as [Hs Hc].
  apply andb_true_iff in Hc as [Hlo%N.leb_le Hhi%N.ltb_lt].
  assert (forallb (λ s, existsb (λ '(a, b), (a <=? s) && (s + 9 <=? b))
                          alnum_ranges) decimal_digit_runs = true) as Hall
    by (vm_compute; reflexivity).
  rewrite forallb_forall in Hall. specialize (Hall s Hs).
  apply existsb_exists in Hall as ([a b] & Hab & Hin).
  apply andb_true_iff in Hin as [Ha%N.leb_le Hb%N.leb_le].
  unfold is_word. apply orb_true_iff. right.
  apply existsb_exists. exists (a, b). split; [done|].
  apply andb_true_iff. split; apply N.leb_le; lia.
Qed.

Lemma issue_search_prefix before a s :
  (∀ k, (k < length a)%nat → startswith ISSUE_PREFIX (drop k (a ++ s)) = false) →
  issue_search before (a ++ s) =
  issue_search (match last a with Some c => Some c | None => before end) s.
Proof.
  revert before. induction a as [|c a IH]; intros before H; [done|].
  pose proof (H 0%nat) as H0. cbn [drop app length] in H0.
  cbn [app issue_search]. unfold issue_at at 1.
  rewrite H0 by lia. rewrite andb_false_r.
  rewrite IH by (intros k Hk; apply (H (S k)); cbn; lia).
  f_equal. rewrite last_cons. by destruct (last a).
Qed.

Lemma take_while_digits ds q :
  Forall (λ c, ascii_digit c = true) ds →
  from_option is_word false (head q) = false →
  take_while isdigit (ds ++ q) = ds.
Proof.
  intros Hds Hq. induction Hds as [|c ds Hc _ IH]; cbn [app take_while].
  - destruct q as [|x q]; [done|]. cbn in Hq. cbn [take_while].
    destruct (isdigit x) eqn:E; [|done].
    apply isdigit_is_word in E. congruence.
  - destruct (ascii_digit_facts c Hc) as (_ & -> & _). by rewrite IH.
Qed.

Lemma int_digits_decimal acc count ds :
  ds ≠ [] → Forall (λ c, ascii_digit c = true) ds →
  int_digits acc count ds =
  Some (foldl (λ acc c, acc * 10 + (c - 48)) acc ds, (count + length ds)%nat).
Proof.
  intros Hne Hds. revert acc count.
  induction Hds as [|c ds Hc Hds IH]; intros acc count; [done|].
  destruct (ascii_digit_facts c Hc) as (Hv & _).
  cbn [int_digits foldl length]. rewrite Hv.
  destruct ds as [|c' ds]; [cbn; do 2 f_equal; lia|].
  apply Forall_cons in Hds as [Hc' _].
  destruct (ascii_digit_facts c' Hc') as (_ & _ & _ & _ & _ & _ & H95).
  destruct (N.eqb_spec c' 95); [done|].
  rewrite IH by done. f_equal. f_equal. cbn. lia.
Qed.

Lemma drop_while_head (f : char → bool) c s :
  f c = false → drop_while f (c :: s) = c :: s.
Proof. intros H. cbn. by rewrite H. Qed.

Lemma py_int_decimal ds :
  ds ≠ [] → Forall (λ c, ascii_digit c = true) ds →
  (length ds ≤ int_max_str_digits)%nat →
  py_int ds = Some (Z.of_N (decimal ds)).
Proof.
  intros Hne Hds Hlen. unfold py_int.
  assert (reverse (drop_while int_space (reverse (drop_while int_space ds)))
          = ds) as ->.
  { destruct ds as [|c ds]; [done|].
    pose proof Hds as [Hc _]%Forall_cons.
    destruct (ascii_digit_facts c Hc) as (_ & _ & _ & Hsp & _).
    rewrite drop_while_head by done.
    destruct (reverse (c :: ds)) as [|x r] eqn:E.
    { apply (f_equal reverse) in E. by rewrite reverse_involutive in E. }
    assert (x ∈ c :: ds) as Hx.
    { rewrite <-(reverse_involutive (c :: ds)), E.
      apply elem_of_reverse. by left. }
    rewrite Forall_forall in Hds.
    destruct (ascii_digit_facts x (Hds x Hx)) as (_ & _ & _ & Hspx & _).
    rewrite drop_while_head by done.
    by rewrite <-E, reverse_involutive. }
  destruct ds as [|c ds]; [done|].
  pose proof Hds as [Hc _]%Forall_cons.
  destruct (ascii_digit_facts c Hc) as (_ & _ & _ & _ & H45 & H43 & _).
  destruct (N.eqb_spec c 45); [done|]. destruct (N.eqb_spec c 43); [done|].
  rewrite int_digits_decimal by done.
  cbn [Nat.add]. destruct (Nat.leb_spec (length (c :: ds)) int_max_str_digits);
    [done|lia].
Qed.

Lemma issue_at_match before ds q :
  from_option is_word false before = false →
  ds ≠ [] → Forall (λ c, ascii_digit c = true) ds →
  from_option is_word false (head q) = false →
  issue_at before (ISSUE_PREFIX ++ ds ++ q) = Some ds.
Proof.
  intros Hb Hne Hds Hq. unfold issue_at.
  rewrite startswith_app, drop_app_length.
  assert (word_boundary before (head (ISSUE_PREFIX ++ ds ++ q)) = true) as ->.
  { unfold word_boundary. rewrite Hb. done. }
  cbn [andb]. rewrite take_while_digits by done.
  destruct ds as [|c ds']; [done|]. set (ds := c :: ds') in *.
  rewrite drop_app_length.
  assert (from_option is_word false (last ds) = true) as Hlast.
  { destruct (last ds) as [x|] eqn:El.
    - apply last_Some_elem_of in El. rewrite Forall_forall in Hds.
      by destruct (ascii_digit_facts x (Hds x El)) as (_ & _ & ? & _).
    - apply last_None in El. congruence. }
  unfold word_boundary. by rewrite Hlast, Hq.
Qed.

(** X12. A branch name in which [issue-] does not occur has no issue number
    (the gate is not enforced on it). In a branch name whose first
    [issue-] begins the name or follows a character that is no word
    character, and is followed by at most 4300 ASCII digits and then by the
    end of the name or by a character that is no word character, the number
    that the digits denote is the issue number. *)
Theorem extract_issue_number_from_branch_spec :
  (∀ branch, find_sub ISSUE_PREFIX branch = None →
     extract_issue_number_from_branch branch = None) ∧
  (∀ p ds q,
     find_sub ISSUE_PREFIX (p ++ ISSUE_PREFIX) = Some (length p) →
     from_option is_word false (last p) = false →
     ds ≠ [] → Forall (λ c, ascii_digit c = true) ds →
     (length ds ≤ 4300)%nat →
     from_option is_word false (head q) = false →
     extract_issue_number_from_branch (p ++ ISSUE_PREFIX ++ ds ++ q) =
     Some (Z.of_N (decimal ds))).
Proof.
  split.
  - intros branch H. unfold extract_issue_number_from_branch.
    by rewrite issue_search_None.
  - intros p ds q Hfirst Hp Hne Hds Hlen Hq.
    unfold extract_issue_number_from_branch.
    rewrite (issue_search_prefix None).
    2:{ intros k Hk. rewrite app_assoc, drop_app_le by (rewrite length_app; lia).
        rewrite startswith_app_l.
        - by apply (find_sub_Some_first _ _ _ _ Hfirst).
        - rewrite length_drop, length_app. lia. }
    assert (issue_search (match last p with Some c => Some c | None => None end)
              (ISSUE_PREFIX ++ ds ++ q) = Some ds) as ->.
    { assert (match last p with Some c => Some c | None => None end = last p)
        as -> by (by destruct (last p)).
      destruct (ISSUE_PREFIX ++ ds ++ q) eqn:E;
        cbn [issue_search]; rewrite <-E; by rewrite issue_at_match. }
    rewrite py_int_decimal by done.
    destruct (Z.ltb_spec (Z.of_N (decimal ds)) 0); [lia|done].
Qed.

Lemma extract_issue_number_from_branch_spec_witness :
  extract_issue_number_from_branch (py "docs-only") = None ∧
  extract_issue_number_from_branch (py "feature/issue-42-login") = Some 42%Z.
Proof.
  destruct extract_issue_number_from_branch_spec as [H1 H2]. split.
  - apply H1. vm_compute. reflexivity.
  - apply (H2 (py "feature/") (py "42") (py "-login")).
    + vm_compute. reflexivity.
    + vm_compute. reflexivity.
    + vm_compute. discriminate.
    + repeat constructor.
    + vm_compute. lia.
    + vm_compute. reflexivity.
Defined.

(** The cases of the repository's test of the same function in
    [scripts/agentic-sdd/validate-worktree.py]. *)
Example test_extract_issue_number_from_branch :
  extract_issue_number_from_branch (py "feature/issue-120-foo") = Some 120%Z ∧
  extract_issue_number_from_branch (py "hotfix/issue-1") = Some 1%Z ∧
  extract_issue_number_from_branch (py "feature/no-issue") = None.
Proof. by vm_compute. Qed.

Lemma pick_estimate_hash_field_returns_witness :
  get K_ESTIMATE_SHA256 [(K_ESTIMATE_SHA256, JStr (py "sha256:ab"))]
    = JStr (py "sha256:ab") ∧
  get K_ESTIMATE_HASH [(K_ESTIMATE_SHA256, JStr (py "sha256:ab"))] = JNull.
Proof.
  destruct (pick_estimate_hash_field_returns
              [(K_ESTIMATE_SHA256, JStr (py "sha256:ab"))]
              K_ESTIMATE_SHA256 (py "sha256:ab"))
    as (H1 & _ & [H2|[_ H2]] & _); [reflexivity|discriminate H2|].
  split; [exact H1|exact H2].
Defined.

Lemma validate_approval_accepts_witness :
  ∃ field hash mode approved_at approver,
    pick_estimate_hash_field (approval_record (py "sha256:ab")) = inr (field, hash) ∧
    hash ≠ [] ∧
    (∀ k, k ∈ approval_required → k ∈ (approval_record (py "sha256:ab")).*1) ∧
    (∀ k, k ∈ (approval_record (py "sha256:ab")).*1 →
          k ∈ approval_required ++ extra_allowed) ∧
    eq_int (get K_SCHEMA_VERSION (approval_record (py "sha256:ab"))) 1 = true ∧
    as_int (get K_ISSUE_NUMBER (approval_record (py "sha256:ab"))) = Some 7%Z ∧
    get K_MODE (approval_record (py "sha256:ab")) = JStr mode ∧
    mode ∈ MODE_ALLOWED ∧
    get K_APPROVED_AT (approval_record (py "sha256:ab")) = JStr approved_at ∧
    (timestamp_shape approved_at ∨
     ∃ t, approved_at = t ++ [LF] ∧ timestamp_shape t) ∧
    get K_APPROVER (approval_record (py "sha256:ab")) = JStr approver ∧
    approver ≠ [].
Proof.
  apply (validate_approval_accepts (approval_record (py "sha256:ab")) 7).
  vm_compute. reflexivity.
Defined.

Lemma check_approval_passes_witness :
  check_approval
    (JDict (approval_record (SHA256_PREFIX ++ replicate 64 48))) 7
    (SHA256_PREFIX ++ replicate 64 48) = GatePass.
Proof.
  apply (check_approval_passes (λ _, replicate 64 48) _ 7 (py "estimate")
           (SHA256_PREFIX ++ replicate 64 48)).
  - intros bytes. split; [reflexivity|].
    apply Forall_forall. intros c ->%elem_of_replicate_inv. reflexivity.
  - reflexivity.
  - eexists _, K_ESTIMATE_HASH. split_and!; [reflexivity| |].
    + vm_compute. reflexivity.
    + vm_compute. reflexivity.
Defined.

End ApprovalRecordFacts.

(** * Further facts about [validate-review-json.py] *)
Module ValidateReviewMoreFacts.
Import PyFacts JsonFacts ValidateReviewFacts.

(** X13. The two checks of a repository-relative path, the one of the
    reference resolver and the one of the review validator, accept the
    same paths. *)
Theorem is_repo_relative_path_agrees (path : pystr) :
  is_repo_relative_path path = is_safe_repo_relative path.
Proof.
  unfold is_repo_relative_path, is_safe_repo_relative.
  destruct path as [|c path]; [done|].
  destruct (startswith [SLASH] (c :: path)); [done|].
  destruct (str_in (c :: path) [DOT; DOTDOT]),
    (str_in DOTDOT (filter _ _)); done.
Qed.

Lemma when_nil cond e : when cond e = [] ↔ cond = false.
Proof. unfold when. by destruct cond. Qed.

(** No key is missing and none is unexpected: the keys are the required
    ones. *)
Lemma keys_exact req d :
  missing_keys req d = [] → extra_keys req d = [] → keys_are d req.
Proof.
  unfold missing_keys, extra_keys. intros Hm He k. split.
  - intros Hk. apply sorted_nil, remove_dups_nil in He.
    destruct (str_in k req) eqn:E; [by apply str_in_elem_of|].
    assert (k ∈ filter (λ k, str_in k req = false) d.*1) as Hin
      by (by apply list_elem_of_filter).
    rewrite He in Hin. by apply elem_of_nil in Hin.
  - intros Hk. destruct (has_key k d) eqn:E; [by apply has_key_elem_of|].
    assert (k ∈ filter (λ k, has_key k d = false) req) as Hin
      by (by apply list_elem_of_filter).
    rewrite Hm in Hin. by apply elem_of_nil in Hin.
Qed.

Local Ltac split_nil H :=
  repeat match type of H with
         | _ ++ _ = [] => apply app_eq_nil in H as [? H]
         end;
  repeat match goal with
         | H' : _ ++ _ = [] |- _ => apply app_eq_nil in H' as [? ?]
         end.

Lemma not_nil_false {A} (l : list A) : bool_decide (l ≠ []) = false → l = [].
Proof.
  intros H. apply bool_decide_eq_false in H.
  destruct l; [done|]. by destruct H.
Qed.

Lemma validate_line_range_nil idx v :
  validate_line_range idx v = [] →
  ∃ lr a b, v = JDict lr ∧ keys_are lr required_line_range_keys ∧
    as_int (get K_START lr) = Some a ∧ as_int (get K_END lr) = Some b ∧
    (1 ≤ a ≤ b)%Z.
Proof.
  unfold validate_line_range. destruct v as [| | | | | |lr]; try done.
  intros H. split_nil H.
  repeat match goal with
         | H : when _ _ = [] |- _ => apply when_nil in H
         end.
  destruct (as_int (get K_START lr)) as [a|] eqn:Ha; [|done].
  destruct (as_int (get K_END lr)) as [b|] eqn:Hb; [|done].
  exists lr, a, b. split_and!; try done.
  - by apply keys_exact; apply not_nil_false.
  - lia.
  - lia.
Qed.

Lemma validate_code_location_nil idx v :
  validate_code_location idx v = [] →
  ∃ cl lr path a b, v = JDict cl ∧ keys_are cl required_code_location_keys ∧
    get K_PATH cl = JStr path ∧ is_repo_relative_path path = true ∧
    get K_LINE_RANGE cl = JDict lr ∧ keys_are lr required_line_range_keys ∧
    as_int (get K_START lr) = Some a ∧ as_int (get K_END lr) = Some b ∧
    (1 ≤ a ≤ b)%Z.
Proof.
  unfold validate_code_location. destruct v as [| | | | | |cl]; try done.
  intros H. split_nil H.
  repeat match goal with
         | H : when _ _ = [] |- _ => apply when_nil in H
         end.
  apply validate_line_range_nil in H as (lr & a & b & ? & ? & ? & ? & ?).
  destruct (get K_PATH cl) as [| | | |path| |] eqn:Hpath; try done.
  exists cl, lr, path, a, b. split_and!; try done; try lia.
  - by apply keys_exact; apply not_nil_false.
  - by apply negb_false_iff.
Qed.

Lemma as_nonempty_str_Some v s :
  as_nonempty_str v = Some s → v = JStr s ∧ s ≠ [].
Proof. destruct v as [| | | |[|c t]| |]; try done. by intros [= <-]. Qed.

Lemma in_strs_true v xs : in_strs v xs = true → ∃ s, v = JStr s ∧ s ∈ xs.
Proof.
  destruct v as [| | | |s| |]; try done. intros H%str_in_elem_of. eauto.
Qed.

Lemma validate_finding_nil idx f : validate_finding idx f = [] → accepted_finding f.
Proof.
  unfold validate_finding. destruct f as [| | | | | |d]; try done.
  intros H. split_nil H.
  repeat match goal with
         | H : when _ _ = [] |- _ => apply when_nil in H
         end.
  apply validate_code_location_nil in H
    as (cl & lr & path & a & b & ? & ? & ? & ? & ? & ? & ? & ? & ?).
  destruct (as_nonempty_str (get K_TITLE d)) as [title|] eqn:Ht; [|done].
  apply as_nonempty_str_Some in Ht as [? ?].
  destruct (as_nonempty_str (get K_BODY d)) as [body|] eqn:Hb;
    [|by match goal with H : bool_decide _ = false |- _ =>
              apply bool_decide_eq_false in H end].
  apply as_nonempty_str_Some in Hb as [? ?].
  match goal with H : negb (in_strs _ _) = false |- _ =>
    apply negb_false_iff, in_strs_true in H as (priority & ? & ?) end.
  exists d, cl, lr, title, body, priority, path, a, b.
  split_and!; try done; try lia.
  - apply keys_exact; [|by apply not_nil_false].
    by match goal with H : _ <$> _ = [] |- _ => apply fmap_nil_inv in H end.
  - match goal with H : when _ _ = [] |- _ => apply when_nil in H end.
    apply Nat.ltb_ge. done.
Qed.

Lemma concat_imap_nil {A B} (f : nat → A → list B) l :
  concat (imap f l) = [] → ∀ x, x ∈ l → ∃ i, f i x = [].
Proof.
  revert f. induction l as [|y l IH]; intros f H x Hx.
  - by apply elem_of_nil in Hx.
  - cbn [imap concat] in H. apply app_eq_nil in H as [H0 H].
    apply elem_of_cons in Hx as [->|Hx]; [by exists 0%nat|].
    destruct (IH _ H x Hx) as [i Hi]. by exists (S i).
Qed.

(** X14. A review that [validate_review] accepts, returning no error, is as
    the schema wants it: its keys are the required ones, the version is 3,
    the scope is a non-empty string (the expected one, if one is
    expected), the status is one of the four allowed strings, every finding
    is well formed, the questions are strings, and the constraint of the
    status on findings and questions holds. *)
Theorem validate_review_accepts
    (obj : list (pystr * json)) (expected_scope_id : option pystr) :
  validate_review obj expected_scope_id = Some [] →
  ∃ scope status fs qs,
    keys_are obj required ∧
    eq_int (get K_SCHEMA_VERSION obj) 3 = true ∧
    get K_SCOPE_ID obj = JStr scope ∧ scope ≠ [] ∧
    (∀ e, expected_scope_id = Some e → scope = e) ∧
    get K_STATUS obj = JStr status ∧ status ∈ STATUS_ALLOWED ∧
    get K_FINDINGS obj = JList fs ∧ Forall accepted_finding fs ∧
    get K_QUESTIONS obj = JList qs ∧ Forall (λ q, is_str q = true) qs ∧
    (∃ text, get K_OVERALL obj = JStr text ∧ text ≠ []) ∧
    (status = APPROVED → fs = [] ∧ qs = []) ∧
    (status = APPROVED_WITH_NITS →
       Forall (λ f, is_blocking f = false) fs ∧ qs = []) ∧
    (status = BLOCKED → Exists (λ f, is_blocking f = true) fs) ∧
    (status = QUESTION → qs ≠ []).
Proof.
  unfold validate_review. case_bool_decide as Hmiss; [done|].
  destruct (hashable (get K_STATUS obj)); [|done]. cbn [negb].
  intros [= H]. apply app_eq_nil in H as [Hf Hc].
  unfold field_errors in Hf. split_nil Hf.
  repeat match goal with
         | H : when _ _ = [] |- _ => apply when_nil in H
         end.
  destruct (as_nonempty_str (get K_SCOPE_ID obj)) as [scope|] eqn:Hscope; [|done].
  apply as_nonempty_str_Some in Hscope as [Hscope Hne].
  match goal with H : negb (in_strs (get K_STATUS obj) _) = false |- _ =>
    apply negb_false_iff, in_strs_true in H as (status & Hstatus & Hallowed) end.
  destruct (get K_FINDINGS obj) as [| | | | |fs|] eqn:Hfs; try done.
  destruct (get K_QUESTIONS obj) as [| | | | |qs|] eqn:Hqs; try done.
  match goal with H : negb (forallb is_str qs) = false |- _ =>
    apply negb_false_iff in H; rename H into Hstr end.
  destruct (as_nonempty_str (get K_OVERALL obj)) as [text|] eqn:Htext;
    [|by match goal with H : bool_decide (None = None) = false |- _ =>
              apply bool_decide_eq_false in H end].
  apply as_nonempty_str_Some in Htext as [Htext Htne].
  unfold checked_findings, checked_questions in *.
  rewrite Hfs in *. rewrite Hqs, Hstr, Hstatus in Hc.
  exists scope, status, fs, qs. split_and!; try done.
  - apply keys_exact; [done|by apply not_nil_false].
  - by apply negb_false_iff.
  - intros e ->.
    match goal with H : when (negb (str_eqb scope e)) _ = [] |- _ =>
      apply when_nil, negb_false_iff, str_eqb_eq in H end. done.
  - apply Forall_forall. intros f Hin.
    destruct (concat_imap_nil _ _ Hf f Hin) as [i Hi].
    by eapply validate_finding_nil.
  - apply Forall_forall. intros q Hq%list_elem_of_In.
    rewrite forallb_forall in Hstr. by apply Hstr.
  - by exists text.
  - intros ->. unfold cross_field_errors in Hc.
    change (is_the_str (JStr APPROVED) APPROVED) with true in Hc.
    split_nil Hc.
    repeat match goal with
           | H : when _ _ = [] |- _ => apply when_nil, negb_false_iff in H
           end.
    split; apply length_zero_iff_nil; by apply Nat.eqb_eq.
  - intros ->. unfold cross_field_errors in Hc.
    change (is_the_str (JStr APPROVED_WITH_NITS) APPROVED_WITH_NITS)
      with true in Hc.
    split_nil Hc.
    match goal with H : when (bool_decide _) _ = [] |- _ =>
      apply when_nil, not_nil_false in H; rename H into Hblock end.
    match goal with H : when (negb _) _ = [] |- _ =>
      apply when_nil, negb_false_iff, Nat.eqb_eq, length_zero_iff_nil in H end.
    split; [|done]. apply Forall_forall. intros f Hin.
    destruct (is_blocking f) eqn:E; [|done].
    assert (f ∈ filter (λ f, is_blocking f = true) fs) as Hf'
      by (by apply list_elem_of_filter).
    rewrite Hblock in Hf'. by apply elem_of_nil in Hf'.
  - intros ->. unfold cross_field_errors in Hc.
    change (is_the_str (JStr BLOCKED) BLOCKED) with true in Hc.
    split_nil Hc.
    match goal with H : when (bool_decide _) _ = [] |- _ =>
      apply when_nil, bool_decide_eq_false in H; rename H into Hblock end.
    destruct (filter (λ f, is_blocking f = true) fs) as [|f l] eqn:E; [done|].
    assert (f ∈ filter (λ f, is_blocking f = true) fs) as Hf'
      by (rewrite E; by left).
    apply list_elem_of_filter in Hf' as [? ?].
    apply Exists_exists. eauto.
  - intros ->. unfold cross_field_errors in Hc.
    change (is_the_str (JStr QUESTION) QUESTION) with true in Hc.
    split_nil Hc.
    apply when_nil in Hc. intros ->. done.
Qed.

Lemma validate_review_accepts_witness :
  ∃ scope status fs qs,
    keys_are (review_record BLOCKED [finding_of P0] []) required ∧
    eq_int (get K_SCHEMA_VERSION (review_record BLOCKED [finding_of P0] [])) 3
      = true ∧
    get K_SCOPE_ID (review_record BLOCKED [finding_of P0] []) = JStr scope ∧
    scope ≠ [] ∧
    (∀ e, Some (py "issue-1") = Some e → scope = e) ∧
    get K_STATUS (review_record BLOCKED [finding_of P0] []) = JStr status ∧
    status ∈ STATUS_ALLOWED ∧
    get K_FINDINGS (review_record BLOCKED [finding_of P0] []) = JList fs ∧
    Forall accepted_finding fs ∧
    get K_QUESTIONS (review_record BLOCKED [finding_of P0] []) = JList qs ∧
    Forall (λ q, is_str q = true) qs ∧
    (∃ text, get K_OVERALL (review_record BLOCKED [finding_of P0] [])
             = JStr text ∧ text ≠ []) ∧
    (status = APPROVED → fs = [] ∧ qs = []) ∧
    (status = APPROVED_WITH_NITS →
       Forall (λ f, is_blocking f = false) fs ∧ qs = []) ∧
    (status = BLOCKED → Exists (λ f, is_blocking f = true) fs) ∧
    (status = QUESTION → qs ≠ []).
Proof.
  apply (validate_review_accepts (review_record BLOCKED [finding_of P0] [])
           (Some (py "issue-1"))).
  vm_compute. reflexivity.
Defined.

Lemma cross_field_errors_nits findings questions :
  cross_field_errors (JStr APPROVED_WITH_NITS) findings questions =
  when (bool_decide (filter (λ f, is_blocking f = true) findings ≠ []))
       NitsWithBlocking
  ++ when (negb (length questions =? 0)%nat) NitsWithQuestions.
Proof.
  unfold cross_field_errors.
  change (is_the_str (JStr APPROVED_WITH_NITS) APPROVED) with false.
  change (is_the_str (JStr APPROVED_WITH_NITS) APPROVED_WITH_NITS) with true.
  change (is_the_str (JStr APPROVED_WITH_NITS) BLOCKED) with false.
  change (is_the_str (JStr APPROVED_WITH_NITS) QUESTION) with false.
  cbn [app]. by rewrite app_nil_r.
Qed.

Lemma cross_field_errors_question findings questions :
  cross_field_errors (JStr QUESTION) findings questions =
  when (length questions =? 0)%nat QuestionWithoutQuestions.
Proof.
  unfold cross_field_errors.
  change (is_the_str (JStr QUESTION) APPROVED) with false.
  change (is_the_str (JStr QUESTION) APPROVED_WITH_NITS) with false.
  change (is_the_str (JStr QUESTION) BLOCKED) with false.
  change (is_the_str (JStr QUESTION) QUESTION) with true.
  cbn [app]. done.
Qed.

(** X15. The constraints of the other two statuses. With every required key
    present, a review 'Approved with nits' that has a finding of priority
    P0 or P1, or a question, and a review 'Question' without a question
    (or whose questions are no list of strings) get the error of the
    constraint; in each case the review is not accepted. *)
Theorem validate_review_nits_and_question
    (obj : list (pystr * json)) (expected_scope_id : option pystr) :
  missing_keys required obj = [] →
  (get K_STATUS obj = JStr APPROVED_WITH_NITS →
     Exists (λ f, is_blocking f = true) (checked_findings obj) →
     ∃ errors, validate_review obj expected_scope_id = Some errors ∧
       NitsWithBlocking ∈ errors) ∧
  (get K_STATUS obj = JStr APPROVED_WITH_NITS →
     checked_questions obj ≠ [] →
     ∃ errors, validate_review obj expected_scope_id = Some errors ∧
       NitsWithQuestions ∈ errors) ∧
  (get K_STATUS obj = JStr QUESTION →
     checked_questions obj = [] →
     ∃ errors, validate_review obj expected_scope_id = Some errors ∧
       QuestionWithoutQuestions ∈ errors).
Proof.
  intros Hm. split_and!.
  - intros Hs Hex. rewrite (validate_review_returns _ _ _ Hm Hs).
    eexists. split; [done|]. rewrite cross_field_errors_nits, !elem_of_app.
    right. left. rewrite bool_decide_eq_true_2; [by left|].
    apply Exists_exists in Hex as (f & Hin & Hf). intros Hnil.
    assert (f ∈ filter (λ f, is_blocking f = true) (checked_findings obj))
      as Hf' by (by apply list_elem_of_filter).
    rewrite Hnil in Hf'. by apply elem_of_nil in Hf'.
  - intros Hs Hq. rewrite (validate_review_returns _ _ _ Hm Hs).
    eexists. split; [done|]. rewrite cross_field_errors_nits, !elem_of_app.
    right. right. destruct (checked_questions obj); [done|]. by left.
  - intros Hs Hq. rewrite (validate_review_returns _ _ _ Hm Hs).
    eexists. split; [done|]. rewrite cross_field_errors_question, Hq, elem_of_app.
    right. by left.
Qed.

Lemma validate_review_nits_and_question_witness :
  (∃ errors,
     validate_review (review_record APPROVED_WITH_NITS [finding_of P1] []) None
       = Some errors ∧ NitsWithBlocking ∈ errors) ∧
  (∃ errors,
     validate_review (review_record QUESTION [] []) None = Some errors ∧
     QuestionWithoutQuestions ∈ errors).
Proof.
  split.
  - apply (validate_review_nits_and_question
             (review_record APPROVED_WITH_NITS [finding_of P1] []) None);
      [reflexivity|reflexivity|].
    apply Exists_cons_hd. vm_compute. reflexivity.
  - apply (validate_review_nits_and_question (review_record QUESTION [] []) None);
      reflexivity.
Defined.

End ValidateReviewMoreFacts.

(** * Further facts about [lint-sot.py] *)
Module LintSotHelpersFacts.
Import PyFacts PyMoreFacts MdSanitizeFacts LintSotFacts.

(** ** Tables *)

Lemma count_data_rows_filter cols count rows post :
  Forall (λ l, startswith [PIPE] (strip l) = true) rows →
  table_ends post = true →
  count_data_rows cols count (rows ++ post) =
  (count + Z.of_nat (length (filter (λ l, is_data_row cols l = true) rows)))%Z.
Proof.
  intros Hrows Hpost. revert count.
  induction Hrows as [|l rows Hl _ IH]; intros count.
  - cbn [app filter length]. rewrite count_data_rows_end by done. cbn. lia.
  - assert (is_data_row cols l =
            negb (is_alignment_row (strip l)) &&
            (length (parse_table_cells (strip l)) =? cols)%nat) as Hd
      by (unfold is_data_row; by rewrite Hl).
    cbn [app count_data_rows]. rewrite Hl. cbn [negb]. rewrite filter_cons.
    destruct (is_alignment_row (strip l));
      destruct (length (parse_table_cells (strip l)) =? cols)%nat;
      cbn [negb andb] in Hd |- *; rewrite IH.
    + by rewrite decide_False by congruence.
    + by rewrite decide_False by congruence.
    + rewrite decide_True by done. cbn [length]. lia.
    + by rewrite decide_False by congruence.
Qed.

Lemma count_data_rows_ge cols count lines :
  (count ≤ count_data_rows cols count lines)%Z.
Proof.
  revert count. induction lines as [|l ls IH]; intros count; cbn [count_data_rows].
  - lia.
  - destruct (negb _); [lia|]. destruct (is_alignment_row _); [apply IH|].
    destruct (negb _); [apply IH|]. specialize (IH (count + 1)%Z). lia.
Qed.

Lemma count_table_rows_none req lines :
  count_table_rows req lines = (-1)%Z ↔
  Forall (λ l, is_table_header req l = false) lines.
Proof.
  induction lines as [|l ls IH]; cbn [count_table_rows].
  - split; [constructor|done].
  - destruct (is_table_header req l) eqn:E.
    + split.
      * pose proof (count_data_rows_ge
          (length (parse_table_cells (strip l))) 0 ls). lia.
      * intros [? _]%Forall_cons. congruence.
    + rewrite IH. split; [by constructor|by intros [_ ?]%Forall_cons].
Qed.

(** X16. [count_markdown_table_rows_with_headers] returns -1 exactly when
    no line is a header with every required column. After the first
    header it counts, among the lines that begin with a pipe, the rows that
    are no alignment row and have as many cells as the header, up to the
    first line that does not begin with a pipe. *)
Theorem count_markdown_table_rows_spec
    (section : pystr) (required_headers : list pystr) :
  (count_markdown_table_rows_with_headers section required_headers = (-1)%Z ↔
   Forall (λ l, is_table_header required_headers l = false)
          (splitlines section)) ∧
  (∀ pre header rows post,
     splitlines section = pre ++ header :: rows ++ post →
     Forall (λ l, is_table_header required_headers l = false) pre →
     is_table_header required_headers header = true →
     Forall (λ l, startswith [PIPE] (strip l) = true) rows →
     table_ends post = true →
     count_markdown_table_rows_with_headers section required_headers =
     Z.of_nat (length (filter
       (λ l, is_data_row (length (parse_table_cells (strip header))) l = true)
       rows))).
Proof.
  unfold count_markdown_table_rows_with_headers. split.
  - apply count_table_rows_none.
  - intros pre header rows post -> Hpre Hheader Hrows Hpost.
    rewrite count_table_rows_header by done.
    by rewrite count_data_rows_filter.
Qed.

Lemma count_markdown_table_rows_spec_witness :
  count_markdown_table_rows_with_headers
    (unlines ["intro"; "| a | b |"; "|---|---|"; "| 1 | 2 |"; "| 3 |";
              "| 4 | 5 |"; ""; "| 6 | 7 |"])
    [py "a"; py "b"] = 2%Z.
Proof.
  apply (proj2 (count_markdown_table_rows_spec _ _)
           [py "intro"] (py "| a | b |")
           [py "|---|---|"; py "| 1 | 2 |"; py "| 3 |"; py "| 4 | 5 |"]
           [[]; py "| 6 | 7 |"]).
  - vm_compute. reflexivity.
  - constructor; [vm_compute; reflexivity|constructor].
  - vm_compute. reflexivity.
  - repeat (constructor; [vm_compute; reflexivity|]). constructor.
  - vm_compute. reflexivity.
Defined.

(** ** Labeled blocks *)

Lemma labeled_block_loop_before start ends pre rest :
  Forall (λ l, strip l ≠ start) pre →
  labeled_block_loop start ends false (pre ++ rest) =
  labeled_block_loop start ends false rest.
Proof.
  induction 1 as [|l pre Hl _ IH]; [done|].
  cbn [app labeled_block_loop negb].
  destruct (str_eqb (strip l) start) eqn:E; [|done].
  by apply str_eqb_eq in E.
Qed.

Lemma labeled_block_loop_body start ends body rest :
  Forall (λ l, strip l ∉ ends) body →
  match rest with [] => True | l :: _ => strip l ∈ ends end →
  labeled_block_loop start ends true (body ++ rest) = body.
Proof.
  intros Hbody Hrest. induction Hbody as [|l body Hl _ IH].
  - destruct rest as [|l r]; [done|]. cbn [app labeled_block_loop negb].
    by rewrite (proj2 (str_in_elem_of _ _) Hrest).
  - cbn [app labeled_block_loop negb].
    destruct (str_in (strip l) ends) eqn:E; [by apply str_in_elem_of in E|].
    by rewrite IH.
Qed.

(** X17. [extract_labeled_block] returns the lines between the first line
    that is the start label and the next line that is an end label (or the
    end of the section), joined by newlines; it returns the empty string
    when no line is the start label. *)
Theorem extract_labeled_block_spec
    (section start_label : pystr) (end_labels : list pystr) :
  (Forall (λ l, strip l ≠ start_label) (splitlines section) →
   extract_labeled_block section start_label end_labels = []) ∧
  (∀ pre label_line body rest,
     splitlines section = pre ++ label_line :: body ++ rest →
     Forall (λ l, strip l ≠ start_label) pre →
     strip label_line = start_label →
     Forall (λ l, strip l ∉ end_labels) body →
     match rest with [] => True | l :: _ => strip l ∈ end_labels end →
     extract_labeled_block section start_label end_labels = join [LF] body).
Proof.
  unfold extract_labeled_block. split.
  - intros H. rewrite <-(app_nil_r (splitlines section)).
    by rewrite labeled_block_loop_before.
  - intros pre l0 body rest -> Hpre Hl0 Hbody Hrest.
    rewrite labeled_block_loop_before by done.
    cbn [labeled_block_loop negb].
    rewrite (proj2 (str_eqb_eq _ _) Hl0).
    by rewrite labeled_block_loop_body.
Qed.

Lemma extract_labeled_block_spec_witness :
  extract_labeled_block (unlines ["x"; " A: "; "1"; "2"; "B:"; "3"])
    (py "A:") [py "B:"] = py "1" ++ [LF] ++ py "2".
Proof.
  apply (proj2 (extract_labeled_block_spec _ _ _)
           [py "x"] (py " A: ") [py "1"; py "2"] [py "B:"; py "3"]).
  - vm_compute. reflexivity.
  - constructor; [vm_compute; discriminate|constructor].
  - vm_compute. reflexivity.
  - repeat (constructor; [apply (bool_decide_unpack _); vm_compute; reflexivity|]).
    constructor.
  - apply (bool_decide_unpack _). vm_compute. reflexivity.
Defined.

(** ** Evidence links *)

Lemma evidence_loop_before pre rest :
  Forall (λ l, startswith EVIDENCE_LABEL (strip l) = false) pre →
  evidence_loop false (pre ++ rest) = evidence_loop false rest.
Proof.
  induction 1 as [|l pre Hl _ IH]; [done|].
  cbn [app evidence_loop negb]. by rewrite Hl.
Qed.

Lemma evidence_loop_found mid u rest :
  Forall (λ l, starts_other_label l = false ∧
               _RESEARCH_EVIDENCE_URL_RE l = false) mid →
  starts_other_label u = false → _RESEARCH_EVIDENCE_URL_RE u = true →
  evidence_loop true (mid ++ u :: rest) = true.
Proof.
  intros Hmid Hu1 Hu2. induction Hmid as [|l mid [Hl1 Hl2] _ IH].
  - cbn [app evidence_loop negb]. unfold starts_other_label in Hu1.
    by rewrite Hu1, Hu2.
  - cbn [app evidence_loop negb]. unfold starts_other_label in Hl1.
    by rewrite Hl1, Hl2.
Qed.

Lemma evidence_loop_true_inv lines :
  evidence_loop true lines = true →
  ∃ mid u rest, lines = mid ++ u :: rest ∧
    Forall (λ l, starts_other_label l = false ∧
                 _RESEARCH_EVIDENCE_URL_RE l = false) mid ∧
    starts_other_label u = false ∧ _RESEARCH_EVIDENCE_URL_RE u = true.
Proof.
  induction lines as [|l ls IH]; [done|].
  cbn [evidence_loop negb].
  destruct (existsb _ _ && negb _) eqn:Ho; [done|].
  destruct (_RESEARCH_EVIDENCE_URL_RE l) eqn:Hu.
  - intros _. by exists [], l, ls.
  - intros (mid & u & rest & -> & ? & ? & ?)%IH.
    exists (l :: mid), u, rest. split_and!; try done. by constructor.
Qed.

Lemma evidence_loop_false_inv lines :
  evidence_loop false lines = true →
  ∃ pre l0 after, lines = pre ++ l0 :: after ∧
    Forall (λ l, startswith EVIDENCE_LABEL (strip l) = false) pre ∧
    startswith EVIDENCE_LABEL (strip l0) = true ∧
    evidence_loop true after = true.
Proof.
  induction lines as [|l ls IH]; [done|].
  cbn [evidence_loop negb].
  destruct (startswith EVIDENCE_LABEL (strip l)) eqn:E.
  - intros H. by exists [], l, ls.
  - intros (pre & l0 & after & -> & ? & ? & ?)%IH.
    exists (l :: pre), l0, after. split_and!; try done. by constructor.
Qed.

(** X18. [has_candidate_evidence_url] holds exactly when, after the first
    line that begins with the label of the evidence links, a line with a
    URL bullet comes before any line that begins with another of the
    required labels, and does not itself begin with one. *)
Theorem has_candidate_evidence_url_spec (block : pystr) :
  has_candidate_evidence_url block = true ↔
  ∃ pre label_line mid url_line rest,
    splitlines block = pre ++ label_line :: mid ++ url_line :: rest ∧
    Forall (λ l, startswith EVIDENCE_LABEL (strip l) = false) pre ∧
    startswith EVIDENCE_LABEL (strip label_line) = true ∧
    Forall (λ l, starts_other_label l = false ∧
                 _RESEARCH_EVIDENCE_URL_RE l = false) mid ∧
    starts_other_label url_line = false ∧
    _RESEARCH_EVIDENCE_URL_RE url_line = true.
Proof.
  unfold has_candidate_evidence_url. split.
  - intros (pre & l0 & after & -> & ? & ? & Hafter)%evidence_loop_false_inv.
    apply evidence_loop_true_inv in Hafter as (mid & u & rest & -> & ? & ? & ?).
    by exists pre, l0, mid, u, rest.
  - intros (pre & l0 & mid & u & rest & -> & Hpre & Hl0 & Hmid & Hu1 & Hu2).
    rewrite evidence_loop_before by done.
    cbn [evidence_loop negb]. rewrite Hl0.
    by apply evidence_loop_found.
Qed.

(** The two blocks of the repository's test of
    [has_candidate_evidence_url]. *)
Example test_has_candidate_evidence_url :
  has_candidate_evidence_url
    (unlines [""; "候補-1"; "概要: x"; "適用可否: Yes"; "仮説: x"; "反証: x";
              "採否理由: x"; "根拠リンク:"; "- https://example.com/a";
              "捨て条件: x"; "リスク/検証: x"]) = true ∧
  has_candidate_evidence_url
    (unlines [""; "候補-1"; "概要: x"; "適用可否: Yes"; "仮説: x"; "反証: x";
              "採否理由: x"; "根拠リンク:"; "捨て条件: x"; "リスク/検証: x"])
    = false.
Proof. by vm_compute. Qed.

(** ** Link targets *)

Lemma first_word_stripped t :
  t ≠ [] → from_option isspace false (head t) = false →
  ∃ w, first_word t = Some w ∧ w ≠ [] ∧
    Forall (λ c, isspace c = false) w ∧ (∀ c, c ∈ w → c ∈ t).
Proof.
  intros Hne Hh. unfold first_word.
  rewrite lstrip_fixed by (by destruct t).
  destruct t as [|c r]; [done|]. cbn in Hh.
  eexists. split; [done|]. cbn [take_while]. rewrite Hh. cbn [negb].
  split_and!; [done| |].
  - constructor; [done|]. apply Forall_forall.
    intros x [_ Hx]%take_while_elem_of. by apply negb_true_iff.
  - intros x [->|[Hx _]%take_while_elem_of]%elem_of_cons; [by left|by right].
Qed.

Lemma strip_head_opt s : from_option isspace false (head (strip s)) = false.
Proof.
  destruct (strip s) as [|c r] eqn:E; [done|]. cbn. by eapply strip_head.
Qed.

(** X19. [normalize_target] raises no [IndexError]: the text it takes the
    first word of is stripped and not empty. What it returns is stripped
    and contains no [#], no [?], no space, no tab and no newline. *)
Theorem normalize_target_total (target : pystr) :
  ∃ t, normalize_target target = Some t ∧
    (HASH ∉ t) ∧ (QUESTION_MARK ∉ t) ∧ (SPACE ∉ t) ∧ (TAB ∉ t) ∧ (LF ∉ t) ∧
    strip t = t.
Proof.
  unfold normalize_target.
  set (t1 := strip target).
  set (t2 := if startswith [60] t1 && endswith [62] t1
             then strip (removelast (drop 1 t1)) else t1).
  set (t3 := if (startswith [DQUOTE] t2 && endswith [DQUOTE] t2)
                || (startswith [SQUOTE] t2 && endswith [SQUOTE] t2)
             then strip (removelast (drop 1 t2)) else t2).
  assert (from_option isspace false (head t3) = false) as Hhead.
  { unfold t3, t2, t1.
    repeat match goal with |- context [if ?b then _ else _] => destruct b end;
      apply strip_head_opt. }
  assert (∃ w, (if bool_decide (SPACE ∈ t3) || bool_decide (TAB ∈ t3)
                   || bool_decide (LF ∈ t3)
                then first_word t3 else Some t3) = Some w ∧
               (SPACE ∉ w) ∧ (TAB ∉ w) ∧ (LF ∉ w)) as (w & -> & Hw1 & Hw2 & Hw3).
  { destruct (bool_decide (SPACE ∈ t3) || bool_decide (TAB ∈ t3)
              || bool_decide (LF ∈ t3)) eqn:E.
    - assert (t3 ≠ []) as Hne.
      { intros Hnil. rewrite Hnil in E.
        rewrite !bool_decide_eq_false_2 in E by apply not_elem_of_nil. done. }
      destruct (first_word_stripped t3 Hne Hhead) as (w & -> & _ & Hall & _).
      exists w. rewrite Forall_forall in Hall.
      split_and!; [done|..]; intros Hin; by apply Hall in Hin.
    - apply orb_false_iff in E as [[E1 E2]%orb_false_iff E3].
      apply bool_decide_eq_false in E1, E2, E3. by exists t3. }
  cbn [fmap option_fmap option_map]. eexists. split; [done|].
  assert (∀ c, c ∈ strip (split1_head QUESTION_MARK (split1_head HASH w)) →
               c ∈ w ∧ c ≠ HASH ∧ c ≠ QUESTION_MARK) as Hin.
  { intros c [[? ?]%split1_head_elem_of ?]%strip_elem_of%split1_head_elem_of.
    done. }
  split_and!.
  - intros H%Hin. by destruct H as (_ & ? & _).
  - intros H%Hin. by destruct H as (_ & _ & ?).
  - by intros [? _]%Hin.
  - by intros [? _]%Hin.
  - by intros [? _]%Hin.
  - apply strip_idemp.
Qed.

(** ** [strip_inline_code_spans] *)

Lemma strip_spans_from_sublist skip copy s :
  sublist (strip_spans_from skip copy s) s.
Proof.
  revert skip copy. induction s as [|ch s IH]; intros skip copy; [done|].
  cbn [strip_spans_from]. destruct skip as [|k].
  - destruct copy as [|k]; [|by apply sublist_skip].
    destruct (negb (ch =? BACKTICK)); [by apply sublist_skip|].
    destruct (find_sub _ _); [by apply sublist_cons|by apply sublist_skip].
  - by apply sublist_cons.
Qed.

Lemma strip_spans_from_no_backtick copy s :
  BACKTICK ∉ s → strip_spans_from 0 copy s = s.
Proof.
  revert copy. induction s as [|ch s IH]; intros copy Hs; [done|].
  apply not_elem_of_cons in Hs as [Hc Hs].
  cbn [strip_spans_from]. destruct copy as [|k]; [|by rewrite IH].
  destruct (N.eqb_spec ch BACKTICK); [done|]. cbn [negb]. by rewrite IH.
Qed.

(** X20. [strip_inline_code_spans] only deletes: what it returns is the
    text with some characters left out; a text without a backtick is
    returned as it is. *)
Theorem strip_inline_code_spans_only_deletes (text : pystr) :
  sublist (strip_inline_code_spans text) text ∧
  (BACKTICK ∉ text → strip_inline_code_spans text = text).
Proof.
  split; [apply strip_spans_from_sublist|apply strip_spans_from_no_backtick].
Qed.

Lemma strip_inline_code_spans_only_deletes_witness :
  sublist (strip_inline_code_spans (py "plain text")) (py "plain text") ∧
  strip_inline_code_spans (py "plain text") = py "plain text".
Proof.
  destruct (strip_inline_code_spans_only_deletes (py "plain text")) as [H1 H2].
  split; [exact H1|]. apply H2.
  apply (bool_decide_unpack _). vm_compute. reflexivity.
Defined.

Lemma find_sub_backtick x b :
  BACKTICK ∉ x → find_sub [BACKTICK] (x ++ BACKTICK :: b) = Some (length x).
Proof.
  intros Hx. induction x as [|c x IH]; [done|].
  apply not_elem_of_cons in Hx as [Hc Hx].
  cbn [app find_sub startswith length].
  destruct (N.eqb_spec BACKTICK c); [congruence|]. cbn [andb].
  by rewrite IH.
Qed.

Lemma strip_spans_from_skip k s :
  (k ≤ length s)%nat →
  strip_spans_from k 0 s = strip_spans_from 0 0 (drop k s).
Proof.
  revert k. induction s as [|c s IH]; intros [|k] Hk; try done.
  cbn [strip_spans_from drop]. apply IH. cbn in Hk. lia.
Qed.

Lemma mask_from_single k x :
  BACKTICK ∉ x → mask_from k false (x ++ [BACKTICK]) = x ++ [BACKTICK].
Proof.
  intros Hx. revert k. induction x as [|c x IH]; intros k.
  - by destruct k.
  - apply not_elem_of_cons in Hx as [Hc Hx].
    cbn [app mask_from]. destruct k as [|k]; [|by rewrite IH].
    destruct (c =? BACKSLASH); [by rewrite IH|].
    destruct (N.eqb_spec c BACKTICK); [done|]. by rewrite IH.
Qed.

Lemma strip_spans_from_backtick s :
  strip_spans_from 0 0 (BACKTICK :: s) =
  let j := run_length BACKTICK (BACKTICK :: s) in
  match find_sub (take j (BACKTICK :: s)) (drop j (BACKTICK :: s)) with
  | None => BACKTICK :: strip_spans_from 0 (j - 1) s
  | Some k => strip_spans_from (j + k + j - 1) 0 s
  end.
Proof. reflexivity. Qed.

(** X21. The two code span scanners differ on an escaped backtick, as the
    docstring of [strip_inline_code_spans] says: it takes the backtick
    after a backslash for a delimiter and removes the text up to the next
    backtick, which the mask of [md_sanitize] leaves in place. *)
Theorem strip_inline_code_spans_ignores_escapes (x : pystr) :
  BACKTICK ∉ x → x ≠ [] →
  strip_inline_code_spans ([BACKSLASH; BACKTICK] ++ x ++ [BACKTICK])
    = [BACKSLASH] ∧
  _mask_inline_code_spans ([BACKSLASH; BACKTICK] ++ x ++ [BACKTICK])
    = [BACKSLASH; BACKTICK] ++ x ++ [BACKTICK].
Proof.
  intros Hx Hne. split.
  - unfold strip_inline_code_spans.
    change (strip_spans_from 0 0 ([BACKSLASH; BACKTICK] ++ x ++ [BACKTICK]))
      with (BACKSLASH :: strip_spans_from 0 0 (BACKTICK :: x ++ [BACKTICK])).
    f_equal. rewrite strip_spans_from_backtick.
    assert (run_length BACKTICK (BACKTICK :: x ++ [BACKTICK]) = 1%nat) as ->.
    { destruct x as [|c x]; [done|]. apply not_elem_of_cons in Hx as [Hc _].
      cbn. by destruct (N.eqb_spec c BACKTICK). }
    cbv zeta. change (take 1 (BACKTICK :: x ++ [BACKTICK])) with [BACKTICK].
    change (drop 1 (BACKTICK :: x ++ [BACKTICK])) with (x ++ [BACKTICK]).
    rewrite find_sub_backtick by done.
    rewrite strip_spans_from_skip by (rewrite length_app; cbn; lia).
    replace (1 + length x + 1 - 1)%nat with (length (x ++ [BACKTICK]))
      by (rewrite length_app; cbn; lia).
    by rewrite drop_all.
  - rewrite mask_inline_code_spans_structural.
    change (mask_from 0 false ([BACKSLASH; BACKTICK] ++ x ++ [BACKTICK]))
      with (BACKSLASH :: BACKTICK :: mask_from 0 false (x ++ [BACKTICK])).
    by rewrite mask_from_single.
Qed.

Lemma strip_inline_code_spans_ignores_escapes_witness :
  strip_inline_code_spans (py "\`<!-- x`") = py "\" ∧
  _mask_inline_code_spans (py "\`<!-- x`") = py "\`<!-- x`".
Proof.
  apply (strip_inline_code_spans_ignores_escapes (py "<!-- x")).
  - apply (bool_decide_unpack _). vm_compute. reflexivity.
  - vm_compute. discriminate.
Defined.

(** ** Root paths *)

(** A component without a backslash is a component of the text in which
    the backslashes are slashes. *)
Lemma split_replace_backslash x s :
  x ∈ split SLASH s → BACKSLASH ∉ x →
  x ∈ split SLASH (replace [BACKSLASH] [SLASH] s).
Proof.
  intros Hin Hx. rewrite replace_char.
  set (g := λ c, if c =? BACKSLASH then SLASH else c).
  assert (map g x = x) as Hgx.
  { clear Hin. induction x as [|c x IH]; [done|].
    apply not_elem_of_cons in Hx as [Hc Hx]. cbn [map]. rewrite IH by done.
    unfold g. by destruct (N.eqb_spec c BACKSLASH). }
  remember (length s) as n eqn:Hn. revert s Hn Hin.
  induction (lt_wf n) as [n _ IH]; intros s -> Hin.
  destruct (first_sep SLASH s) as [Hs|(a & b & -> & Ha)].
  - rewrite split_no_sep in Hin by done. apply list_elem_of_singleton in Hin as ->.
    rewrite Hgx, split_no_sep by done. by left.
  - rewrite split_app_sep, (split_no_sep _ a) in Hin by done.
    rewrite map_app. cbn [map]. change (g SLASH) with SLASH.
    rewrite split_app_sep. apply elem_of_app.
    apply elem_of_cons in Hin as [->|Hin].
    + left. rewrite Hgx, split_no_sep by done. by left.
    + right. eapply IH; [|done|done]. rewrite length_app. cbn. lia.
Qed.

(** A component that does not begin or end with whitespace is a component
    of the stripped text. *)
Lemma split_strip x s :
  x ∈ split SLASH s → x ≠ [] →
  from_option isspace false (head x) = false →
  from_option isspace false (last x) = false →
  x ∈ split SLASH (strip s).
Proof.
  intros Hin Hne Hh Hl.
  destruct (strip_parts s) as (w1 & w2 & Hs & Hw1 & Hw2).
  assert (∀ w, Forall (λ c, isspace c = true) w → SLASH ∉ w) as Hsl.
  { intros w Hw Hin'. rewrite Forall_forall in Hw. by apply Hw in Hin'. }
  rewrite Hs in Hin.
  destruct (split_prepend SLASH w1 (strip s ++ w2) (Hsl _ Hw1))
    as (hd & tl & H1 & H2).
  rewrite H2 in Hin.
  assert (x ∈ split SLASH (strip s ++ w2)) as Hin2.
  { rewrite H1. apply elem_of_cons in Hin as [->|Hin]; [|by right].
    destruct w1 as [|c w1]; [by left|].
    apply Forall_cons in Hw1 as [Hc _]. cbn in Hh. congruence. }
  destruct (split_append SLASH (strip s) w2 (Hsl _ Hw2))
    as (init & lst & H3 & H4).
  rewrite H4 in Hin2. rewrite H3.
  apply elem_of_app in Hin2 as [Hin2|Hin2]; [by apply elem_of_app; left|].
  apply list_elem_of_singleton in Hin2 as ->.
  apply elem_of_app. right.
  destruct w2 as [|c w2 _] using rev_ind; [rewrite app_nil_r; by left|].
  apply Forall_app in Hw2 as [_ [Hc _]%Forall_cons].
  rewrite app_assoc, last_snoc in Hl. cbn in Hl. congruence.
Qed.

Lemma dotdot_parts p :
  DOTDOT ∈ split SLASH p →
  str_in DOTDOT (filter (λ x, x ≠ []) (split SLASH p)) = true.
Proof.
  intros H. apply str_in_elem_of, list_elem_of_filter. by split.
Qed.

(** X22. A root that [is_safe_repo_relative_root] accepts is not empty and
    not absolute, and none of its components is [..], whether the
    components are separated by slashes only or by backslashes as well. *)
Theorem is_safe_repo_relative_root_sound (root : pystr) :
  is_safe_repo_relative_root root = true →
  root ≠ [] ∧ isabs root = false ∧
  (DOTDOT ∉ split SLASH root) ∧
  (DOTDOT ∉ split SLASH (replace [BACKSLASH] [SLASH] root)).
Proof.
  unfold is_safe_repo_relative_root.
  destruct root as [|c r] eqn:E; [done|]. rewrite <-E.
  destruct (isabs root) eqn:Habs; [done|].
  set (q := replace [BACKSLASH] [SLASH] root).
  set (p := if startswith [46; SLASH] (strip q) then drop 2 (strip q)
            else strip q).
  destruct (str_in p [DOT; DOTDOT]); [done|].
  case_bool_decide; [done|].
  destruct (str_in DOTDOT _) eqn:Hparts; [done|]. intros _.
  assert (DOTDOT ∉ split SLASH q) as Hq.
  { intros Hin.
    apply (split_strip DOTDOT) in Hin; [|done..].
    assert (DOTDOT ∈ split SLASH p) as Hp.
    { unfold p. destruct (startswith [46; SLASH] (strip q)) eqn:Hs; [|done].
      apply startswith_prefix in Hs as [k Hk]. rewrite Hk in Hin |- *.
      cbn [app drop]. cbn [app split] in Hin.
      replace (46 =? SLASH) with false in Hin by done.
      replace (SLASH =? SLASH) with true in Hin by done.
      by apply elem_of_cons in Hin as [?|?]. }
    apply dotdot_parts in Hp. congruence. }
  split_and!; [by rewrite E|done| |done].
  intros Hin. apply Hq, split_replace_backslash; [done|].
  apply (bool_decide_unpack _). by vm_compute.
Qed.

Lemma is_safe_repo_relative_root_sound_witness :
  py "docs/sot" ≠ [] ∧ isabs (py "docs/sot") = false ∧
  (DOTDOT ∉ split SLASH (py "docs/sot")) ∧
  (DOTDOT ∉ split SLASH (replace [BACKSLASH] [SLASH] (py "docs/sot"))).
Proof.
  apply (is_safe_repo_relative_root_sound (py "docs/sot")).
  vm_compute. reflexivity.
Defined.

(** The cases of the repository's test of [is_safe_repo_relative_root]. *)
Example test_is_safe_repo_relative_root :
  is_safe_repo_relative_root (py "docs") = true ∧
  is_safe_repo_relative_root (py "docs/sot") = true ∧
  is_safe_repo_relative_root (py "../docs") = false ∧
  is_safe_repo_relative_root (py "/") = false ∧
  is_safe_repo_relative_root (py ".") = false.
Proof. by vm_compute. Qed.

End LintSotHelpersFacts.

(** * Further facts about [sot_refs.py] *)
Module SotRefsMoreFacts.
Import PyFacts PyMoreFacts.

(** X23. What [normalize_reference] returns has no [#] and is stripped. *)
Theorem normalize_reference_clean (ref : pystr) :
  (HASH ∉ normalize_reference ref) ∧
  strip (normalize_reference ref) = normalize_reference ref.
Proof.
  unfold normalize_reference. split; [|apply strip_idemp].
  by intros [_ ?]%strip_elem_of%split1_head_elem_of.
Qed.

Lemma lstrip_app_keep y c z :
  isspace c = false → ∃ y', lstrip (y ++ c :: z) = y' ++ c :: z.
Proof.
  intros Hc. induction y as [|x y [y' IH]]; cbn [app lstrip].
  - rewrite Hc. by exists [].
  - destruct (isspace x); [by exists y'|]. by exists (x :: y).
Qed.

Lemma rstrip_app_keep a c r :
  isspace c = false → ∃ r', rstrip (a ++ c :: r) = a ++ c :: r'.
Proof.
  intros Hc. unfold rstrip.
  rewrite reverse_app, reverse_cons, <-app_assoc. cbn [app].
  destruct (lstrip_app_keep (reverse r) c (reverse a) Hc) as [y' ->].
  exists (reverse y').
  rewrite reverse_app, reverse_cons, reverse_involutive, <-app_assoc. done.
Qed.

Lemma split1_head_app sep a r :
  sep ∉ a → split1_head sep (a ++ sep :: r) = a.
Proof.
  intros Ha. induction a as [|x a IH]; cbn [app split1_head].
  - by rewrite N.eqb_refl.
  - apply not_elem_of_cons in Ha as [Hx Ha].
    destruct (N.eqb_spec x sep); [done|]. by rewrite IH.
Qed.

Lemma split1_head_none sep a : sep ∉ a → split1_head sep a = a.
Proof.
  intros Ha. induction a as [|x a IH]; [done|]. cbn [split1_head].
  apply not_elem_of_cons in Ha as [Hx Ha].
  destruct (N.eqb_spec x sep); [done|]. by rewrite IH.
Qed.

Lemma drop_while_app (f : char → bool) a c r :
  Forall (λ x, f x = true) a → f c = false →
  drop_while f (a ++ c :: r) = c :: r.
Proof.
  intros Ha Hc. induction Ha as [|x a Hx _ IH]; cbn [app drop_while].
  - by rewrite Hc.
  - by rewrite Hx.
Qed.

Lemma take_while_app (f : char → bool) a c r :
  Forall (λ x, f x = true) a → f c = false →
  take_while f (a ++ c :: r) = a.
Proof.
  intros Ha Hc. induction Ha as [|x a Hx _ IH]; cbn [app take_while].
  - by rewrite Hc.
  - by rewrite Hx, IH.
Qed.

Lemma unwrap_other opening closing ref :
  head ref ≠ Some opening → unwrap opening closing ref = ref.
Proof.
  intros H. unfold unwrap. destruct ref as [|c r]; [done|].
  cbn [startswith]. destruct (N.eqb_spec opening c) as [->|]; [done|]. done.
Qed.

(** X24. The reference of a Markdown link is its target: for a link
    [[text](target)] or [[text](target#fragment)] whose target is stripped
    and not empty, has no [#] and no closing parenthesis and does not begin
    with an angle bracket or a backtick, [normalize_reference] returns the
    target. *)
Theorem normalize_reference_link (text target tail : pystr) :
  (93 ∉ text) → target ≠ [] → strip target = target →
  (41 ∉ target) → (HASH ∉ target) →
  head target ≠ Some 60 → head target ≠ Some BACKTICK →
  (tail = [] ∨ ∃ fragment, tail = HASH :: fragment) → (41 ∉ tail) →
  normalize_reference ([91] ++ text ++ [93; 40] ++ target ++ tail ++ [41]) =
  target.
Proof.
  intros Htext Hne Hstrip Hp Hh H60 Hbt Htail Hptail.
  unfold normalize_reference.
  set (ref := [91] ++ text ++ [93; 40] ++ target ++ tail ++ [41]).
  assert (strip ref = ref) as ->.
  { apply strip_fixed; [done|]. unfold ref.
    rewrite !app_assoc, last_snoc. done. }
  assert (md_link_search ref = Some (target ++ tail)) as ->.
  { assert (md_link_at ref = Some (target ++ tail)) as Hat.
    { unfold ref, md_link_at. cbn [app]. replace (91 =? 91) with true by done.
      rewrite (drop_while_app _ text 93).
      2:{ apply Forall_forall. intros x Hx. apply negb_true_iff, N.eqb_neq.
          by intros ->. }
      2:{ done. }
      replace ((93 =? 93) && (40 =? 40)) with true by done.
      rewrite (app_assoc target tail [41]).
      rewrite (take_while_app _ (target ++ tail) 41 []).
      2:{ apply Forall_forall. intros x Hx. apply negb_true_iff, N.eqb_neq.
          intros ->. apply elem_of_app in Hx as [?|?]; done. }
      2:{ done. }
      destruct (target ++ tail) as [|n l] eqn:E.
      { apply app_eq_nil in E as [? _]. done. }
      by rewrite drop_app_length. }
    destruct ref; cbn [md_link_search]; by rewrite Hat. }
  assert (∃ tail', strip (target ++ tail) = target ++ tail' ∧
            (tail' = [] ∨ ∃ fragment, tail' = HASH :: fragment))
    as (tail' & -> & Htail').
  { destruct Htail as [->|[fragment ->]].
    - exists []. rewrite !app_nil_r. by split; [|left].
    - destruct target as [|c t] eqn:E; [done|]. rewrite <-E in *.
      assert (isspace c = false) as Hc.
      { apply (strip_head target c t). by rewrite Hstrip. }
      unfold strip. rewrite lstrip_fixed by (by rewrite E).
      destruct (rstrip_app_keep target HASH fragment eq_refl) as [r' ->].
      exists (HASH :: r'). split; [done|]. right. by eexists. }
  assert (head (target ++ tail') = head target) as Hhead
    by (by destruct target).
  rewrite (unwrap_other 60 62) by (by rewrite Hhead).
  rewrite (unwrap_other BACKTICK BACKTICK) by (by rewrite Hhead).
  destruct Htail' as [->|[fragment ->]].
  - by rewrite app_nil_r, split1_head_none.
  - by rewrite split1_head_app.
Qed.

Lemma normalize_reference_link_witness :
  normalize_reference (py "[PRD](docs/prd/a.md#goal)") = py "docs/prd/a.md".
Proof.
  apply (normalize_reference_link (py "PRD") (py "docs/prd/a.md") (py "#goal")).
  - apply (bool_decide_unpack _). vm_compute. reflexivity.
  - vm_compute. discriminate.
  - vm_compute. reflexivity.
  - apply (bool_decide_unpack _). vm_compute. reflexivity.
  - apply (bool_decide_unpack _). vm_compute. reflexivity.
  - vm_compute. discriminate.
  - vm_compute. discriminate.
  - right. by exists (py "goal").
  - apply (bool_decide_unpack _). vm_compute. reflexivity.
Defined.

End SotRefsMoreFacts.
